(** * P2P file transfer: a shallow embedding of the peer, the wire protocol
      and the TCP transport, with the properties of the specification.

    Layout, following the repository:
    - [protocol]   : pkg/protocol/types.go, encoder.go, decoder.go
    - [filepath], [os] : the parts of the Go library the peer calls
    - [peer]       : peer/peer.go, written against the [Transport] interface
                     as programs over the calls they make
    - [transport]  : pkg/transport/tcp.go, over an explicit network state
    - [main]       : main.go, as a program over the calls it makes on the peer
    - [scenario]   : two peers set up as main.go does
    - the properties, one group per function they are about.

    What the model keeps and what it leaves out:
    - a connection carries frames, one per [Encode]; one [Decode] consumes
      one frame. The bytes of the gob encoding and the segmentation of the
      TCP stream are not modelled;
    - every goroutine is a small state machine ([ReaderPC], [DispatchPC],
      the accept loop); a step is what the goroutine does between two
      points where it can block, and the sections under [t.mu] are inside
      one step. The order in which goroutines run is an explicit schedule,
      and what runs while a goroutine sleeps is the parameter [yield];
    - time is a clock advanced by [Sleep]; for the retry loop the
      environment may add any delay to any call;
    - a file system is a map from cleaned paths to files and directories;
      the working directory, the root and their parents exist without
      being listed; permissions, symbolic links and the memory of the
      machine are not modelled. *)

From stdpp Require Import gmap strings list fin_maps.
From Stdlib Require Import ZArith Lia DecimalString.
From Stdlib.Strings Require Import Byte Ascii.

Local Open Scope string_scope.
Local Open Scope list_scope.

(* ===================================================================== *)
(** ** Go values shared by all packages *)
(* ===================================================================== *)

(** Go's [error]: the sentinel [io.EOF], or a value carrying its message
    (what [fmt.Errorf], [os] and [net] return). A nil error is [None]. *)
Inductive error : Type :=
| io_EOF
| errorString (s : string).

Definition Error (e : error) : string :=
  match e with
  | io_EOF => "EOF"
  | errorString s => s
  end.

Definition is_EOF (e : error) : bool :=
  match e with io_EOF => true | errorString _ => false end.

(** A call returning [(T, error)]. *)
Inductive result (A : Type) : Type :=
| Ok (a : A)
| Err (e : error).
Arguments Ok {A} a.
Arguments Err {A} e.

(** The decimal text of an integer, as [%d] prints it. *)
Definition itoa (z : Z) : string := NilZero.string_of_int (Z.to_int z).

(** [time.Duration] counts nanoseconds. *)
Definition Millisecond : Z := 1000000.
Definition Second : Z := 1000 * Millisecond.

(* ===================================================================== *)
(** ** pkg/protocol *)
(* ===================================================================== *)

Module protocol.

Definition MessageTypeStream : Z := 1.
Definition MessageTypeNormal : Z := 2.
Definition MessageTypeFileRequest : Z := 3.
Definition MessageTypeFileResponse : Z := 4.
Definition MessageTypeChunkRequest : Z := 5.
Definition MessageTypeChunkData : Z := 6.

Record FileRequest : Type := mkFileRequest { FileName : string }.

Record FileResponse : Type := mkFileResponse {
  Name : string;
  Size : Z;
  Data : list byte;
  Checksum : string;
  NumChunks : Z;
}.

(** The dynamic value of the [Payload interface{}] field: nil, or one of
    the concrete types registered with gob in codec.go. *)
Inductive Payload : Type :=
| PNil
| PBytes (b : list byte)
| PFileRequest (r : FileRequest)
| PFileResponse (r : FileResponse).

Record Message : Type := mkMessage {
  Type_ : Z;
  From : string;
  FromAddr : string;
  Payload_ : Payload;
}.

(** [&protocol.Message{}] *)
Definition zeroMessage : Message :=
  {| Type_ := 0; From := EmptyString; FromAddr := EmptyString; Payload_ := PNil |}.

(** What travels on a connection for one [Encode]: a well-formed gob
    value of a [Message], or bytes that no decoder accepts. *)
Inductive Frame : Type :=
| FGob (m : Message)
| FJunk (why : string).

(** encoder.go, [GobEncoder.Encode]: the bytes written for [msg]. *)
Definition Encode (msg : Message) : Frame := FGob msg.

(** decoder.go, [GobDecoder.Decode(r, msg)]: gob does not transmit fields
    holding their zero value and leaves those fields of [*msg] as they
    were; the struct handed in is updated in place. *)
Definition Decode (f : Frame) (msg : Message) : result Message :=
  match f with
  | FGob m =>
      Ok {| Type_ := if decide (Type_ m = 0%Z) then Type_ msg else Type_ m;
            From := if decide (From m = EmptyString) then From msg else From m;
            FromAddr := if decide (FromAddr m = EmptyString) then FromAddr msg
                        else FromAddr m;
            Payload_ := match Payload_ m with
                        | PNil => Payload_ msg
                        | p => p
                        end |}
  | FJunk why => Err (errorString why)
  end.

End protocol.
Import protocol.

(* ===================================================================== *)
(** ** path/filepath (Unix) *)
(* ===================================================================== *)

Module filepath.

(** [strings.Split(s, "/")] *)
Fixpoint split_slash (s : string) : list string :=
  match s with
  | EmptyString => [EmptyString]
  | String c s' =>
      if Ascii.eqb c "/"%char then EmptyString :: split_slash s'
      else match split_slash s' with
           | [] => [String c EmptyString]
           | x :: xs => String c x :: xs
           end
  end.

Definition rooted (path : string) : bool :=
  match path with
  | String c _ => Ascii.eqb c "/"%char
  | EmptyString => false
  end.

(** One path element processed by [Clean]; [out] holds the elements kept
    so far, last one first. *)
Definition clean_step (root : bool) (out : list string) (c : string)
  : list string :=
  if decide (c = EmptyString) then out
  else if decide (c = ".") then out
  else if decide (c = "..") then
    match out with
    | top :: rest => if decide (top = "..") then c :: out else rest
    | [] => if root then [] else [c]
    end
  else c :: out.

(** [filepath.Clean]: drop empty and [.] elements, resolve inner [..],
    drop [..] at the root, and turn the empty result into [.]. *)
Definition Clean (path : string) : string :=
  let root := rooted path in
  let out := rev (fold_left (clean_step root) (split_slash path) []) in
  if root then "/" +:+ String.concat "/" out
  else match out with
       | [] => "."
       | _ => String.concat "/" out
       end.

(** [filepath.Join]: leading empty elements are skipped, the rest is
    joined with the separator and cleaned. *)
Fixpoint Join (elem : list string) : string :=
  match elem with
  | [] => EmptyString
  | e :: rest =>
      if decide (e = EmptyString) then Join rest
      else Clean (String.concat "/" elem)
  end.

(** The directory holding [path] (for cleaned paths, [filepath.Dir]). *)
Definition Dir (path : string) : string :=
  match rev (split_slash path) with
  | [] | [_] => "."
  | _ :: parent_rev =>
      match rev parent_rev with
      | [EmptyString] => "/"
      | elems => String.concat "/" elems
      end
  end.

(** The elements of a path once cleaned. *)
Definition elements (path : string) : list string :=
  filter (fun c => c <> EmptyString /\ c <> ".") (split_slash (Clean path)).

(** [path] names [root] itself or something below it. *)
Definition under (root path : string) : bool :=
  let r := elements root in
  let p := elements path in
  Bool.eqb (rooted root) (rooted path) &&
  bool_decide (take (length r) p = r) &&
  match drop (length r) p with
  | ".." :: _ => false
  | _ => true
  end.

End filepath.

(* ===================================================================== *)
(** ** os: the file system as the peer sees it *)
(* ===================================================================== *)

Module os.

Inductive FNode : Type :=
| NFile (data : list byte)   (* a regular file and its content *)
| NDir (size : Z).           (* a directory and the size [Stat] reports *)

(** The files of one process, keyed by the cleaned path handed to the
    system calls (relative paths are relative to the working directory,
    which always exists). *)
Abbreviation FS := (gmap string FNode).

(** [*os.File] *)
Record File : Type := mkFile { f_name : string; f_node : FNode }.

Definition ENOENT (op name : string) : error :=
  errorString (op +:+ " " +:+ name +:+ ": no such file or directory").
Definition EISDIR (op name : string) : error :=
  errorString (op +:+ " " +:+ name +:+ ": is a directory").
Definition ENOTDIR (op name : string) : error :=
  errorString (op +:+ " " +:+ name +:+ ": not a directory").
Definition EEXIST (op name : string) : error :=
  errorString (op +:+ " " +:+ name +:+ ": file exists").

Definition all_dotdot (d : string) : bool :=
  forallb (fun c => bool_decide (c = "..")) (filepath.split_slash d).

(** The working directory, the root and their parents are directories
    although the map does not list them. *)
Definition dir_exists (fs : FS) (d : string) : bool :=
  bool_decide (d = ".") || bool_decide (d = "/") || all_dotdot d ||
  match fs !! d with
  | Some (NDir _) => true
  | _ => false
  end.

(** The size [Stat] reports for a directory the file system does not
    list (the working directory, the root and their parents). *)
Definition dir_size : Z := 4096.

(** The elements of a path as the kernel walks them: empty elements
    (doubled and trailing separators) do not count. *)
Definition components (path : string) : list string :=
  filter (fun c => c <> EmptyString) (filepath.split_slash path).

(** Where the walk of a path starts: the root, or the working directory. *)
Definition start_dir (path : string) : string :=
  if filepath.rooted path then "/" else ".".

Inductive Walk : Type :=
| Found (path : string)   (* the walk ends here; the path itself may be missing *)
| NoEnt                   (* a directory on the way is missing *)
| NotDir.                 (* something on the way is not a directory *)

(** The walk of the elements [cs] from the directory [cur]: an element
    is looked up in a directory that has to exist. Without symbolic links
    [..] in an existing directory is its parent by name. *)
Fixpoint walk (fs : FS) (cur : string) (cs : list string) : Walk :=
  match cs with
  | [] => Found cur
  | c :: rest =>
      if dir_exists fs cur then walk fs (filepath.Join [cur; c]) rest
      else match fs !! cur with
           | Some (NFile _) => NotDir
           | _ => NoEnt
           end
  end.

(** What [open] reports for a path that is not there: a regular file on
    the way is [ENOTDIR], anything else [ENOENT]. *)
Definition missing (fs : FS) (name : string) : error :=
  match walk fs (start_dir name) (components name) with
  | NotDir => ENOTDIR "open" name
  | _ => ENOENT "open" name
  end.

(** [os.Open(name)]: read-only, so a directory is opened as well. *)
Definition Open (fs : FS) (name : string) : result File :=
  match fs !! name with
  | Some n => Ok {| f_name := name; f_node := n |}
  | None =>
      if dir_exists fs name then Ok {| f_name := name; f_node := NDir dir_size |}
      else Err (missing fs name)
  end.

Definition File_Stat (f : File) : result Z :=
  match f_node f with
  | NFile data => Ok (Z.of_nat (length data))
  | NDir size => Ok size
  end.

(** runtime (64-bit Linux): the size of the largest allocation; [make]
    panics beyond it. *)
Definition maxAlloc : Z := 281474976710656.

(** The zeroed slice [make([]byte, n)] returns when it does not panic. *)
Definition make_bytes (n : Z) : list byte := replicate (Z.to_nat n) x00.

(** internal/poll: a single read system call moves at most 1GB. *)
Definition maxRW : Z := 1073741824.

(** [File.Read(b)] on a freshly opened file: one read system call.
    Returns the buffer as the call leaves it, the count and the error.
    A zero-length buffer returns [0, nil] without reading; at most
    [maxRW] bytes are moved; at end of file the result is [0, io.EOF]. *)
Definition File_Read (f : File) (b : list byte)
  : list byte * Z * option error :=
  if decide (length b = 0%nat) then (b, 0%Z, None)
  else
    match f_node f with
    | NDir _ => (b, 0%Z, Some (EISDIR "read" (f_name f)))
    | NFile data =>
        let n := Z.min (Z.min (Z.of_nat (length b)) maxRW)
                       (Z.of_nat (length data)) in
        if decide (n = 0%Z) then (b, 0%Z, Some io_EOF)
        else (take (Z.to_nat n) data ++ drop (Z.to_nat n) b, n, None)
    end.

(** What one read of at most [limit] bytes into a zeroed buffer of the
    file's size leaves in the buffer, for a file of content [data]. *)
Definition read_upto (limit : Z) (data : list byte) : list byte :=
  let n := Z.to_nat (Z.min (Z.of_nat (length data)) limit) in
  take n data ++ replicate (length data - n) x00.

(** The same for the single [Read] of the handler. *)
Definition read_once (data : list byte) : list byte := read_upto maxRW data.

(** [os.WriteFile(name, data, perm)]: create or truncate, then write. A
    directory cannot be opened for writing, and missing directories are
    not created. *)
Definition WriteFile (fs : FS) (name : string) (data : list byte) (perm : Z)
  : FS * option error :=
  if dir_exists fs name then (fs, Some (EISDIR "open" name))
  else if bool_decide (name = EmptyString) then (fs, Some (ENOENT "open" name))
  else if dir_exists fs (filepath.Dir name) then (<[name := NFile data]> fs, None)
  else (fs, Some (missing fs name)).

(* ------------------------------------------------------------------- *)
(** *** Paths as the kernel resolves them, and making directories *)

Definition trailing_slash (path : string) : bool :=
  match last (filepath.split_slash path) with
  | Some EmptyString => true
  | _ => false
  end.

(** [os.Stat(name)]: the node the path leads to. *)
Definition Stat (fs : FS) (name : string) : result FNode :=
  if decide (name = EmptyString) then Err (ENOENT "stat" name)
  else
    match walk fs (start_dir name) (components name) with
    | Found p =>
        if dir_exists fs p then
          Ok (match fs !! p with Some (NDir size) => NDir size | _ => NDir dir_size end)
        else
          match fs !! p with
          | Some (NFile data) =>
              if trailing_slash name then Err (ENOTDIR "stat" name) else Ok (NFile data)
          | _ => Err (ENOENT "stat" name)
          end
    | NoEnt => Err (ENOENT "stat" name)
    | NotDir => Err (ENOTDIR "stat" name)
    end.

(** [FileInfo.IsDir()] *)
Definition IsDir (n : FNode) : bool :=
  match n with NDir _ => true | NFile _ => false end.

(** [os.Mkdir(name, perm)]: the parent has to exist, the name must not. *)
Definition Mkdir (fs : FS) (name : string) (perm : Z) : FS * option error :=
  match reverse (components name) with
  | [] =>
      (fs, Some (if decide (name = EmptyString) then ENOENT "mkdir" name
                 else EEXIST "mkdir" name))
  | c :: init_rev =>
      match walk fs (start_dir name) (reverse init_rev) with
      | Found parent =>
          if dir_exists fs parent then
            if bool_decide (c = ".") || bool_decide (c = "..")
            then (fs, Some (EEXIST "mkdir" name))
            else
              let target := filepath.Join [parent; c] in
              match fs !! target with
              | Some _ => (fs, Some (EEXIST "mkdir" name))
              | None => (<[target := NDir dir_size]> fs, None)
              end
          else
            (fs, Some (match fs !! parent with
                       | Some (NFile _) => ENOTDIR "mkdir" name
                       | _ => ENOENT "mkdir" name
                       end))
      | NoEnt => (fs, Some (ENOENT "mkdir" name))
      | NotDir => (fs, Some (ENOTDIR "mkdir" name))
      end
  end.

Fixpoint drop_slashes (l : list ascii) : list ascii :=
  match l with
  | c :: rest => if Ascii.eqb c "/"%char then drop_slashes rest else l
  | [] => []
  end.

Fixpoint drop_element (l : list ascii) : list ascii :=
  match l with
  | c :: rest => if Ascii.eqb c "/"%char then l else drop_element rest
  | [] => []
  end.

(** The parent [MkdirAll] recurses on: [path[:i+1]], where [i] is found
    by scanning backwards over the trailing separators and then over the
    last element. *)
Definition parent_of (path : string) : string :=
  String.string_of_list_ascii
    (rev (drop_element (drop_slashes (rev (String.list_ascii_of_string path))))).

(** [os.MkdirAll(path, perm)], with [fuel] bounding the depth of the
    recursion on the parent. *)
Fixpoint MkdirAll_upto (fuel : nat) (fs : FS) (path : string) (perm : Z)
  : FS * option error :=
  match Stat fs path with
  | Ok n => if IsDir n then (fs, None) else (fs, Some (ENOTDIR "mkdir" path))
  | Err _ =>
      let parent := parent_of path in
      let '(fs1, perr) :=
        if decide (parent = EmptyString) then (fs, None)
        else match fuel with
             | S fuel' => MkdirAll_upto fuel' fs parent perm
             | O => (fs, None)
             end in
      match perr with
      | Some err => (fs1, Some err)
      | None =>
          match Mkdir fs1 path perm with
          | (fs2, None) => (fs2, None)
          | (fs2, Some err) =>
              match Stat fs2 path with
              | Ok n => if IsDir n then (fs2, None) else (fs2, Some err)
              | Err _ => (fs2, Some err)
              end
          end
      end
  end.

(** The parent is shorter than the path, so the length of the path is
    fuel enough. *)
Definition MkdirAll (fs : FS) (path : string) (perm : Z) : FS * option error :=
  MkdirAll_upto (String.length path) fs path perm.

End os.

(* ===================================================================== *)
(** ** Programs over the calls they make *)
(* ===================================================================== *)

(** peer.go is written against the [Transport] interface and the [os],
    [log] and [time] packages. A function of peer.go is the tree of the
    calls it makes: [Ret] returns, [Panic] is a run-time panic, [Vis e k]
    makes the call [e] and continues with [k] applied to what it returns. *)
Inductive Prog (E : Type -> Type) (R : Type) : Type :=
| Ret (r : R)
| Panic (v : string)
| Vis {X : Type} (e : E X) (k : X -> Prog E R).
Arguments Ret {E R} r.
Arguments Panic {E R} v.
Arguments Vis {E R X} e k.

Fixpoint prog_bind {E A B} (f : A -> Prog E B) (p : Prog E A) : Prog E B :=
  match p with
  | Ret a => f a
  | Panic v => Panic v
  | Vis e k => Vis e (fun x => prog_bind f (k x))
  end.

#[export] Instance Prog_ret {E} : MRet (Prog E) := fun _ a => Ret a.
#[export] Instance Prog_bind {E} : MBind (Prog E) := fun _ _ f p => prog_bind f p.

Definition trigger {E X} (e : E X) : Prog E X := Vis e Ret.

(** How a goroutine ends. *)
Inductive Outcome (R : Type) : Type :=
| Returned (r : R)
| Panicked (v : string).
Arguments Returned {R} r.
Arguments Panicked {R} v.

(** Running a program against an environment that answers every call and
    says how long the call took; the run records each call with the time
    it was made and its answer. *)
Section Exec.
Context {E : Type -> Type}.

Inductive Entry : Type :=
| En {X : Type} (at_ : Z) (e : E X) (x : X).

(** What the environment decides: the answer, and the time the call took
    on top of its [nominal] duration. It may look at the history. *)
Definition Env : Type := forall X, list Entry -> E X -> X * N.

Variable nominal : forall X, E X -> Z.
Variable env : Env.

Fixpoint exec {R} (p : Prog E R) (now : Z) (hist : list Entry)
  : Outcome R * Z * list Entry :=
  match p with
  | Ret r => (Returned r, now, hist)
  | Panic v => (Panicked v, now, hist)
  | Vis e k =>
      let '(x, extra) := env _ hist e in
      exec (k x) (now + Z.max 0 (nominal _ e) + Z.of_N extra)
           (hist ++ [En now e x])
  end.
End Exec.
Arguments Entry E : clear implicits.
Arguments Env E : clear implicits.

(* ===================================================================== *)
(** ** peer/peer.go *)
(* ===================================================================== *)

Module peer.

(** The configuration fields of [Peer]; the transport is the one of the
    process running the program. *)
Record Peer : Type := mkPeer {
  id : string;
  listenAddr : string;
  sharedDir : string;
  receivedDir : string;
}.

(** The calls peer.go makes. [transport_Send] is [Transport.Send]. *)
Inductive call : Type -> Type :=
| log_Printf (line : string) : call unit
| os_Open (name : string) : call (result os.File)
| file_Stat (f : os.File) : call (result Z)
| file_Read (f : os.File) (b : list byte) : call (list byte * Z * option error)
| file_Close (f : os.File) : call unit
| os_WriteFile (name : string) (data : list byte) (perm : Z) : call (option error)
| os_Stat (name : string) : call (option error)
| transport_Send (addr : string) (msg : Message) : call (option error)
| time_Sleep (d : Z) : call unit.

Definition nominal X (e : call X) : Z :=
  match e with
  | time_Sleep d => d
  | _ => 0
  end.

(** [defer f.Close()] around the rest of a function body: the file is
    closed when the body returns and when it panics, and the panic goes
    on. *)
Fixpoint defer_Close {R} (f : os.File) (body : Prog call R) : Prog call R :=
  match body with
  | Ret r => trigger (file_Close f);; mret r
  | Panic v => trigger (file_Close f);; Panic v
  | Vis e k => Vis e (fun x => defer_Close f (k x))
  end.

(** [make([]byte, n)]: a run-time panic when [n] is negative or beyond
    the largest allocation. Within the limit the allocation is taken to
    succeed: the memory of the machine is not modelled. *)
Definition make (n : Z) : Prog call (list byte) :=
  if ((0 <=? n) && (n <=? os.maxAlloc))%Z then mret (os.make_bytes n)
  else Panic "runtime error: makeslice: len out of range".

Definition describe (p : Payload) : string :=
  match p with
  | PNil => "nil"
  | PBytes _ => "[]uint8"
  | PFileRequest _ => "*protocol.FileRequest"
  | PFileResponse _ => "*protocol.FileResponse"
  end.

(** The panic of a failed type assertion [x.(T)]. *)
Definition conversion_panic {R} (p : Payload) (want : string) : Prog call R :=
  Panic ("interface conversion: interface {} is " +:+ describe p +:+
         ", not " +:+ want).

Definition handleFileRequest (p : Peer) (msg : Message) : Prog call unit :=
  match Payload_ msg with
  | PFileRequest req =>
      trigger (log_Printf ("Received file request from " +:+ From msg +:+
                           " for file: " +:+ FileName req));;
      let filePath := filepath.Join [sharedDir p; FileName req] in
      opened ← trigger (os_Open filePath);
      match opened with
      | Err _ =>
          trigger (log_Printf ("File not found: " +:+ FileName req))
      | Ok file =>
          defer_Close file (
            st ← trigger (file_Stat file);
            match st with
            | Err err =>
                trigger (log_Printf ("Error reading file stats: " +:+ Error err))
            | Ok size =>
                content ← make size;
                rd ← trigger (file_Read file content);
                let '(content, _, rerr) := rd in
                match rerr with
                | Some err =>
                    trigger (log_Printf ("Error reading file: " +:+ Error err))
                | None =>
                    trigger (log_Printf ("Reading file: " +:+ FileName req +:+
                                         " (size: " +:+ itoa size +:+ " bytes)"));;
                    let resp := {| Name := FileName req; Size := size;
                                   Data := content; Checksum := EmptyString;
                                   NumChunks := 0 |} in
                    let responseMsg :=
                      {| Type_ := MessageTypeFileResponse; From := id p;
                         FromAddr := listenAddr p;
                         Payload_ := PFileResponse resp |} in
                    trigger (log_Printf ("Sending file " +:+ FileName req +:+
                                         " to peer " +:+ From msg));;
                    serr ← trigger (transport_Send (FromAddr msg) responseMsg);
                    match serr with
                    | Some err =>
                        trigger (log_Printf ("Error sending file response: " +:+
                                             Error err))
                    | None =>
                        trigger (log_Printf ("Successfully sent file " +:+
                                             FileName req +:+ " to peer " +:+
                                             From msg))
                    end
                end
            end)
      end
  | other => conversion_panic other "*protocol.FileRequest"
  end.

Definition handleFileResponse (p : Peer) (msg : Message) : Prog call unit :=
  match Payload_ msg with
  | PFileResponse resp =>
      let filePath := filepath.Join [receivedDir p; Name resp] in
      werr ← trigger (os_WriteFile filePath (Data resp) 420);
      match werr with
      | Some err => trigger (log_Printf ("Error saving file: " +:+ Error err))
      | None => trigger (log_Printf ("File received and saved: " +:+ filePath))
      end
  | other => conversion_panic other "*protocol.FileResponse"
  end.

(** The body of the loop of [handleMessages]: the switch on [msg.Type]. *)
Definition dispatch (p : Peer) (msg : Message) : Prog call unit :=
  if decide (Type_ msg = MessageTypeFileRequest) then handleFileRequest p msg
  else if decide (Type_ msg = MessageTypeFileResponse) then handleFileResponse p msg
  else mret tt.

(** [handleMessages], for the sequence of values its [range] receives
    from the message channel until the channel is closed and drained. *)
Fixpoint handleMessages (p : Peer) (received : list Message) : Prog call unit :=
  match received with
  | [] => mret tt
  | msg :: rest => dispatch p msg;; handleMessages p rest
  end.

Definition maxRetries : nat := 5.
Definition retryInterval : Z := Second * 2.

(** The retry loop of [RequestFile] with [todo] iterations left, that is
    with [i = maxRetries - todo]. *)
Fixpoint RequestFile_loop (peerAddr : string) (msg : Message) (todo : nat)
  : Prog call (option error) :=
  match todo with
  | O =>
      mret (Some (errorString ("failed to connect after " +:+
                               itoa (Z.of_nat maxRetries) +:+ " attempts")))
  | S todo' =>
      let i := (maxRetries - todo)%nat in
      err ← trigger (transport_Send peerAddr msg);
      match err with
      | None => mret None
      | Some err =>
          trigger (log_Printf ("Connection attempt " +:+ itoa (Z.of_nat i + 1) +:+
                               " failed: " +:+ Error err +:+
                               ". Retrying in 2s..."));;
          trigger (time_Sleep retryInterval);;
          RequestFile_loop peerAddr msg todo'
      end
  end.

Definition RequestFile (p : Peer) (peerAddr fileName : string)
  : Prog call (option error) :=
  let req := {| FileName := fileName |} in
  let msg := {| Type_ := MessageTypeFileRequest; From := id p;
                FromAddr := EmptyString; Payload_ := PFileRequest req |} in
  RequestFile_loop peerAddr msg maxRetries.

(** [SendFile]: only checks that the file exists. *)
Definition SendFile (p : Peer) (fileName : string) : Prog call (option error) :=
  let filePath := filepath.Join [sharedDir p; fileName] in
  serr ← trigger (os_Stat filePath);
  match serr with
  | Some err =>
      mret (Some (errorString ("file " +:+ fileName +:+ " not found: " +:+
                               Error err)))
  | None =>
      trigger (log_Printf ("Ready to send file " +:+ fileName +:+
                           " to any requesting peer"));;
      mret None
  end.

(** [New]: both directories are created, then the peer is built. The
    transport is the one of the process, and the [peers] map, which no
    function reads or writes, is left out. *)
Definition New (id listenAddr sharedDir receivedDir : string) (fs : os.FS)
  : result Peer * os.FS :=
  match os.MkdirAll fs sharedDir 493 with
  | (fs1, Some err) =>
      (Err (errorString ("failed to create shared directory: " +:+ Error err)), fs1)
  | (fs1, None) =>
      match os.MkdirAll fs1 receivedDir 493 with
      | (fs2, Some err) =>
          (Err (errorString ("failed to create received directory: " +:+ Error err)), fs2)
      | (fs2, None) => (Ok (mkPeer id listenAddr sharedDir receivedDir), fs2)
      end
  end.

End peer.

(* ===================================================================== *)
(** ** main.go *)
(* ===================================================================== *)

(** [main] is written against the [peer] package; it is the tree of the
    calls it makes on the peer and on the log. *)
Module main.

(** The flags after [flag.Parse]. *)
Record Flags : Type := mkFlags {
  peerID : string;
  port : string;
  sendFile : string;
  receiveFile : string;
  targetPeer : string;
  sharedDir : string;
  receivedDir : string;
}.

(** How [main] ends: [log.Fatal] prints and exits the process; otherwise
    it reaches [select {}] and stays there while the goroutines of the
    peer run. *)
Inductive Ending : Type :=
| Fatal (line : string)
| Parked.

(** The calls [main] makes; [p] is the peer [peer.New] returned. The
    transport handed to [peer.New] is the one just built for the same
    address, [NewTCPTransport("localhost:"+port)], so the call carries the
    address once. *)
Inductive call : Type -> Type :=
| log_SetFlags (flags : Z) : call unit
| peer_New (id listenAddr sharedDir receivedDir : string) : call (option error)
| p_Start : call (option error)
| p_RequestFile (peerAddr fileName : string) : call (option error)
| p_SendFile (fileName : string) : call (option error)
| log_Printf (line : string) : call unit.

Definition nominal X (e : call X) : Z := 0.

(** [s[n:]]: a run-time panic when [n] is beyond the length of [s]. *)
Definition slice_from (n : nat) (s : string) : Prog call string :=
  if decide (String.length s < n)%nat then
    Panic ("runtime error: slice bounds out of range [" +:+ itoa (Z.of_nat n) +:+ ":" +:+
           itoa (Z.of_nat (String.length s)) +:+ "]")
  else mret (String.substring n (String.length s - n) s).

(** The default of a directory flag: [filepath.Join(".", prefix+id[4:])]. *)
Definition default_dir (prefix given id : string) : Prog call string :=
  if decide (given = EmptyString) then
    suffix ← slice_from 4 id;
    mret (filepath.Join ["."; prefix +:+ suffix])
  else mret given.

(** What [main] does once the peer has started. *)
Definition file_operation (f : Flags) (shared received : string) : Prog call Ending :=
  if decide (receiveFile f <> EmptyString) then
    if decide (targetPeer f = EmptyString) then
      mret (Fatal "Please specify peer address with -peer flag")
    else
      err ← trigger (p_RequestFile (targetPeer f) (receiveFile f));
      match err with
      | Some err => trigger (log_Printf ("File receive error: " +:+ Error err))
      | None => mret tt
      end;;
      mret Parked
  else if decide (sendFile f <> EmptyString) then
    err ← trigger (p_SendFile (sendFile f));
    match err with
    | Some err => trigger (log_Printf ("File send error: " +:+ Error err))
    | None => trigger (log_Printf ("Ready to send file: " +:+ sendFile f))
    end;;
    mret Parked
  else
    trigger (log_Printf ("Peer " +:+ peerID f +:+ " listening on " +:+ port f));;
    trigger (log_Printf ("Shared directory: " +:+ shared));;
    trigger (log_Printf ("Received files directory: " +:+ received));;
    mret Parked.

(** [main] from the creation of the peer on, once the two directory
    flags have their values: the peer is created and started, then the
    file operation. [log.Fatal(err)] prints the text of the error. *)
Definition with_directories (f : Flags) (shared received : string) : Prog call Ending :=
  err ← trigger (peer_New (peerID f) ("localhost:" +:+ port f) shared received);
  match err with
  | Some err => mret (Fatal (Error err))
  | None =>
      err ← trigger p_Start;
      match err with
      | Some err => mret (Fatal (Error err))
      | None => file_operation f shared received
      end
  end.

Definition main (f : Flags) : Prog call Ending :=
  trigger (log_SetFlags 19);;
  if decide (peerID f = EmptyString \/ port f = EmptyString) then
    mret (Fatal "Please provide -id and -port flags")
  else
    shared ← default_dir "shared" (sharedDir f) (peerID f);
    received ← default_dir "received" (receivedDir f) (peerID f);
    with_directories f shared received.

(** The peers created, the requests made and the files offered in a run,
    and whether the peer was started. *)
Definition new_of (en : Entry call) : option (string * string * string * string) :=
  match en with
  | En _ e _ => match e with
                | peer_New id addr shared received => Some (id, addr, shared, received)
                | _ => None
                end
  end.
Definition request_of (en : Entry call) : option (string * string) :=
  match en with
  | En _ e _ => match e with p_RequestFile addr name => Some (addr, name) | _ => None end
  end.
Definition offer_of (en : Entry call) : option string :=
  match en with
  | En _ e _ => match e with p_SendFile name => Some name | _ => None end
  end.
Definition start_of (en : Entry call) : option (option error) :=
  match en with
  | En _ e x =>
      match e in call X return X -> option (option error) with
      | p_Start => fun err => Some err
      | _ => fun _ => None
      end x
  end.

Definition created (tr : list (Entry call)) := omap new_of tr.
Definition requested (tr : list (Entry call)) := omap request_of tr.
Definition offered (tr : list (Entry call)) := omap offer_of tr.
Definition starts (tr : list (Entry call)) := omap start_of tr.

(** An environment in which every call succeeds at once. *)
Definition all_succeed : Env call :=
  fun X _ e =>
    match e in call X return X * N with
    | log_SetFlags _ => (tt, 0%N)
    | peer_New _ _ _ _ => (None, 0%N)
    | p_Start => (None, 0%N)
    | p_RequestFile _ _ => (None, 0%N)
    | p_SendFile _ => (None, 0%N)
    | log_Printf _ => (tt, 0%N)
    end.

End main.

(* ===================================================================== *)
(** ** The network and the processes on it *)
(* ===================================================================== *)

Module net.

(** One end of an established TCP stream: the [net.Conn] a process holds. *)
Record Endpoint : Type := mkEndpoint {
  ep_owner : nat;            (* the process holding this end *)
  ep_remote : string;        (* [RemoteAddr().String()] *)
  ep_link : nat;             (* the other end of the stream *)
  ep_inbox : list Frame;     (* arrived and not yet read *)
  ep_closed : bool;          (* [Close] was called on this end *)
  ep_eof : bool;             (* the other end was closed *)
}.

Definition set_inbox (q : list Frame) (ep : Endpoint) : Endpoint :=
  {| ep_owner := ep_owner ep; ep_remote := ep_remote ep; ep_link := ep_link ep;
     ep_inbox := q; ep_closed := ep_closed ep; ep_eof := ep_eof ep |}.
Definition set_closed (ep : Endpoint) : Endpoint :=
  {| ep_owner := ep_owner ep; ep_remote := ep_remote ep; ep_link := ep_link ep;
     ep_inbox := ep_inbox ep; ep_closed := true; ep_eof := ep_eof ep |}.
Definition set_eof (ep : Endpoint) : Endpoint :=
  {| ep_owner := ep_owner ep; ep_remote := ep_remote ep; ep_link := ep_link ep;
     ep_inbox := ep_inbox ep; ep_closed := ep_closed ep; ep_eof := true |}.

(** [t.listener]: nil before [StartListening], then listening or closed. *)
Inductive Listener : Type := LNil | LOpen | LClosed.

(** A buffered Go channel of messages. *)
Record Chan : Type := mkChan { ch_buf : list Message; ch_closed : bool }.

End net.
Import net.

Module transport.

(** [make(chan protocol.Message, 1024)] *)
Definition messageCh_cap : nat := 1024.

Record TCPTransport : Type := mkTCPTransport {
  listenAddr : string;
  listener : Listener;
  messageCh : Chan;
  peers : gmap string nat;
}.

Definition NewTCPTransport (listenAddr : string) : TCPTransport :=
  {| listenAddr := listenAddr; listener := LNil;
     messageCh := {| ch_buf := []; ch_closed := false |}; peers := ∅ |}.

Definition GetListenAddress (t : TCPTransport) : string := listenAddr t.

(** Where a goroutine running [managePeerConnection(conn)] stands. *)
Inductive ReaderPC : Type :=
| RStart                    (* created by [go], nothing run yet *)
| RDecode (msg : Message)   (* in the loop at [Decode], [*msg] as given *)
| RSend (msg : Message)     (* at [t.messageCh <- *msg] *)
| RDone.                    (* returned *)

(** Where the goroutine running [Peer.handleMessages] stands. *)
Inductive DispatchPC : Type := DIdle | DRunning | DExited.

(** One process: a peer, its transport, its goroutines and its files. *)
Record Node : Type := mkNode {
  n_peer : peer.Peer;
  n_transport : TCPTransport;
  n_backlog : list nat;            (* established, not yet [Accept]ed *)
  n_accepting : bool;              (* [handleIncomingConnections] runs *)
  n_readers : gmap nat ReaderPC;   (* [managePeerConnection] per conn *)
  n_dispatch : DispatchPC;
  n_fs : os.FS;
  n_log : list string;
  n_panic : option string;         (* killed by an unrecovered panic *)
}.

Definition set_transport (t : TCPTransport) (n : Node) : Node :=
  {| n_peer := n_peer n; n_transport := t; n_backlog := n_backlog n;
     n_accepting := n_accepting n; n_readers := n_readers n;
     n_dispatch := n_dispatch n; n_fs := n_fs n; n_log := n_log n;
     n_panic := n_panic n |}.
Definition set_backlog (b : list nat) (n : Node) : Node :=
  {| n_peer := n_peer n; n_transport := n_transport n; n_backlog := b;
     n_accepting := n_accepting n; n_readers := n_readers n;
     n_dispatch := n_dispatch n; n_fs := n_fs n; n_log := n_log n;
     n_panic := n_panic n |}.
Definition set_accepting (b : bool) (n : Node) : Node :=
  {| n_peer := n_peer n; n_transport := n_transport n; n_backlog := n_backlog n;
     n_accepting := b; n_readers := n_readers n;
     n_dispatch := n_dispatch n; n_fs := n_fs n; n_log := n_log n;
     n_panic := n_panic n |}.
Definition set_readers (r : gmap nat ReaderPC) (n : Node) : Node :=
  {| n_peer := n_peer n; n_transport := n_transport n; n_backlog := n_backlog n;
     n_accepting := n_accepting n; n_readers := r;
     n_dispatch := n_dispatch n; n_fs := n_fs n; n_log := n_log n;
     n_panic := n_panic n |}.
Definition set_dispatch (d : DispatchPC) (n : Node) : Node :=
  {| n_peer := n_peer n; n_transport := n_transport n; n_backlog := n_backlog n;
     n_accepting := n_accepting n; n_readers := n_readers n;
     n_dispatch := d; n_fs := n_fs n; n_log := n_log n;
     n_panic := n_panic n |}.
Definition set_fs (fs : os.FS) (n : Node) : Node :=
  {| n_peer := n_peer n; n_transport := n_transport n; n_backlog := n_backlog n;
     n_accepting := n_accepting n; n_readers := n_readers n;
     n_dispatch := n_dispatch n; n_fs := fs; n_log := n_log n;
     n_panic := n_panic n |}.
Definition add_log (line : string) (n : Node) : Node :=
  {| n_peer := n_peer n; n_transport := n_transport n; n_backlog := n_backlog n;
     n_accepting := n_accepting n; n_readers := n_readers n;
     n_dispatch := n_dispatch n; n_fs := n_fs n; n_log := n_log n ++ [line];
     n_panic := n_panic n |}.
Definition set_panic (v : string) (n : Node) : Node :=
  {| n_peer := n_peer n; n_transport := n_transport n; n_backlog := n_backlog n;
     n_accepting := n_accepting n; n_readers := n_readers n;
     n_dispatch := n_dispatch n; n_fs := n_fs n; n_log := n_log n;
     n_panic := Some v |}.

Definition set_listener (l : Listener) (t : TCPTransport) : TCPTransport :=
  {| listenAddr := listenAddr t; listener := l; messageCh := messageCh t;
     peers := peers t |}.
Definition set_messageCh (c : Chan) (t : TCPTransport) : TCPTransport :=
  {| listenAddr := listenAddr t; listener := listener t; messageCh := c;
     peers := peers t |}.
Definition set_peers (p : gmap string nat) (t : TCPTransport) : TCPTransport :=
  {| listenAddr := listenAddr t; listener := listener t;
     messageCh := messageCh t; peers := p |}.

(** A fresh process: [NewTCPTransport] and the fields of [peer.New]. *)
Definition new_node (p : peer.Peer) (fs : os.FS) : Node :=
  {| n_peer := p; n_transport := NewTCPTransport (peer.listenAddr p);
     n_backlog := []; n_accepting := false; n_readers := ∅;
     n_dispatch := DIdle; n_fs := fs; n_log := []; n_panic := None |}.

#[export] Instance Node_inhabited : Inhabited Node :=
  populate (new_node (peer.mkPeer EmptyString EmptyString EmptyString EmptyString) ∅).

(** The processes, the streams between them, and the environment: which
    address each listening socket is bound to, how a dialled name
    resolves to [host:port], and the next ephemeral port. *)
Record World : Type := mkWorld {
  nodes : gmap nat Node;
  conns : gmap nat Endpoint;
  bound : gmap string nat;
  resolve : string -> string;
  next_conn : nat;
  next_port : N;
  clock : Z;
}.

Definition set_nodes (ns : gmap nat Node) (w : World) : World :=
  {| nodes := ns; conns := conns w; bound := bound w; resolve := resolve w;
     next_conn := next_conn w; next_port := next_port w; clock := clock w |}.
Definition set_conns (cs : gmap nat Endpoint) (w : World) : World :=
  {| nodes := nodes w; conns := cs; bound := bound w; resolve := resolve w;
     next_conn := next_conn w; next_port := next_port w; clock := clock w |}.
Definition set_bound (b : gmap string nat) (w : World) : World :=
  {| nodes := nodes w; conns := conns w; bound := b; resolve := resolve w;
     next_conn := next_conn w; next_port := next_port w; clock := clock w |}.
Definition set_clock (c : Z) (w : World) : World :=
  {| nodes := nodes w; conns := conns w; bound := bound w; resolve := resolve w;
     next_conn := next_conn w; next_port := next_port w; clock := c |}.

Definition node (self : nat) (w : World) : Node := nodes w !!! self.
Definition upd_node (self : nat) (f : Node -> Node) (w : World) : World :=
  set_nodes (<[self := f (node self w)]> (nodes w)) w.
Definition tcp (self : nat) (w : World) : TCPTransport :=
  n_transport (node self w).
Definition upd_tcp (self : nat) (f : TCPTransport -> TCPTransport) (w : World)
  : World :=
  upd_node self (fun n => set_transport (f (n_transport n)) n) w.
Definition upd_conn (c : nat) (f : Endpoint -> Endpoint) (w : World) : World :=
  set_conns (alter f c (conns w)) w.

(** [log.Printf] of the process. *)
Definition logf (self : nat) (line : string) (w : World) : World :=
  upd_node self (add_log line) w.

(* ------------------------------------------------------------------- *)
(** *** The [net] package on this network *)

Definition closed_conn_error : error :=
  errorString "use of closed network connection".

(** The address of the [n]th outgoing connection. *)
Definition ephemeral (n : N) : string :=
  "127.0.0.1:" +:+ itoa (49152 + Z.of_N n).

(** [net.Listen("tcp", addr)] *)
Definition net_Listen (self : nat) (addr : string) (w : World)
  : option error * World :=
  let canon := resolve w addr in
  match bound w !! canon with
  | Some _ =>
      (Some (errorString ("listen tcp " +:+ addr +:+
                          ": bind: address already in use")), w)
  | None => (None, set_bound (<[canon := self]> (bound w)) w)
  end.

(** [net.Dial("tcp", addr)]: with a listener bound to the resolved
    address, a stream is established; the client end is returned, the
    server end waits in the listener's backlog. *)
Definition net_Dial (self : nat) (addr : string) (w : World)
  : result nat * World :=
  let canon := resolve w addr in
  match bound w !! canon with
  | None =>
      (Err (errorString ("dial tcp " +:+ addr +:+
                         ": connect: connection refused")), w)
  | Some srv =>
      let c := next_conn w in
      let s := S c in
      let client := {| ep_owner := self; ep_remote := canon; ep_link := s;
                       ep_inbox := []; ep_closed := false; ep_eof := false |} in
      let server := {| ep_owner := srv; ep_remote := ephemeral (next_port w);
                       ep_link := c; ep_inbox := []; ep_closed := false;
                       ep_eof := false |} in
      let w1 :=
        {| nodes := nodes w;
           conns := <[c := client]> (<[s := server]> (conns w));
           bound := bound w; resolve := resolve w;
           next_conn := S (S c); next_port := (next_port w + 1)%N;
           clock := clock w |} in
      (Ok c, upd_node srv (fun n => set_backlog (n_backlog n ++ [s]) n) w1)
  end.

(** [conn.Close()] *)
Definition conn_Close (c : nat) (w : World) : World :=
  match conns w !! c with
  | Some ep =>
      if ep_closed ep then w
      else upd_conn (ep_link ep) set_eof (upd_conn c set_closed w)
  | None => w
  end.

(** [encoder.Encode(conn, &msg)]: one write of the encoded message. *)
Definition conn_Encode (c : nat) (msg : Message) (w : World)
  : option error * World :=
  match conns w !! c with
  | Some ep =>
      if ep_closed ep then (Some closed_conn_error, w)
      else (None,
            upd_conn (ep_link ep)
              (fun peer_end => set_inbox (ep_inbox peer_end ++ [Encode msg]) peer_end)
              w)
  | None => (Some closed_conn_error, w)
  end.

(** [listener.Close()] *)
Definition listener_Close (self : nat) (w : World) : World :=
  set_bound (filter (fun kv => kv.2 <> self) (bound w))
    (upd_tcp self (set_listener LClosed) w).

(* ------------------------------------------------------------------- *)
(** *** pkg/transport/tcp.go *)

Definition spawn_reader (self conn : nat) (w : World) : World :=
  upd_node self (fun n => set_readers (<[conn := RStart]> (n_readers n)) n) w.

(** [StartListening] *)
Definition StartListening (self : nat) (w : World) : option error * World :=
  match net_Listen self (listenAddr (tcp self w)) w with
  | (Some err, w1) => (Some err, w1)
  | (None, w1) =>
      (None, upd_node self (set_accepting true)
               (upd_tcp self (set_listener LOpen) w1))
  end.

(** One iteration of the loop of [handleIncomingConnections]; [None] when
    [Accept] blocks. On a closed listener [Accept] fails at once and the
    loop logs and continues. *)
Definition handleIncomingConnections_step (self : nat) (w : World)
  : option World :=
  let n := node self w in
  if negb (n_accepting n) then None
  else match listener (n_transport n) with
       | LNil => None
       | LClosed =>
           Some (logf self ("Connection accept error: accept tcp " +:+
                            listenAddr (n_transport n) +:+ ": " +:+
                            Error closed_conn_error) w)
       | LOpen =>
           match n_backlog n with
           | [] => None
           | conn :: rest =>
               Some (spawn_reader self conn (upd_node self (set_backlog rest) w))
           end
       end.

Definition set_pc (self conn : nat) (pc : ReaderPC) (w : World) : World :=
  upd_node self (fun n => set_readers (<[conn := pc]> (n_readers n)) n) w.

(** The return of [managePeerConnection]: its deferred calls, last one
    first: the registry entry under the remote address is deleted, then
    the connection is closed. *)
Definition managePeerConnection_return (self conn : nat) (remote : string)
  (w : World) : World :=
  set_pc self conn RDone
    (conn_Close conn
       (upd_tcp self (fun t => set_peers (delete remote (peers t)) t) w)).

(** One step of the goroutine [managePeerConnection(conn)]; [None] when
    it is blocked (nothing to read, or the channel is full), has
    returned, or was never started. *)
Definition managePeerConnection_step (self conn : nat) (w : World)
  : option World :=
  let n := node self w in
  match n_readers n !! conn, conns w !! conn with
  | Some RStart, Some ep =>
      let remote := ep_remote ep in
      Some (set_pc self conn (RDecode zeroMessage)
              (upd_tcp self (fun t => set_peers (<[remote := conn]> (peers t)) t)
                 (logf self ("New peer connection established from " +:+ remote) w)))
  | Some (RDecode msg), Some ep =>
      let remote := ep_remote ep in
      if ep_closed ep then
        Some (managePeerConnection_return self conn remote
                (logf self ("Decode error: " +:+ Error closed_conn_error) w))
      else
        match ep_inbox ep with
        | f :: rest =>
            let w1 := upd_conn conn (set_inbox rest) w in
            match Decode f msg with
            | Err err =>
                Some (managePeerConnection_return self conn remote
                        (if is_EOF err then w1
                         else logf self ("Decode error: " +:+ Error err) w1))
            | Ok m =>
                let stamped := {| Type_ := Type_ m; From := From m;
                                  FromAddr := remote; Payload_ := Payload_ m |} in
                Some (set_pc self conn (RSend stamped) w1)
            end
        | [] =>
            if ep_eof ep then Some (managePeerConnection_return self conn remote w)
            else None
        end
  | Some (RSend msg), Some ep =>
      let ch := messageCh (n_transport n) in
      if ch_closed ch then
        Some (upd_node self (set_panic "send on closed channel")
                (managePeerConnection_return self conn (ep_remote ep) w))
      else if decide (length (ch_buf ch) < messageCh_cap)%nat then
        Some (set_pc self conn (RDecode msg)
                (upd_tcp self
                   (set_messageCh {| ch_buf := ch_buf ch ++ [msg];
                                     ch_closed := false |}) w))
      else None
  | _, _ => None
  end.

(** [ConnectToPeer] *)
Definition ConnectToPeer (self : nat) (addr : string) (w : World)
  : option error * World :=
  let w0 := logf self ("Connecting to peer at " +:+ addr) w in
  match net_Dial self addr w0 with
  | (Err err, w1) => (Some (errorString ("dial failed: " +:+ Error err)), w1)
  | (Ok conn, w1) =>
      let w2 := upd_tcp self (fun t => set_peers (<[addr := conn]> (peers t)) t) w1 in
      let w3 := logf self ("Connected to peer at " +:+ addr) w2 in
      (None, spawn_reader self conn w3)
  end.

(** [GetMessageChannel] *)
Definition GetMessageChannel (self : nat) (w : World) : Chan :=
  messageCh (tcp self w).

(** A receive on the channel: a buffered message if there is one, the
    closed state ([ok = false]) on a closed and drained channel, and
    [None] when the receive blocks. *)
Definition chan_recv (ch : Chan) : option (option Message * Chan) :=
  match ch_buf ch with
  | m :: rest => Some (Some m, {| ch_buf := rest; ch_closed := ch_closed ch |})
  | [] => if ch_closed ch then Some (None, ch) else None
  end.

(** [Shutdown]. [close] of a closed channel panics. *)
Definition Shutdown (self : nat) (w : World) : Outcome (option error) * World :=
  let w1 := match listener (tcp self w) with
            | LNil => w
            | _ => listener_Close self w
            end in
  let w2 := foldr (fun kv => conn_Close kv.2) w1 (map_to_list (peers (tcp self w1))) in
  let ch := messageCh (tcp self w2) in
  if ch_closed ch then
    (Panicked "close of closed channel",
     upd_node self (set_panic "close of closed channel") w2)
  else
    (Returned None,
     upd_tcp self (set_messageCh {| ch_buf := ch_buf ch; ch_closed := true |}) w2).

Section WithScheduler.
(** What the other goroutines and processes do while this one sleeps. *)
Variable yield : World -> World.

(** [time.Sleep(d)] *)
Definition Sleep (d : Z) (w : World) : World :=
  yield (set_clock (clock w + Z.max 0 d) w).

(** [Send] *)
Definition Send (self : nat) (addr : string) (msg : Message) (w : World)
  : option error * World :=
  match peers (tcp self w) !! addr with
  | Some conn => conn_Encode conn msg w
  | None =>
      match ConnectToPeer self addr w with
      | (Some err, w1) =>
          (Some (errorString ("failed to connect to peer " +:+ addr +:+
                              ": " +:+ Error err)), w1)
      | (None, w1) =>
          let w2 := Sleep (100 * Millisecond) w1 in
          match peers (tcp self w2) !! addr with
          | None =>
              (Some (errorString ("failed to establish connection with " +:+
                                  addr)), w2)
          | Some conn => conn_Encode conn msg w2
          end
      end
  end.

(** The calls of peer.go, made by process [self]. *)
Definition perform (self : nat) {X} (e : peer.call X) (w : World) : X * World :=
  match e in peer.call X return X * World with
  | peer.log_Printf line => (tt, logf self line w)
  | peer.os_Open name => (os.Open (n_fs (node self w)) name, w)
  | peer.file_Stat f => (os.File_Stat f, w)
  | peer.file_Read f b => (os.File_Read f b, w)
  | peer.file_Close f => (tt, w)
  | peer.os_WriteFile name data perm =>
      let '(fs, err) := os.WriteFile (n_fs (node self w)) name data perm in
      (err, upd_node self (set_fs fs) w)
  | peer.os_Stat name =>
      (match os.Stat (n_fs (node self w)) name with
       | Ok _ => None
       | Err err => Some err
       end, w)
  | peer.transport_Send addr msg => Send self addr msg w
  | peer.time_Sleep d => (tt, Sleep d w)
  end.

Fixpoint run (self : nat) {R} (p : Prog peer.call R) (w : World)
  : Outcome R * World :=
  match p with
  | Ret r => (Returned r, w)
  | Panic v => (Panicked v, upd_node self (set_panic v) w)
  | Vis e k => let '(x, w1) := perform self e w in run self (k x) w1
  end.

(** [Peer.Start] *)
Definition Start (self : nat) (w : World) : option error * World :=
  match StartListening self w with
  | (Some err, w1) => (Some err, w1)
  | (None, w1) => (None, upd_node self (set_dispatch DRunning) w1)
  end.

(** One iteration of the [range] loop of [handleMessages]; [None] when
    the receive blocks or the goroutine is not running. *)
Definition handleMessages_step (self : nat) (w : World) : option World :=
  let n := node self w in
  match n_dispatch n with
  | DRunning =>
      match chan_recv (messageCh (n_transport n)) with
      | None => None
      | Some (None, _) => Some (upd_node self (set_dispatch DExited) w)
      | Some (Some msg, ch) =>
          Some (run self (peer.dispatch (n_peer n) msg)
                  (upd_tcp self (set_messageCh ch) w)).2
      end
  | _ => None
  end.

(** The goroutines of the system. *)
Inductive Thread : Type :=
| TAccept (n : nat)
| TReader (n conn : nat)
| TDispatch (n : nat).

Definition owner (th : Thread) : nat :=
  match th with TAccept n | TReader n _ | TDispatch n => n end.

(** One step of a goroutine; a process killed by a panic runs nothing. *)
Definition step (th : Thread) (w : World) : option World :=
  match n_panic (node (owner th) w) with
  | Some _ => None
  | None =>
      match th with
      | TAccept n => handleIncomingConnections_step n w
      | TReader n conn => managePeerConnection_step n conn w
      | TDispatch n => handleMessages_step n w
      end
  end.

(** A schedule: the goroutines in the order they get to run; one that
    cannot move when its turn comes is passed over. *)
Fixpoint run_schedule (sched : list Thread) (w : World) : World :=
  match sched with
  | [] => w
  | th :: rest =>
      run_schedule rest (match step th w with Some w1 => w1 | None => w end)
  end.
End WithScheduler.

End transport.

Import transport.

(* ===================================================================== *)
(** ** Two peers on one host *)
(* ===================================================================== *)

(** Peer A ([-id peer1 -port 3000]) and peer B ([-id peer2 -port 3001]) as
    main.go sets them up; B fetches a file from A at [localhost:3000]. *)
Module scenario.

Definition A : nat := 0.
Definition B : nat := 1.

(** The host file: [localhost] is the loopback address. *)
Definition hosts (addr : string) : string :=
  if decide (addr = "localhost:3000") then "127.0.0.1:3000"
  else if decide (addr = "localhost:3001") then "127.0.0.1:3001"
  else addr.

Definition bytes (s : string) : list byte := String.list_byte_of_string s.

Definition peerA : peer.Peer := peer.mkPeer "peer1" "localhost:3000" "shared1" "received1".
Definition peerB : peer.Peer := peer.mkPeer "peer2" "localhost:3001" "shared2" "received2".

(** The directories [peer.New] creates. *)
Definition dirsA : os.FS :=
  <["shared1" := os.NDir 4096]> (<["received1" := os.NDir 4096]> ∅).
Definition dirsB : os.FS :=
  <["shared2" := os.NDir 4096]> (<["received2" := os.NDir 4096]> ∅).

Definition initial (fsA fsB : os.FS) : World :=
  {| nodes := <[A := new_node peerA fsA]> (<[B := new_node peerB fsB]> ∅);
     conns := ∅; bound := ∅; resolve := hosts;
     next_conn := 0; next_port := 0; clock := 0 |}.

(** Nothing else runs while a goroutine sleeps. *)
Definition idle (w : World) : World := w.

(** Both peers after [Peer.Start]. *)
Definition started (fsA fsB : os.FS) : World :=
  (Start B (Start A (initial fsA fsB)).2).2.

(** B's main goroutine calls [RequestFile("localhost:3000", name)]. *)
Definition requested (fsA fsB : os.FS) (name : string) : Outcome (option error) * World :=
  run idle B (peer.RequestFile peerB "localhost:3000" name) (started fsA fsB).

(** A accepts, its reader registers, decodes and queues the request. *)
Definition deliver_request : list Thread :=
  [TAccept A; TReader A 1; TReader A 1; TReader A 1].
(** A's dispatch loop handles the request. *)
Definition serve : list Thread := [TDispatch A].
(** B's reader registers, decodes and queues the response. *)
Definition deliver_response : list Thread :=
  [TReader B 0; TReader B 0; TReader B 0].
(** B's dispatch loop handles the response. *)
Definition receive : list Thread := [TDispatch B].

Definition exchange : list Thread :=
  deliver_request ++ serve ++ deliver_response ++ receive.

(** The world once every goroutine involved has run. *)
Definition transferred (fsA fsB : os.FS) (name : string) : World :=
  run_schedule idle exchange (requested fsA fsB name).2.

(** The world when A's reader has queued B's request. *)
Definition delivered (fsA fsB : os.FS) (name : string) : World :=
  run_schedule idle deliver_request (requested fsA fsB name).2.

(** A's files when it shares one file [name] of content [data]. *)
Definition sharing (name : string) (data : list byte) : os.FS :=
  <[filepath.Join ["shared1"; name] := os.NFile data]> dirsA.

(** A file of 2GB, twice what a single read moves, no byte of it zero. *)
Definition big : list byte := replicate (Z.to_nat (2 * os.maxRW)) x01.

(** B's request as A's reader queues it. *)
Definition request (name : string) : Message :=
  {| Type_ := MessageTypeFileRequest; From := "peer2";
     FromAddr := "127.0.0.1:49152";
     Payload_ := PFileRequest {| FileName := name |} |}.

(** B dials A by name, both readers register, A shuts down, and B's
    reader sees the end of the stream and returns. *)
Definition dialled : World :=
  run_schedule idle [TReader B 0; TAccept A; TReader A 1]
    (ConnectToPeer B "localhost:3000" (started dirsA dirsB)).2.
Definition hung_up : World :=
  run_schedule idle [TReader B 0] (Shutdown A dialled).2.

(** A message that claims to come from somewhere else. *)
Definition forged : Message :=
  {| Type_ := MessageTypeFileRequest; From := "mallory";
     FromAddr := "10.0.0.99:4444";
     Payload_ := PFileRequest {| FileName := "greet.txt" |} |}.
(** B has dialled A and written [forged]; A has accepted the connection
    and its reader is about to start. *)
Definition forged_sent : World :=
  run_schedule idle [TAccept A]
    (conn_Encode 0 forged (ConnectToPeer B "localhost:3000" (started dirsA dirsB)).2).2.

(** After [exchange] no goroutine can move: all are blocked. *)
Definition quiescent (w : World) : bool :=
  forallb (fun th => bool_decide (step idle th w = None))
    [TAccept A; TAccept B; TReader A 1; TReader B 0; TDispatch A; TDispatch B].

End scenario.

(* ===================================================================== *)
(** ** Vocabulary of the properties *)
(* ===================================================================== *)

(** The calls of [Transport.Send] made in a run of a program. *)
Module retry.

(** One call of [Transport.Send] in a run: when, to whom, what, and the
    error it returned. *)
Record Attempt : Type := mkAttempt {
  at_time : Z;
  at_addr : string;
  at_msg : Message;
  at_err : option error;
}.

Definition send_attempt (en : Entry peer.call) : option Attempt :=
  match en with
  | En t e x =>
      match e in peer.call X return X -> option Attempt with
      | peer.transport_Send addr msg => fun err => Some (mkAttempt t addr msg err)
      | _ => fun _ => None
      end x
  end.

Definition attempts (tr : list (Entry peer.call)) : list Attempt :=
  omap send_attempt tr.

(** Consecutive attempts are at least [gap] apart. *)
Definition spaced (gap : Z) (att : list Attempt) : Prop :=
  forall i a b, att !! i = Some a -> att !! S i = Some b ->
                (at_time a + gap <= at_time b)%Z.

Definition terminal_error : error :=
  errorString "failed to connect after 5 attempts".

(** What a run of the loop with at most [todo] iterations, started at
    [now], guarantees about its attempts [att] and its result [out]. *)
Definition retry_ok (peerAddr : string) (msg : Message) (todo : nat) (now : Z)
    (out : Outcome (option error)) (att : list Attempt) : Prop :=
  (length att <= todo)%nat /\
  Forall (fun a => at_addr a = peerAddr /\ at_msg a = msg /\ (now <= at_time a)%Z) att /\
  spaced peer.retryInterval att /\
  (forall i a, att !! i = Some a -> (S i < length att)%nat -> at_err a <> None) /\
  (out = Returned None <-> exists a, last att = Some a /\ at_err a = None) /\
  ((forall a, a ∈ att -> at_err a <> None) ->
     length att = todo /\ out = Returned (Some terminal_error)) /\
  (exists r, out = Returned r).

End retry.
Import retry.

(** An environment in which nothing listens at the address: every [Send]
    fails at once, and no call takes longer than its nominal time. *)
Definition env_refused : Env peer.call :=
  fun X _ e =>
    match e in peer.call X return X * N with
    | peer.log_Printf _ => (tt, 0%N)
    | peer.os_Open name => (Err (os.ENOENT "open" name), 0%N)
    | peer.file_Stat _ => (Ok 0%Z, 0%N)
    | peer.file_Read _ b => ((b, 0%Z, Some io_EOF), 0%N)
    | peer.file_Close _ => (tt, 0%N)
    | peer.os_WriteFile name _ _ => (Some (os.ENOENT "open" name), 0%N)
    | peer.os_Stat name => (Some (os.ENOENT "stat" name), 0%N)
    | peer.transport_Send addr _ =>
        (Some (errorString ("failed to connect to peer " +:+ addr +:+
                            ": dial failed: dial tcp " +:+ addr +:+
                            ": connect: connection refused")), 0%N)
    | peer.time_Sleep _ => (tt, 0%N)
    end.

(** An environment in which every file opens and reports a size of 2^62
    bytes, as a sparse file can, and everything else succeeds. *)
Definition env_sparse : Env peer.call :=
  fun X _ e =>
    match e in peer.call X return X * N with
    | peer.log_Printf _ => (tt, 0%N)
    | peer.os_Open name => (Ok (os.mkFile name (os.NFile [])), 0%N)
    | peer.file_Stat _ => (Ok 4611686018427387904%Z, 0%N)
    | peer.file_Read _ b => ((b, Z.of_nat (length b), None), 0%N)
    | peer.file_Close _ => (tt, 0%N)
    | peer.os_WriteFile _ _ _ => (None, 0%N)
    | peer.os_Stat _ => (None, 0%N)
    | peer.transport_Send _ _ => (None, 0%N)
    | peer.time_Sleep _ => (tt, 0%N)
    end.

(** The three ways [Send] can fail, in the words of the specification. *)
Module send_spec.
Section Cases.
Variable yield : World -> World.
Variables (self : nat) (addr : string) (msg : Message) (w : World).

(** No connection is registered for the address when [Send] starts. *)
Definition unregistered : Prop := peers (tcp self w) !! addr = None.

(** The world once [ConnectToPeer] has returned and the 100ms wait is
    over. *)
Definition after_wait : World :=
  Sleep yield (100 * Millisecond) (ConnectToPeer self addr w).2.

(** The dial fails. *)
Definition dial_failed : Prop :=
  unregistered /\ exists e, (net_Dial self addr
                               (logf self ("Connecting to peer at " +:+ addr) w)).1 = Err e.

(** The dial succeeds and no connection is registered for the address
    when the wait is over. *)
Definition not_registered_in_time : Prop :=
  unregistered /\ (ConnectToPeer self addr w).1 = None /\
  peers (tcp self after_wait) !! addr = None.

(** The connection written to, and the world in which it is written. *)
Definition connection_used (conn : nat) (w_write : World) : Prop :=
  (peers (tcp self w) !! addr = Some conn /\ w_write = w) \/
  (unregistered /\ (ConnectToPeer self addr w).1 = None /\
   peers (tcp self after_wait) !! addr = Some conn /\ w_write = after_wait).

(** Encoding and writing on the connection fails. *)
Definition write_failed : Prop :=
  exists conn w_write,
    connection_used conn w_write /\ (conn_Encode conn msg w_write).1 <> None.
End Cases.
End send_spec.

(** The connection [c] exists and [Close] was called on this end. *)
Definition is_closed (c : nat) (w : World) : Prop :=
  exists ep, conns w !! c = Some ep /\ ep_closed ep = true.

(** The result of the [i]th receive (from 0) of a consumer that receives
    again and again: [None] if that receive blocks, [Some (Some m)] for a
    message, [Some None] for the closed state. *)
Fixpoint recv_nth (i : nat) (ch : Chan) : option (option Message) :=
  match i with
  | O => fst <$> chan_recv ch
  | S j =>
      match chan_recv ch with
      | Some (_, ch') => recv_nth j ch'
      | None => None
      end
  end.

(** The goroutine [managePeerConnection(conn)] of process [self] running
    on its own until it blocks or returns, for at most [fuel] steps. *)
Fixpoint managePeerConnection_run (fuel : nat) (self conn : nat) (w : World) : World :=
  match fuel with
  | O => w
  | S fuel' =>
      match managePeerConnection_step self conn w with
      | Some w1 => managePeerConnection_run fuel' self conn w1
      | None => w
      end
  end.

(** The message a reader is about to put on the channel carries the remote
    address of the reader's connection. *)
Definition stamped (self conn : nat) (w : World) : Prop :=
  forall m ep,
    n_readers (node self w) !! conn = Some (RSend m) ->
    conns w !! conn = Some ep ->
    FromAddr m = ep_remote ep.

(** A reader goroutine of a well-formed world: its connection identifier is
    in use, and a message it is about to send carries the remote address of
    its connection. *)
Definition reader_ok (w : World) (conn : nat) (pc : ReaderPC) : bool :=
  bool_decide (conn < next_conn w)%nat &&
  match pc, conns w !! conn with
  | RSend m, Some ep => bool_decide (FromAddr m = ep_remote ep)
  | _, _ => true
  end.

Definition node_ok (w : World) (n : Node) : bool :=
  forallb (fun kv => reader_ok w kv.1 kv.2) (map_to_list (n_readers n)) &&
  forallb (fun c => bool_decide (c < next_conn w)%nat) (n_backlog n).

(** Connection identifiers are handed out in order: every identifier in
    use, by a stream, a backlog or a reader, is below [next_conn]; and
    every reader is [reader_ok]. *)
Definition well_formed (w : World) : bool :=
  forallb (fun kv => bool_decide (kv.1 < next_conn w)%nat) (map_to_list (conns w)) &&
  forallb (fun kv => node_ok w kv.2) (map_to_list (nodes w)).

(** The remote address of a connection. *)
Definition remote_of (w : World) (c : nat) : option string :=
  ep_remote <$> conns w !! c.

Record WF (w : World) : Prop := mkWF {
  wf_conns : forall c, is_Some (remote_of w c) -> (c < next_conn w)%nat;
  wf_readers : forall i c pc, n_readers (node i w) !! c = Some pc -> (c < next_conn w)%nat;
  wf_backlog : forall i c, c ∈ n_backlog (node i w) -> (c < next_conn w)%nat;
  wf_stamped : forall i c m r,
      n_readers (node i w) !! c = Some (RSend m) -> remote_of w c = Some r ->
      FromAddr m = r;
}.

(** A FileRequest message whose payload is nil. *)
Definition msg_PNil : Message :=
  {| Type_ := MessageTypeFileRequest; From := "peer2"; FromAddr := EmptyString;
     Payload_ := PNil |}.

(** The calls of a run, by kind. *)
Module calls.

Definition open_ok (en : Entry peer.call) : option os.File :=
  match en with
  | En _ e x =>
      match e in peer.call X return X -> option os.File with
      | peer.os_Open _ => fun r => match r with Ok f => Some f | Err _ => None end
      | _ => fun _ => None
      end x
  end.

Definition read_of (en : Entry peer.call) : option os.File :=
  match en with
  | En _ e _ => match e with peer.file_Read f _ => Some f | _ => None end
  end.

Definition close_of (en : Entry peer.call) : option os.File :=
  match en with
  | En _ e _ => match e with peer.file_Close f => Some f | _ => None end
  end.

Definition write_of (en : Entry peer.call) : option string :=
  match en with
  | En _ e _ => match e with peer.os_WriteFile name _ _ => Some name | _ => None end
  end.

Definition sleep_of (en : Entry peer.call) : option Z :=
  match en with
  | En _ e _ => match e with peer.time_Sleep d => Some d | _ => None end
  end.

Definition log_of (en : Entry peer.call) : option string :=
  match en with
  | En _ e _ => match e with peer.log_Printf line => Some line | _ => None end
  end.

(** The size a successful [File.Stat] reported. *)
Definition stat_ok (en : Entry peer.call) : option Z :=
  match en with
  | En _ e x =>
      match e in peer.call X return X -> option Z with
      | peer.file_Stat _ =>
          fun r => match r with Ok size => Some size | Err _ => None end
      | _ => fun _ => None
      end x
  end.

(** The files successfully opened, the sizes reported, the files read
    and closed, the paths written, the durations slept and the lines
    logged, in order. *)
Definition opened (tr : list (Entry peer.call)) : list os.File := omap open_ok tr.
Definition sizes (tr : list (Entry peer.call)) : list Z := omap stat_ok tr.
Definition read (tr : list (Entry peer.call)) : list os.File := omap read_of tr.
Definition closed (tr : list (Entry peer.call)) : list os.File := omap close_of tr.
Definition written (tr : list (Entry peer.call)) : list string := omap write_of tr.
Definition slept (tr : list (Entry peer.call)) : list Z := omap sleep_of tr.
Definition logged (tr : list (Entry peer.call)) : list string := omap log_of tr.

End calls.

(** [fs'] has everything [fs] has, and whatever it has besides is a
    directory. *)
Definition grows (fs fs' : os.FS) : Prop :=
  fs ⊆ fs' /\
  forall path n, fs' !! path = Some n -> fs !! path = None -> os.IsDir n = true.

(** [os.Stat] reports a directory. *)
Definition is_directory (fs : os.FS) (name : string) : Prop :=
  exists n, os.Stat fs name = Ok n /\ os.IsDir n = true.

(** A message whose type [handleMessages] has no case for. *)
Definition other_type (m : Message) : Prop :=
  Type_ m <> MessageTypeFileRequest /\ Type_ m <> MessageTypeFileResponse.

(** The line [RequestFile] logs after the failure of attempt [i + 1]. *)
Definition retry_line (i : nat) (err : error) : string :=
  "Connection attempt " +:+ itoa (Z.of_nat i + 1) +:+ " failed: " +:+ Error err +:+
  ". Retrying in 2s...".

(** A program that never calls [os.WriteFile]. *)
Fixpoint writes_no_file {R} (p : Prog peer.call R) : Prop :=
  match p with
  | Ret _ | Panic _ => True
  | Vis e k =>
      match e with peer.os_WriteFile _ _ _ => False | _ => True end /\
      forall x, writes_no_file (k x)
  end.

(** The readers after one reader was started for each connection of
    [cs], in order. *)
Definition readers_started (r : gmap nat ReaderPC) (cs : list nat) : gmap nat ReaderPC :=
  foldl (fun r c => <[c := RStart]> r) r cs.

(** The line the accept loop logs when [Accept] fails on a closed
    listener. *)
Definition accept_error (addr : string) : string :=
  "Connection accept error: accept tcp " +:+ addr +:+ ": " +:+ Error closed_conn_error.

(** What the reader makes of a decoded message: [msg.FromAddr] is set to
    the remote address of the connection. *)
Definition stamp (remote : string) (d : Message) : Message :=
  {| Type_ := Type_ d; From := From d; FromAddr := remote; Payload_ := Payload_ d |}.

(** The transport after the listener part of [Shutdown]. *)
Definition listener_closed (t : TCPTransport) : TCPTransport :=
  match listener t with
  | LNil => t
  | _ => set_listener LClosed t
  end.

(* ===================================================================== *)
(** * Properties *)
(* ===================================================================== *)

Arguments filepath.Join : simpl never.
Arguments filepath.Clean : simpl never.
Arguments os.Open : simpl never.
Arguments os.WriteFile : simpl never.
Arguments os.File_Read : simpl never.
Arguments os.File_Stat : simpl never.
Arguments os.make_bytes : simpl never.
Arguments peer.make : simpl never.
Arguments itoa : simpl never.
Arguments logf : simpl never.
Arguments node : simpl never.
Arguments upd_node : simpl never.
Arguments upd_tcp : simpl never.
Arguments upd_conn : simpl never.
Arguments Send : simpl never.
Arguments Sleep : simpl never.
Arguments String.append : simpl never.

(* ===================================================================== *)
(** ** Basic facts about the state *)
(* ===================================================================== *)

Section StateFacts.
Implicit Types (w : World) (self i : nat).

Lemma node_upd_node self f w i :
  node i (upd_node self f w) = if decide (self = i) then f (node self w) else node i w.
Proof. unfold node, upd_node; simpl. by rewrite lookup_total_insert. Qed.

Lemma node_upd_node_eq self f w : node self (upd_node self f w) = f (node self w).
Proof. rewrite node_upd_node. by rewrite decide_True. Qed.

Lemma node_upd_node_ne self f w i :
  self <> i -> node i (upd_node self f w) = node i w.
Proof. intros. rewrite node_upd_node. by rewrite decide_False. Qed.

Lemma node_logf self line w i :
  node i (logf self line w) = if decide (self = i) then add_log line (node self w) else node i w.
Proof. apply node_upd_node. Qed.

Lemma conns_upd_node self f w : conns (upd_node self f w) = conns w.
Proof. reflexivity. Qed.

Lemma node_upd_conn c f w i : node i (upd_conn c f w) = node i w.
Proof. reflexivity. Qed.

Lemma node_set_clock t w i : node i (set_clock t w) = node i w.
Proof. reflexivity. Qed.

Lemma tcp_upd_tcp self f w : tcp self (upd_tcp self f w) = f (tcp self w).
Proof. unfold tcp, upd_tcp. by rewrite node_upd_node_eq. Qed.

Lemma tcp_logf self line w i : tcp i (logf self line w) = tcp i w.
Proof.
  unfold tcp. rewrite node_logf. by destruct (decide (self = i)) as [->|].
Qed.

Lemma n_fs_logf self line w i : n_fs (node i (logf self line w)) = n_fs (node i w).
Proof. rewrite node_logf. by destruct (decide (self = i)) as [->|]. Qed.

Lemma node_upd_tcp self f w i :
  node i (upd_tcp self f w) =
    if decide (self = i) then set_transport (f (tcp self w)) (node self w)
    else node i w.
Proof. unfold upd_tcp, tcp. by rewrite node_upd_node. Qed.

Lemma n_fs_upd_tcp self f w i : n_fs (node i (upd_tcp self f w)) = n_fs (node i w).
Proof. rewrite node_upd_tcp. by destruct (decide (self = i)) as [->|]. Qed.

Lemma tcp_upd_tcp_ne self f w i : self <> i -> tcp i (upd_tcp self f w) = tcp i w.
Proof. intros. unfold tcp. rewrite node_upd_tcp. by rewrite decide_False. Qed.
End StateFacts.

(* ===================================================================== *)
(** ** Unchecked type assertions in the handlers *)
(* ===================================================================== *)

Section Assertions.
Variable yield : World -> World.

Lemma handleFileRequest_panics p msg :
  (forall r, Payload_ msg <> PFileRequest r) ->
  peer.handleFileRequest p msg =
    peer.conversion_panic (Payload_ msg) "*protocol.FileRequest".
Proof.
  intros Hno. unfold peer.handleFileRequest.
  destruct (Payload_ msg) as [| b | r | r]; try reflexivity.
  by destruct (Hno r).
Qed.

Lemma handleFileResponse_panics p msg :
  (forall r, Payload_ msg <> PFileResponse r) ->
  peer.handleFileResponse p msg =
    peer.conversion_panic (Payload_ msg) "*protocol.FileResponse".
Proof.
  intros Hno. unfold peer.handleFileResponse.
  destruct (Payload_ msg) as [| b | r | r]; try reflexivity.
  by destruct (Hno r).
Qed.

(** The step of the dispatch goroutine on a message whose handler
    panics: the process is dead afterwards and none of its goroutines
    runs again. *)
Lemma handleMessages_step_panic self w msg rest v :
  n_dispatch (node self w) = DRunning ->
  ch_buf (messageCh (tcp self w)) = msg :: rest ->
  peer.dispatch (n_peer (node self w)) msg = Panic v ->
  exists w',
    handleMessages_step yield self w = Some w' /\
    n_panic (node self w') = Some v /\
    n_fs (node self w') = n_fs (node self w) /\
    conns w' = conns w /\
    forall th, owner th = self -> step yield th w' = None.
Proof.
  intros Hrun Hbuf Hpan. unfold handleMessages_step, chan_recv.
  rewrite Hrun. fold (tcp self w). rewrite Hbuf, Hpan. simpl.
  eexists; split; [reflexivity|].
  unfold upd_tcp. rewrite !node_upd_node_eq. simpl.
  split; [reflexivity|]. split; [reflexivity|]. split; [reflexivity|].
  intros th <-. unfold step. by rewrite !node_upd_node_eq.
Qed.
End Assertions.

(** C9: a message tagged FileRequest (resp. FileResponse) whose payload is
    not a *FileRequest (resp. *FileResponse) makes the handler panic on its
    type assertion; the panic ends [handleMessages] whatever follows in the
    queue, and in the running system it kills the process, so the dispatch
    loop never runs again. The message is neither ignored nor rejected. *)
Theorem C9_type_assertion_panics (yield : World -> World) (p : peer.Peer) (msg : Message) :
  (Type_ msg = MessageTypeFileRequest /\ (forall r, Payload_ msg <> PFileRequest r)) \/
  (Type_ msg = MessageTypeFileResponse /\ (forall r, Payload_ msg <> PFileResponse r)) ->
  exists v,
    (if decide (Type_ msg = MessageTypeFileRequest)
     then peer.handleFileRequest p msg else peer.handleFileResponse p msg) = Panic v /\
    (forall rest, peer.handleMessages p (msg :: rest) = Panic v) /\
    (forall self w rest,
        n_peer (node self w) = p ->
        n_dispatch (node self w) = DRunning ->
        ch_buf (messageCh (tcp self w)) = msg :: rest ->
        exists w',
          handleMessages_step yield self w = Some w' /\
          n_panic (node self w') = Some v /\
          forall th, owner th = self -> step yield th w' = None).
Proof.
  intros [[Hty Hno] | [Hty Hno]].
  - pose proof (handleFileRequest_panics p msg Hno) as Hp.
    assert (Hd : peer.dispatch p msg = peer.handleFileRequest p msg).
    { unfold peer.dispatch. by rewrite decide_True. }
    eexists. rewrite decide_True by done. split; [exact Hp|]. split.
    + intros rest. simpl. rewrite Hd, Hp. reflexivity.
    + intros self w rest <- Hrun Hbuf.
      edestruct (handleMessages_step_panic yield self w msg rest)
        as (w' & Hs & Hpn & _ & _ & Hdead);
        [exact Hrun | exact Hbuf | rewrite Hd; exact Hp |].
      eauto.
  - pose proof (handleFileResponse_panics p msg Hno) as Hp.
    assert (Hd : peer.dispatch p msg = peer.handleFileResponse p msg).
    { unfold peer.dispatch. rewrite decide_False, decide_True; [done..|].
      rewrite Hty. discriminate. }
    eexists. rewrite decide_False by (rewrite Hty; discriminate).
    split; [exact Hp|]. split.
    + intros rest. simpl. rewrite Hd, Hp. reflexivity.
    + intros self w rest <- Hrun Hbuf.
      edestruct (handleMessages_step_panic yield self w msg rest)
        as (w' & Hs & Hpn & _ & _ & Hdead);
        [exact Hrun | exact Hbuf | rewrite Hd; exact Hp |].
      eauto.
Qed.


Lemma C9_type_assertion_panics_witness :
  exists v, peer.handleMessages (peer.mkPeer "peer1" "localhost:3000" "shared1" "received1")
              [msg_PNil] = Panic v.
Proof.
  destruct (C9_type_assertion_panics (fun w => w)
              (peer.mkPeer "peer1" "localhost:3000" "shared1" "received1") msg_PNil)
    as (v & _ & Hloop & _).
  - left. split; [reflexivity | intros r; discriminate].
  - exists v. apply Hloop.
Defined.

(* ===================================================================== *)
(** ** Requests for files that cannot be opened *)
(* ===================================================================== *)

Section FileRequestAbsent.
Variable yield : World -> World.

Lemma run_handleFileRequest_absent self w p msg req e :
  Payload_ msg = PFileRequest req ->
  os.Open (n_fs (node self w)) (filepath.Join [peer.sharedDir p; FileName req]) = Err e ->
  run yield self (peer.handleFileRequest p msg) w =
    (Returned tt,
     logf self ("File not found: " +:+ FileName req)
       (logf self ("Received file request from " +:+ From msg +:+
                   " for file: " +:+ FileName req) w)).
Proof.
  intros Hpay Hopen. unfold peer.handleFileRequest. rewrite Hpay. simpl.
  rewrite n_fs_logf, Hopen. reflexivity.
Qed.

(** The calls the handler makes when [os.Open] fails, whatever the
environment otherwise answers: a log line, the [Open], a log line. *)
Lemma exec_handleFileRequest_absent (env : Env peer.call) p msg req now :
  Payload_ msg = PFileRequest req ->
  (forall hist, exists e extra,
      env _ hist (peer.os_Open (filepath.Join [peer.sharedDir p; FileName req]))
        = (Err e, extra)) ->
  let r := exec peer.nominal env (peer.handleFileRequest p msg) now [] in
  r.1.1 = Returned tt /\
  exists t1 t2 e,
    r.2 = [En now (peer.log_Printf ("Received file request from " +:+ From msg +:+
                                    " for file: " +:+ FileName req)) tt;
           En t1 (peer.os_Open (filepath.Join [peer.sharedDir p; FileName req])) (Err e);
           En t2 (peer.log_Printf ("File not found: " +:+ FileName req)) tt].
Proof.
  intros Hpay Henv. unfold peer.handleFileRequest. rewrite Hpay. simpl.
  destruct (env unit [] _) as [[] x0]. simpl.
  match goal with
  | |- context [env _ ?h (peer.os_Open ?n)] =>
      destruct (Henv h) as (e & extra & He); rewrite He
  end.
  simpl.
  match goal with
  | |- context [env unit ?h (peer.log_Printf ?l)] =>
      destruct (env unit h (peer.log_Printf l)) as [[] x2]
  end.
  simpl. split; [reflexivity|]. eexists _, _, _. reflexivity.
Qed.
End FileRequestAbsent.

(** C3: a FileRequest naming a file that cannot be opened under the shared
    directory is logged and dropped. The step of the dispatch loop that
    handles it sends nothing (no connection changes, so nothing travels to
    the requester), writes no file on any process, leaves every other
    process as it was, and leaves the loop running on the rest of the
    queue. Whatever the environment, the handler makes three calls, a log
    line, the failed [Open] and a log line, and returns: there is no call
    of [Send]. *)
Theorem C3_absent_file_dropped (yield : World -> World) (self : nat) (w : World)
    (msg : Message) (req : FileRequest) (rest : list Message) (e : error) :
  Type_ msg = MessageTypeFileRequest ->
  Payload_ msg = PFileRequest req ->
  os.Open (n_fs (node self w))
    (filepath.Join [peer.sharedDir (n_peer (node self w)); FileName req]) = Err e ->
  n_dispatch (node self w) = DRunning ->
  n_panic (node self w) = None ->
  ch_buf (messageCh (tcp self w)) = msg :: rest ->
  (exists w',
    step yield (TDispatch self) w = Some w' /\
    conns w' = conns w /\
    (forall i, n_fs (node i w') = n_fs (node i w)) /\
    (forall i, i <> self -> node i w' = node i w) /\
    peers (tcp self w') = peers (tcp self w) /\
    ch_buf (messageCh (tcp self w')) = rest /\
    n_dispatch (node self w') = DRunning /\
    n_panic (node self w') = None /\
    n_log (node self w') =
      n_log (node self w) ++
      ["Received file request from " +:+ From msg +:+ " for file: " +:+ FileName req;
       "File not found: " +:+ FileName req]) /\
  (forall (env : Env peer.call) p now,
     (forall hist, exists e' extra,
         env _ hist (peer.os_Open (filepath.Join [peer.sharedDir p; FileName req]))
           = (Err e', extra)) ->
     let r := exec peer.nominal env (peer.handleFileRequest p msg) now [] in
     r.1.1 = Returned tt /\ attempts r.2 = [] /\ length r.2 = 3%nat).
Proof.
  intros Hty Hpay Hopen Hrun Hnp Hbuf. split; cycle 1.
  { intros env p now Henv r.
    destruct (exec_handleFileRequest_absent env p msg req now Hpay Henv)
      as (Hout & t1 & t2 & e' & Htr).
    fold r in Hout, Htr. split; [exact Hout|]. rewrite Htr. by split. }
  unfold step; simpl. rewrite Hnp.
  unfold handleMessages_step, chan_recv. rewrite Hrun.
  fold (tcp self w). rewrite Hbuf.
  unfold peer.dispatch. rewrite decide_True by done.
  erewrite run_handleFileRequest_absent; [| exact Hpay | rewrite n_fs_upd_tcp; exact Hopen].
  eexists; split; [reflexivity|]. simpl.
  split; [reflexivity|].
  split. { intros i. by rewrite !n_fs_logf, n_fs_upd_tcp. }
  split. { intros i Hi. rewrite !node_logf, !decide_False by done.
           rewrite node_upd_tcp. by rewrite decide_False. }
  rewrite !tcp_logf, tcp_upd_tcp. simpl.
  split; [reflexivity|]. split; [reflexivity|].
  rewrite !node_logf, !decide_True by done. rewrite node_upd_tcp, decide_True by done.
  simpl. split; [exact Hrun|]. split; [exact Hnp|].
  by rewrite <- app_assoc.
Qed.

(* ===================================================================== *)
(** ** Writing a received file *)
(* ===================================================================== *)

Section WriteFileFacts.
Implicit Types (fs : os.FS) (name : string) (data : list byte).

Lemma WriteFile_other fs name data perm other :
  other <> name -> (os.WriteFile fs name data perm).1 !! other = fs !! other.
Proof.
  intros Hne. unfold os.WriteFile.
  destruct (os.dir_exists fs name); [reflexivity|].
  destruct (bool_decide (name = EmptyString)); [reflexivity|].
  destruct (os.dir_exists fs (filepath.Dir name)); [|reflexivity].
  simpl. by rewrite lookup_insert_ne.
Qed.




End WriteFileFacts.

Section FileResponse.
Variable yield : World -> World.

Lemma run_handleFileResponse self w p msg resp :
  Payload_ msg = PFileResponse resp ->
  let path := filepath.Join [peer.receivedDir p; Name resp] in
  let written := os.WriteFile (n_fs (node self w)) path (Data resp) 420 in
  run yield self (peer.handleFileResponse p msg) w =
    (Returned tt,
     logf self (match written.2 with
                | Some err => "Error saving file: " +:+ Error err
                | None => "File received and saved: " +:+ path
                end)
       (upd_node self (set_fs written.1) w)).
Proof.
  intros Hpay. unfold peer.handleFileResponse. rewrite Hpay. simpl.
  destruct (os.WriteFile _ _ _ _) as [fs' [err|]]; reflexivity.
Qed.
End FileResponse.



(* ===================================================================== *)
(** ** File names taken from the wire *)
(* ===================================================================== *)

(** C10: the handlers use the name from the message as it comes. After its
    log line, the first call of [handleFileRequest] opens exactly
    [Join(sharedDir, fileName)], and the only file-system call of
    [handleFileResponse] writes exactly [Join(receivedDir, name)]. With the
    name [../secret.txt], A reads [secret.txt], which is outside its shared
    directory, and B writes [secret.txt], which is outside its received
    directory. *)
Theorem C10_names_not_sanitised :
  (forall p ty from fromAddr req, exists k,
      peer.handleFileRequest p (mkMessage ty from fromAddr (PFileRequest req)) =
        Vis (peer.log_Printf ("Received file request from " +:+ from +:+
                              " for file: " +:+ FileName req))
            (fun _ => Vis (peer.os_Open (filepath.Join [peer.sharedDir p; FileName req])) k)) /\
  (forall p ty from fromAddr resp, exists k,
      peer.handleFileResponse p (mkMessage ty from fromAddr (PFileResponse resp)) =
        Vis (peer.os_WriteFile (filepath.Join [peer.receivedDir p; Name resp])
                               (Data resp) 420) k) /\
  (let name := "../secret.txt" in
   let secret := scenario.bytes "keep out" in
   let fsA := <["secret.txt" := os.NFile secret]> scenario.dirsA in
   let w := scenario.transferred fsA scenario.dirsB name in
   ".." ∈ filepath.split_slash name /\
   filepath.Join [peer.sharedDir scenario.peerA; name] = "secret.txt" /\
   filepath.under (peer.sharedDir scenario.peerA) "secret.txt" = false /\
   filepath.Join [peer.receivedDir scenario.peerB; name] = "secret.txt" /\
   filepath.under (peer.receivedDir scenario.peerB) "secret.txt" = false /\
   n_fs (node scenario.B (scenario.started fsA scenario.dirsB)) !! "secret.txt" = None /\
   n_fs (node scenario.B w) !! "secret.txt" = Some (os.NFile secret)).
Proof.
  split; [|split].
  - intros. unfold peer.handleFileRequest. simpl. eexists. reflexivity.
  - intros. unfold peer.handleFileResponse. simpl. eexists. reflexivity.
  - cbv zeta. split.
    { apply list_elem_of_In. vm_compute. auto. }
    repeat (split; [vm_compute; reflexivity|]).
    vm_compute; reflexivity.
Qed.

(* ===================================================================== *)
(** ** The retry loop of RequestFile *)
(* ===================================================================== *)


Section RetryLoop.
Variable env : Env peer.call.

Lemma attempts_app tr1 tr2 : attempts (tr1 ++ tr2) = attempts tr1 ++ attempts tr2.
Proof. apply omap_app. Qed.

Lemma RequestFile_loop_ok peerAddr msg todo :
  forall now hist,
    exists new,
      (exec peer.nominal env (peer.RequestFile_loop peerAddr msg todo) now hist).2
        = hist ++ new /\
      retry_ok peerAddr msg todo now
        (exec peer.nominal env (peer.RequestFile_loop peerAddr msg todo) now hist).1.1
        (attempts new).
Proof.
  induction todo as [|todo IH]; intros now hist.
  - exists []. simpl. split; [by rewrite app_nil_r|].
    unfold retry_ok. simpl.
    split; [lia|]. split; [constructor|].
    split. { intros i a b Hi. by rewrite lookup_nil in Hi. }
    split. { intros i a Hi. by rewrite lookup_nil in Hi. }
    split. { split; [discriminate|]. intros (a & Ha & _). discriminate. }
    split. { intros _. split; reflexivity. }
    eauto.
  - cbn [peer.RequestFile_loop]. simpl.
    destruct (env _ hist (peer.transport_Send peerAddr msg)) as [[err|] extra0] eqn:E0.
    + (* the send failed: log, sleep, next iteration *)
      simpl.
      match goal with
      | |- context [env unit ?h (peer.log_Printf ?l)] =>
          destruct (env unit h (peer.log_Printf l)) as [[] extra1] eqn:E1
      end.
      match goal with
      | |- context [env unit ?h (peer.time_Sleep ?d)] =>
          destruct (env unit h (peer.time_Sleep d)) as [[] extra2] eqn:E2
      end.
      match goal with
      | |- context [exec _ _ _ ?t ?h] => destruct (IH t h) as (new & Htr & Hok)
      end.
      eexists. split.
      { rewrite Htr. rewrite <- !app_assoc. reflexivity. }
      rewrite !attempts_app.
      destruct Hok as (Hlen & Hall & Hsp & Hfail & Hout & Hex & Hret).
      set (a0 := mkAttempt now peerAddr msg (Some err)).
      change (attempts [En now (peer.transport_Send peerAddr msg) (Some err)])
        with [a0].
      match goal with
      | |- context [attempts [En ?t (peer.log_Printf ?l) ?x]] =>
          change (attempts [En t (peer.log_Printf l) x]) with (@nil Attempt)
      end.
      match goal with
      | |- context [attempts [En ?t (peer.time_Sleep ?d) ?x]] =>
          change (attempts [En t (peer.time_Sleep d) x]) with (@nil Attempt)
      end.
      cbn [app]. unfold retry_ok.
      assert (Hgap : (now + peer.retryInterval <=
                      now + 0 `max` 0 + Z.of_N extra0 + 0 `max` 0 + Z.of_N extra1 +
                      0 `max` peer.retryInterval + Z.of_N extra2)%Z).
      { unfold peer.retryInterval, Second, Millisecond. lia. }
      assert (Hpos : (0 <= peer.retryInterval)%Z).
      { unfold peer.retryInterval, Second, Millisecond. lia. }
      split; [simpl; lia|].
      split.
      { constructor; [simpl; repeat split; lia|].
        eapply Forall_impl; [exact Hall|]. simpl. intros a (? & ? & ?).
        repeat split; try done. lia. }
      split.
      { intros [|i] a b Ha Hb; simpl in *.
        - injection Ha as <-. simpl.
          rewrite Forall_forall in Hall.
          apply list_elem_of_lookup_2, Hall in Hb. lia.
        - eapply Hsp; eauto. }
      split.
      { intros [|i] a Ha Hi; simpl in *.
        - by injection Ha as <-.
        - eapply Hfail; eauto. lia. }
      split.
      { rewrite Hout. destruct (attempts new) as [|a1 rest] eqn:Eat.
        - simpl. split; intros (a & Ha & Hn); [discriminate|].
          injection Ha as <-. discriminate.
        - rewrite last_cons_cons. reflexivity. }
      split.
      { intros Hallfail. destruct Hex as [Hl Ho].
        - intros a Ha. apply Hallfail. by apply elem_of_cons; right.
        - split; [simpl; lia | exact Ho]. }
      exact Hret.
    + (* the send succeeded: return nil *)
      simpl. eexists. split; [reflexivity|].
      set (a0 := mkAttempt now peerAddr msg None).
      change (attempts [En now (peer.transport_Send peerAddr msg) None]) with [a0].
      unfold retry_ok. simpl.
      split; [lia|].
      split. { repeat constructor; simpl; lia. }
      split. { intros [|i] a b Ha Hb; simpl in *; discriminate. }
      split. { intros i a Ha Hi. lia. }
      split. { split; [eauto|reflexivity]. }
      split. { intros Hallfail. exfalso. apply (Hallfail a0); [apply list_elem_of_here | reflexivity]. }
      eauto.
Qed.
End RetryLoop.

(** C2: whatever the transport and the rest of the environment answer,
    [RequestFile] returns (it neither panics nor runs forever), calls
    [Send] at most 5 times, always with the given address and the
    FileRequest for the given name, with at least 2 seconds between two
    consecutive calls; every call before the last one failed; it returns
    nil exactly when the last call succeeded; and when every call fails
    there are exactly 5 calls and the result is the terminal error. *)
Theorem C2_request_retries (env : Env peer.call) (p : peer.Peer)
    (peerAddr fileName : string) (now : Z) :
  let r := exec peer.nominal env (peer.RequestFile p peerAddr fileName) now [] in
  let out := r.1.1 in
  let att := attempts r.2 in
  let req := {| Type_ := MessageTypeFileRequest; From := peer.id p; FromAddr := EmptyString;
                Payload_ := PFileRequest {| FileName := fileName |} |} in
  (length att <= 5)%nat /\
  (forall a, a ∈ att -> at_addr a = peerAddr /\ at_msg a = req) /\
  (forall i a b, att !! i = Some a -> att !! S i = Some b ->
                 (at_time a + 2 * Second <= at_time b)%Z) /\
  (forall i a, att !! i = Some a -> (S i < length att)%nat -> at_err a <> None) /\
  (out = Returned None <-> exists a, last att = Some a /\ at_err a = None) /\
  ((forall a, a ∈ att -> at_err a <> None) ->
     length att = 5%nat /\
     out = Returned (Some (errorString "failed to connect after 5 attempts"))) /\
  (exists e, out = Returned e).
Proof.
  intros r out att req.
  destruct (RequestFile_loop_ok env peerAddr req peer.maxRetries now [])
    as (new & Htr & Hok).
  assert (Htr' : r.2 = new) by exact Htr.
  assert (Hok' : retry_ok peerAddr req 5 now out (attempts new)) by exact Hok.
  clear Htr Hok. subst att. rewrite Htr'.
  destruct Hok' as (Hlen & Hall & Hsp & Hfail & Hout & Hex & Hret).
  split; [exact Hlen|].
  split. { intros a Ha. rewrite Forall_forall in Hall.
           destruct (Hall a Ha) as (? & ? & ?). by split. }
  split. { intros i a b Ha Hb. pose proof (Hsp i a b Ha Hb) as H.
           unfold peer.retryInterval in H. lia. }
  split; [exact Hfail|].
  split; [exact Hout|].
  split; [exact Hex|].
  exact Hret.
Qed.

(** Against an address where nothing listens: five attempts, two seconds
    apart, then the terminal error, ten seconds after the start. *)
Example request_refused :
  let r := exec peer.nominal env_refused
             (peer.RequestFile scenario.peerB "localhost:3000" "greet.txt") 0 [] in
  r.1.1 = Returned (Some terminal_error) /\
  at_time <$> attempts r.2 = [0; 2 * Second; 4 * Second; 6 * Second; 8 * Second]%Z /\
  r.1.2 = (10 * Second)%Z.
Proof. repeat split; vm_compute; reflexivity. Qed.

(* ===================================================================== *)
(** ** Send *)
(* ===================================================================== *)


Section SendFacts.
Variable yield : World -> World.

Lemma ConnectToPeer_dial self addr w :
  let w0 := logf self ("Connecting to peer at " +:+ addr) w in
  match (net_Dial self addr w0).1 with
  | Err e => ConnectToPeer self addr w =
               (Some (errorString ("dial failed: " +:+ Error e)), (net_Dial self addr w0).2)
  | Ok conn =>
      (ConnectToPeer self addr w).1 = None /\
      peers (tcp self (ConnectToPeer self addr w).2) !! addr = Some conn /\
      n_readers (node self (ConnectToPeer self addr w).2) !! conn = Some RStart
  end.
Proof.
  intros w0. unfold ConnectToPeer. fold w0.
  destruct (net_Dial self addr w0) as [[conn | e] w1]; simpl; [|reflexivity].
  split; [reflexivity|]. unfold spawn_reader. split.
  - unfold tcp. rewrite node_upd_node_eq. simpl. rewrite node_logf, decide_True by done.
    simpl. fold (tcp self (upd_tcp self (fun t => set_peers (<[addr:=conn]> (peers t)) t) w1)).
    rewrite tcp_upd_tcp. simpl. apply lookup_insert_eq.
  - rewrite node_upd_node_eq. simpl. apply lookup_insert_eq.
Qed.
End SendFacts.

(** C5: [Send] writes the encoded message on the connection registered for
    the address when there is one; otherwise it calls [ConnectToPeer],
    sleeps 100ms, looks the address up again and writes on what it finds.
    It returns an error exactly when the dial fails, or no connection is
    registered for the address after the wait, or the write on the
    connection fails. *)
Theorem C5_send_errors (yield : World -> World) (self : nat) (addr : string)
    (msg : Message) (w : World) :
  let r := Send yield self addr msg w in
  (forall conn, peers (tcp self w) !! addr = Some conn -> r = conn_Encode conn msg w) /\
  (forall conn, send_spec.unregistered self addr w ->
     (ConnectToPeer self addr w).1 = None ->
     peers (tcp self (send_spec.after_wait yield self addr w)) !! addr = Some conn ->
     r = conn_Encode conn msg (send_spec.after_wait yield self addr w)) /\
  (r.1 <> None <->
     send_spec.dial_failed self addr w \/
     send_spec.not_registered_in_time yield self addr w \/
     send_spec.write_failed yield self addr msg w).
Proof.
  intros r. subst r.
  unfold send_spec.unregistered, send_spec.not_registered_in_time,
    send_spec.write_failed, send_spec.connection_used, send_spec.dial_failed,
    send_spec.unregistered, send_spec.after_wait.
  pose proof (ConnectToPeer_dial self addr w) as Hdial. cbv zeta in Hdial.
  unfold Send.
  destruct (peers (tcp self w) !! addr) as [conn|] eqn:Hreg.
  - split; [by intros ? [= <-]|]. split; [discriminate|].
    split.
    + intros Herr. right; right. exists conn, w. split; [by left | exact Herr].
    + intros [(Hno & _) | [(Hno & _) | (c & ww & [[Hc ->] | (Hno & _)] & Herr)]];
        try discriminate.
      by injection Hc as <-.
  - split; [discriminate|].
    destruct (net_Dial self addr (logf self ("Connecting to peer at " +:+ addr) w)).1
      as [c0 | e] eqn:Hd.
    + destruct Hdial as (Hok & _ & _).
      destruct (ConnectToPeer self addr w) as [cerr w1] eqn:Hc. simpl in Hok. subst cerr.
      simpl.
      destruct (peers (tcp self (Sleep yield (100 * Millisecond) w1)) !! addr)
        as [conn|] eqn:Hreg2.
      * split; [by intros ? _ _ [= <-]|]. split.
        -- intros Herr. right; right. eexists conn, _. split; [|exact Herr].
           right. by repeat split.
        -- intros [(_ & e & He) | [(_ & _ & Hno) | (c & ww & [[Hx _] | (_ & _ & Hc2 & ->)] & Herr)]];
             try discriminate.
           by injection Hc2 as <-.
      * split; [discriminate|]. simpl. split; [|discriminate].
        intros _. right; left. by repeat split.
    + rewrite Hdial. simpl. split; [discriminate|]. split; [|discriminate].
      intros _. left. split; [reflexivity | by exists e].
Qed.

(* ===================================================================== *)
(** ** Shutdown *)
(* ===================================================================== *)

Section ShutdownFacts.
Implicit Types (w : World) (c : nat).

Lemma is_closed_upd_conn c c' f w :
  (forall ep, ep_closed ep = true -> ep_closed (f ep) = true) ->
  is_closed c w -> is_closed c (upd_conn c' f w).
Proof.
  intros Hf (ep & Hep & Hcl). unfold is_closed, upd_conn. simpl.
  rewrite lookup_alter. destruct (decide (c' = c)) as [->|].
  - rewrite Hep. simpl. eauto.
  - eauto.
Qed.

Lemma conn_Close_mono c c' w : is_closed c w -> is_closed c (conn_Close c' w).
Proof.
  intros Hc. unfold conn_Close.
  destruct (conns w !! c') as [ep|]; [|done].
  destruct (ep_closed ep); [done|].
  apply is_closed_upd_conn; [by intros []|].
  apply is_closed_upd_conn; [by intros []|]. done.
Qed.

Lemma conn_Close_closed c w :
  is_Some (conns w !! c) -> is_closed c (conn_Close c w).
Proof.
  intros [ep Hep]. unfold conn_Close. rewrite Hep.
  destruct (ep_closed ep) eqn:Hcl; [by exists ep|].
  apply is_closed_upd_conn; [by intros []|].
  unfold is_closed, upd_conn. simpl. rewrite lookup_alter_eq, Hep. simpl. eauto.
Qed.

Lemma conn_Close_None c c' w :
  conns w !! c = None -> conns (conn_Close c' w) !! c = None.
Proof.
  intros Hc. unfold conn_Close.
  destruct (conns w !! c') as [ep|]; [|done].
  destruct (ep_closed ep); [done|].
  unfold upd_conn. simpl. rewrite !lookup_alter_None. done.
Qed.

Lemma nodes_conn_Close c w : nodes (conn_Close c w) = nodes w.
Proof.
  unfold conn_Close. destruct (conns w !! c) as [ep|]; [|done].
  by destruct (ep_closed ep).
Qed.

Lemma bound_conn_Close c w : bound (conn_Close c w) = bound w.
Proof.
  unfold conn_Close. destruct (conns w !! c) as [ep|]; [|done].
  by destruct (ep_closed ep).
Qed.

(** Closing every connection of a list, as the loop of [Shutdown] does. *)
Lemma close_all (l : list (string * nat)) w :
  let w' := foldr (fun kv => conn_Close kv.2) w l in
  nodes w' = nodes w /\ bound w' = bound w /\
  (forall c, conns w !! c = None -> conns w' !! c = None) /\
  (forall c, is_closed c w -> is_closed c w') /\
  (forall kv, kv ∈ l -> is_Some (conns w !! kv.2) -> is_closed kv.2 w').
Proof.
  induction l as [|kv l IH]; simpl.
  - repeat split; try done. intros kv Hkv. by apply elem_of_nil in Hkv.
  - destruct IH as (Hn & Hb & Hnone & Hmono & Hall).
    rewrite nodes_conn_Close, bound_conn_Close.
    split; [done|]. split; [done|].
    split. { intros c Hc. by apply conn_Close_None, Hnone. }
    split. { intros c Hc. by apply conn_Close_mono, Hmono. }
    intros kv' Hin Hsome. apply elem_of_cons in Hin as [-> | Hin].
    + apply conn_Close_closed.
      destruct (conns (foldr (fun kv0 => conn_Close kv0.2) w l) !! kv.2) eqn:E; [eauto|].
      destruct Hsome as [ep Hep].
      destruct (conns w !! kv.2) eqn:E2; [|done].
      exfalso.
      assert (Hdom : forall w0 c0, is_Some (conns w0 !! kv.2) ->
                                   is_Some (conns (conn_Close c0 w0) !! kv.2)).
      { intros w0 c0 [ep0 H0]. unfold conn_Close.
        destruct (conns w0 !! c0) as [epc|]; [|eauto].
        destruct (ep_closed epc); [eauto|].
        unfold upd_conn. simpl. rewrite !lookup_alter_is_Some. eauto. }
      assert (Hk : is_Some (conns (foldr (fun kv0 => conn_Close kv0.2) w l) !! kv.2)).
      { clear -Hdom E2. induction l as [|x l IHl]; simpl; [eauto|]. by apply Hdom. }
      rewrite E in Hk. by destruct Hk.
    + apply conn_Close_mono. by apply Hall.
Qed.

Lemma conn_Encode_closed c msg w :
  conns w !! c = None \/ is_closed c w -> (conn_Encode c msg w).1 <> None.
Proof.
  unfold conn_Encode. intros [-> | (ep & -> & ->)]; simpl; discriminate.
Qed.

Lemma recv_nth_closed i : forall ch,
  ch_closed ch = true -> recv_nth i ch = Some (ch_buf ch !! i).
Proof.
  induction i as [|i IH]; intros [buf cl] Hcl; simpl in *; subst cl;
    unfold chan_recv; simpl; destruct buf as [|m rest]; simpl; try reflexivity.
  - rewrite IH by reflexivity. reflexivity.
  - rewrite IH by reflexivity. reflexivity.
Qed.
End ShutdownFacts.

(** C8, as amended: [Shutdown] on a transport whose queue is still open
    returns nil after closing the listening socket (no listener of this
    process stays bound), every connection registered in the peer registry
    (so a write on any of them fails), and then the message queue. The
    queue keeps what was buffered: a consumer's receives never block; they
    first yield the buffered messages in order, and every receive after
    those observes the closed state. *)
Theorem C8_shutdown_closes_everything (self : nat) (w : World) :
  ch_closed (messageCh (tcp self w)) = false ->
  let out := (Shutdown self w).1 in
  let w' := (Shutdown self w).2 in
  out = Returned None /\
  listener (tcp self w') <> LOpen /\
  (listener (tcp self w) <> LNil -> forall addr, bound w' !! addr <> Some self) /\
  (forall addr conn, peers (tcp self w) !! addr = Some conn ->
     (is_Some (conns w !! conn) -> is_closed conn w') /\
     forall msg, (conn_Encode conn msg w').1 <> None) /\
  ch_closed (messageCh (tcp self w')) = true /\
  ch_buf (messageCh (tcp self w')) = ch_buf (messageCh (tcp self w)) /\
  (forall i, recv_nth i (messageCh (tcp self w')) =
             Some (ch_buf (messageCh (tcp self w)) !! i)).
Proof.
  intros Hopen out w'. subst out w'. unfold Shutdown.
  set (w1 := match listener (tcp self w) with LNil => w | _ => listener_Close self w end).
  assert (H1 : peers (tcp self w1) = peers (tcp self w) /\
               messageCh (tcp self w1) = messageCh (tcp self w) /\
               conns w1 = conns w /\
               listener (tcp self w1) <> LOpen /\
               (listener (tcp self w) <> LNil -> forall addr, bound w1 !! addr <> Some self)).
  { subst w1. unfold listener_Close.
    destruct (listener (tcp self w)) eqn:Hl;
      [ rewrite Hl; repeat split; try done
      | change (tcp self (set_bound ?b ?x)) with (tcp self x); rewrite tcp_upd_tcp;
        repeat split; try done; intros _ addr Hb; simpl in Hb;
        apply map_lookup_filter_Some in Hb as [_ Hb]; by apply Hb .. ]. }
  destruct H1 as (Hp1 & Hch1 & Hc1 & Hl1 & Hb1).
  pose proof (close_all (map_to_list (peers (tcp self w1))) w1) as Hall.
  cbv zeta in Hall.
  set (w2 := foldr (fun kv => conn_Close kv.2) w1 (map_to_list (peers (tcp self w1)))) in *.
  destruct Hall as (Hn2 & Hb2 & Hnone & Hmono & Hclosed).
  assert (Htcp2 : tcp self w2 = tcp self w1).
  { unfold tcp, node. by rewrite Hn2. }
  rewrite Htcp2, Hch1, Hopen. simpl.
  split; [reflexivity|].
  rewrite tcp_upd_tcp. simpl. rewrite Htcp2.
  split; [exact Hl1|].
  split. { intros Hl addr. change (bound (upd_tcp self ?f w2)) with (bound w2).
           rewrite Hb2. by apply Hb1. }
  split.
  { intros addr conn Hreg.
    assert (Hcl : is_Some (conns w !! conn) -> is_closed conn w2).
    { intros Hs. apply (Hclosed (addr, conn)).
      - apply elem_of_map_to_list. by rewrite Hp1.
      - simpl. by rewrite Hc1. }
    split; [exact Hcl|].
    intros msg. apply conn_Encode_closed.
    change (conns (upd_tcp self ?f w2)) with (conns w2).
    unfold is_closed. change (conns (upd_tcp self ?f w2)) with (conns w2).
    destruct (conns w !! conn) as [ep|] eqn:E.
    - right. apply Hcl. eauto.
    - left. apply Hnone. by rewrite Hc1. }
  split; [reflexivity|]. split; [reflexivity|].
  intros i. by rewrite recv_nth_closed.
Qed.

(* ===================================================================== *)
(** ** The connection reader *)
(* ===================================================================== *)

Section ReaderFacts.
Implicit Types (w : World) (self conn c : nat).

Lemma remote_upd_conn c c' f w :
  (forall ep, ep_remote (f ep) = ep_remote ep) ->
  ep_remote <$> conns (upd_conn c f w) !! c' = ep_remote <$> conns w !! c'.
Proof.
  intros Hf. unfold upd_conn. simpl. rewrite lookup_alter.
  destruct (decide (c = c')) as [->|]; [|done].
  destruct (conns w !! c'); simpl; [by rewrite Hf | done].
Qed.

Lemma remote_conn_Close c c' w :
  ep_remote <$> conns (conn_Close c w) !! c' = ep_remote <$> conns w !! c'.
Proof.
  unfold conn_Close. destruct (conns w !! c) as [ep|]; [|done].
  destruct (ep_closed ep); [done|].
  rewrite !remote_upd_conn; done.
Qed.

Lemma node_conn_Close c w i : node i (conn_Close c w) = node i w.
Proof. unfold node. by rewrite nodes_conn_Close. Qed.

Lemma tcp_conn_Close c w i : tcp i (conn_Close c w) = tcp i w.
Proof. unfold tcp. by rewrite node_conn_Close. Qed.

Lemma tcp_set_pc self conn pc w i : tcp i (set_pc self conn pc w) = tcp i w.
Proof.
  unfold tcp, set_pc. rewrite node_upd_node.
  by destruct (decide (self = i)) as [->|].
Qed.

Lemma readers_set_pc self conn pc w :
  n_readers (node self (set_pc self conn pc w)) !! conn = Some pc.
Proof. unfold set_pc. rewrite node_upd_node_eq. simpl. apply lookup_insert_eq. Qed.

Lemma tcp_return self conn remote w :
  tcp self (managePeerConnection_return self conn remote w) =
    set_peers (delete remote (peers (tcp self w))) (tcp self w).
Proof.
  unfold managePeerConnection_return.
  by rewrite tcp_set_pc, tcp_conn_Close, tcp_upd_tcp.
Qed.

Lemma remote_return self conn remote w c :
  ep_remote <$> conns (managePeerConnection_return self conn remote w) !! c =
  ep_remote <$> conns w !! c.
Proof.
  unfold managePeerConnection_return.
  change (conns (set_pc ?a ?b ?d ?x)) with (conns x).
  rewrite remote_conn_Close. reflexivity.
Qed.

Lemma readers_return self conn remote w :
  n_readers (node self (managePeerConnection_return self conn remote w)) !! conn
    = Some RDone.
Proof. unfold managePeerConnection_return. apply readers_set_pc. Qed.

(** One step of a reader keeps the remote address of its connection,
    keeps [stamped], and puts on the channel at most one message, which
    carries the remote address. *)
Lemma managePeerConnection_step_stamps self conn w w' ep :
  conns w !! conn = Some ep ->
  stamped self conn w ->
  managePeerConnection_step self conn w = Some w' ->
  ep_remote <$> conns w' !! conn = Some (ep_remote ep) /\
  stamped self conn w' /\
  exists new,
    ch_buf (messageCh (tcp self w')) = ch_buf (messageCh (tcp self w)) ++ new /\
    Forall (fun m => FromAddr m = ep_remote ep) new.
Proof.
  intros Hep Hst. unfold managePeerConnection_step. rewrite Hep.
  assert (Hdone : forall x remote,
    ep_remote <$> conns x !! conn = Some (ep_remote ep) ->
    messageCh (tcp self x) = messageCh (tcp self w) ->
    let y := managePeerConnection_return self conn remote x in
    ep_remote <$> conns y !! conn = Some (ep_remote ep) /\
    stamped self conn y /\
    exists new,
      ch_buf (messageCh (tcp self y)) = ch_buf (messageCh (tcp self w)) ++ new /\
      Forall (fun m => FromAddr m = ep_remote ep) new).
  { intros x remote Hx Hch y. subst y. split; [by rewrite remote_return|].
    split. { intros m ep' Hpc. by rewrite readers_return in Hpc. }
    exists []. rewrite tcp_return. simpl. rewrite Hch, app_nil_r. by split. }
  destruct (n_readers (node self w) !! conn) as [[| msg | msg |]|] eqn:Hpc;
    try discriminate.
  - (* RStart: register *)
    intros [= <-].
    change (conns (set_pc ?a ?b ?d ?x)) with (conns x).
    change (conns (upd_tcp ?a ?f ?x)) with (conns x).
    change (conns (logf ?a ?l ?x)) with (conns x).
    rewrite Hep. split; [done|].
    split. { intros m ep' Hm. by rewrite readers_set_pc in Hm. }
    exists []. rewrite tcp_set_pc, tcp_upd_tcp, tcp_logf. simpl.
    rewrite app_nil_r. by split.
  - (* RDecode *)
    destruct (ep_closed ep).
    { intros [= <-]. apply Hdone.
      - change (conns (logf ?a ?l ?x)) with (conns x). by rewrite Hep.
      - by rewrite tcp_logf. }
    destruct (ep_inbox ep) as [|f rest] eqn:Hin.
    { destruct (ep_eof ep); [|discriminate].
      intros [= <-]. apply Hdone; [by rewrite Hep | done]. }
    assert (Hrem : ep_remote <$> conns (upd_conn conn (set_inbox rest) w) !! conn
                   = Some (ep_remote ep)).
    { rewrite remote_upd_conn by done. by rewrite Hep. }
    destruct (Decode f msg) as [m | err].
    + intros [= <-].
      change (conns (set_pc ?a ?b ?d ?x)) with (conns x).
      split; [exact Hrem|].
      split.
      { intros m' ep' Hm Hc. rewrite readers_set_pc in Hm. injection Hm as <-.
        change (conns (set_pc ?a ?b ?d ?x)) with (conns x) in Hc.
        simpl. rewrite Hc in Hrem. by injection Hrem as ->. }
      exists []. rewrite tcp_set_pc. change (tcp self (upd_conn ?a ?f ?x)) with (tcp self x).
      rewrite app_nil_r. by split.
    + intros [= <-]. apply Hdone.
      * destruct (is_EOF err); [exact Hrem|].
        change (conns (logf ?a ?l ?x)) with (conns x). exact Hrem.
      * destruct (is_EOF err); [done|]. by rewrite tcp_logf.
  - (* RSend *)
    fold (tcp self w).
    destruct (ch_closed (messageCh (tcp self w))).
    { intros [= <-].
      destruct (Hdone w (ep_remote ep)) as (H1 & H2 & new & H3 & H4);
        [by rewrite Hep | done |].
      split; [exact H1|].
      split.
      { intros m ep' Hm. rewrite node_upd_node_eq in Hm. simpl in Hm.
        by rewrite readers_return in Hm. }
      exists new. split; [|exact H4].
      unfold tcp. rewrite node_upd_node_eq. simpl. exact H3. }
    destruct (decide _); [|discriminate].
    intros [= <-].
    change (conns (set_pc ?a ?b ?d ?x)) with (conns x).
    change (conns (upd_tcp ?a ?f ?x)) with (conns x).
    rewrite Hep. split; [done|].
    split. { intros m ep' Hm. by rewrite readers_set_pc in Hm. }
    exists [msg]. rewrite tcp_set_pc, tcp_upd_tcp. simpl.
    split; [done|]. constructor; [|constructor]. by apply Hst.
Qed.
End ReaderFacts.

Section ReaderRun.
Implicit Types (w : World) (self conn : nat).

Lemma managePeerConnection_run_stamps self conn remote fuel : forall w,
  ep_remote <$> conns w !! conn = Some remote ->
  stamped self conn w ->
  exists new,
    ch_buf (messageCh (tcp self (managePeerConnection_run fuel self conn w))) =
      ch_buf (messageCh (tcp self w)) ++ new /\
    Forall (fun m => FromAddr m = remote) new.
Proof.
  induction fuel as [|fuel IH]; intros w Hrem Hst; simpl.
  - exists []. by rewrite app_nil_r.
  - destruct (managePeerConnection_step self conn w) as [w1|] eqn:Hstep.
    + destruct (conns w !! conn) as [ep|] eqn:Hep; [|discriminate].
      simpl in Hrem. injection Hrem as <-.
      destruct (managePeerConnection_step_stamps self conn w w1 ep Hep Hst Hstep)
        as (Hrem1 & Hst1 & new1 & Hbuf1 & Hall1).
      destruct (IH w1 Hrem1 Hst1) as (new2 & Hbuf2 & Hall2).
      exists (new1 ++ new2). rewrite Hbuf2, Hbuf1, app_assoc.
      split; [done|]. by apply Forall_app.
    + exists []. by rewrite app_nil_r.
Qed.

Lemma managePeerConnection_step_decode self conn w ep msg0 m rest :
  conns w !! conn = Some ep ->
  n_readers (node self w) !! conn = Some (RDecode msg0) ->
  ep_closed ep = false ->
  ep_inbox ep = FGob m :: rest ->
  exists w1 d,
    Decode (FGob m) msg0 = Ok d /\
    managePeerConnection_step self conn w = Some w1 /\
    n_readers (node self w1) !! conn =
      Some (RSend {| Type_ := Type_ d; From := From d;
                     FromAddr := ep_remote ep; Payload_ := Payload_ d |}).
Proof.
  intros Hep Hpc Hcl Hin. unfold managePeerConnection_step.
  rewrite Hpc, Hep, Hcl, Hin. simpl.
  eexists _, _. split; [reflexivity|]. split; [reflexivity|].
  apply readers_set_pc.
Qed.
End ReaderRun.

Section ChannelFacts.
(** What runs while a goroutine sleeps does not touch the message
    channels (those goroutines are covered on their own). *)
Variable yield : World -> World.
Hypothesis yield_channels :
  forall w i, messageCh (tcp i (yield w)) = messageCh (tcp i w).

Lemma tcp_upd_node_same self f w i :
  (forall n, n_transport (f n) = n_transport n) ->
  tcp i (upd_node self f w) = tcp i w.
Proof.
  intros Hf. unfold tcp. rewrite node_upd_node.
  destruct (decide (self = i)) as [->|]; [apply Hf | done].
Qed.

Lemma messageCh_upd_tcp self f w i :
  (forall t, messageCh (f t) = messageCh t) ->
  messageCh (tcp i (upd_tcp self f w)) = messageCh (tcp i w).
Proof.
  intros Hf. unfold tcp. rewrite node_upd_tcp.
  destruct (decide (self = i)) as [->|]; [apply Hf | done].
Qed.

Lemma tcp_net_Dial self addr w i : tcp i (net_Dial self addr w).2 = tcp i w.
Proof.
  unfold net_Dial. destruct (bound w !! resolve w addr) as [srv|]; [|done].
  simpl. by rewrite tcp_upd_node_same.
Qed.

Lemma tcp_conn_Encode c msg w i : tcp i (conn_Encode c msg w).2 = tcp i w.
Proof.
  unfold conn_Encode. destruct (conns w !! c) as [ep|]; [|done].
  by destruct (ep_closed ep).
Qed.

Lemma messageCh_ConnectToPeer self addr w i :
  messageCh (tcp i (ConnectToPeer self addr w).2) = messageCh (tcp i w).
Proof.
  unfold ConnectToPeer.
  pose proof (tcp_net_Dial self addr (logf self ("Connecting to peer at " +:+ addr) w) i) as Hd.
  destruct (net_Dial self addr _) as [[conn | e] w1]; simpl in *.
  - unfold spawn_reader. rewrite tcp_upd_node_same by done.
    rewrite tcp_logf, messageCh_upd_tcp by done. by rewrite Hd, tcp_logf.
  - by rewrite Hd, tcp_logf.
Qed.

Lemma messageCh_Sleep d w i :
  messageCh (tcp i (Sleep yield d w)) = messageCh (tcp i w).
Proof. unfold Sleep. by rewrite yield_channels. Qed.

Lemma messageCh_Send self addr msg w i :
  messageCh (tcp i (Send yield self addr msg w).2) = messageCh (tcp i w).
Proof.
  unfold Send. destruct (peers (tcp self w) !! addr) as [conn|].
  - by rewrite tcp_conn_Encode.
  - pose proof (messageCh_ConnectToPeer self addr w i) as Hc.
    destruct (ConnectToPeer self addr w) as [[err|] w1]; simpl in *; [done|].
    destruct (peers (tcp self (Sleep yield (100 * Millisecond) w1)) !! addr);
      simpl; [rewrite tcp_conn_Encode|]; by rewrite messageCh_Sleep.
Qed.

Lemma messageCh_perform self X (e : peer.call X) w i :
  messageCh (tcp i (perform yield self e w).2) = messageCh (tcp i w).
Proof.
  destruct e; simpl; try reflexivity.
  - by rewrite tcp_logf.
  - destruct (os.WriteFile _ _ _ _) as [fs err]. simpl.
    by rewrite tcp_upd_node_same.
  - apply messageCh_Send.
  - apply messageCh_Sleep.
Qed.

(** No program over the calls of peer.go changes a message channel. *)
Lemma messageCh_run self R (p : Prog peer.call R) : forall w i,
  messageCh (tcp i (run yield self p w).2) = messageCh (tcp i w).
Proof.
  induction p as [r | v | X e k IH]; intros w i; simpl.
  - reflexivity.
  - by rewrite tcp_upd_node_same.
  - pose proof (messageCh_perform self X e w i) as He.
    destruct (perform yield self e w) as [x w1]. simpl in He.
    by rewrite IH.
Qed.

(** Neither does the accept loop. *)
Lemma messageCh_accept self w w' i :
  handleIncomingConnections_step self w = Some w' ->
  messageCh (tcp i w') = messageCh (tcp i w).
Proof.
  unfold handleIncomingConnections_step.
  destruct (negb _); [discriminate|].
  destruct (listener _); [discriminate | |].
  - destruct (n_backlog _) as [|c rest]; [discriminate|].
    intros [= <-]. unfold spawn_reader. by rewrite !tcp_upd_node_same.
  - intros [= <-]. by rewrite tcp_logf.
Qed.

(** The dispatch loop only takes messages off its own channel. *)
Lemma messageCh_dispatch self w w' i :
  handleMessages_step yield self w = Some w' ->
  (i <> self -> messageCh (tcp i w') = messageCh (tcp i w)) /\
  (ch_buf (messageCh (tcp self w')) = ch_buf (messageCh (tcp self w)) \/
   exists m, ch_buf (messageCh (tcp self w)) = m :: ch_buf (messageCh (tcp self w'))).
Proof.
  unfold handleMessages_step, chan_recv. fold (tcp self w).
  destruct (n_dispatch _); try discriminate.
  destruct (ch_buf (messageCh (tcp self w))) as [|m rest] eqn:Hbuf.
  - destruct (ch_closed _); [|discriminate].
    intros [= <-]. rewrite !tcp_upd_node_same by done. rewrite Hbuf. by split; [|left].
  - intros [= <-]. rewrite !messageCh_run. split.
    + intros Hi. by rewrite tcp_upd_tcp_ne.
    + right. exists m. by rewrite tcp_upd_tcp.
Qed.
End ChannelFacts.

(* ===================================================================== *)
(** ** Well-formed worlds *)
(* ===================================================================== *)

Section WellFormed.
Lemma node_lookup w i n : nodes w !! i = Some n -> node i w = n.
Proof. intros H. unfold node. by rewrite lookup_total_alt, H. Qed.

Lemma node_missing w i :
  nodes w !! i = None -> n_readers (node i w) = ∅ /\ n_backlog (node i w) = [].
Proof. intros H. unfold node. rewrite lookup_total_alt, H. by split. Qed.

Lemma well_formed_WF w : well_formed w = true <-> WF w.
Proof.
  unfold well_formed, node_ok, reader_ok. rewrite andb_true_iff, !forallb_forall.
  split.
  - intros [Hc Hn]. split.
    + intros c [r Hr]. unfold remote_of in Hr.
      destruct (conns w !! c) as [ep|] eqn:E; [|done].
      specialize (Hc (c, ep)). rewrite bool_decide_eq_true in Hc. apply Hc.
      apply list_elem_of_In, elem_of_map_to_list. done.
    + intros i c pc Hpc.
      destruct (nodes w !! i) as [n|] eqn:E.
      * rewrite (node_lookup w i n E) in Hpc.
        specialize (Hn (i, n)). rewrite andb_true_iff, !forallb_forall in Hn.
        destruct Hn as [Hr _]. { apply list_elem_of_In, elem_of_map_to_list. done. }
        specialize (Hr (c, pc)). rewrite andb_true_iff, bool_decide_eq_true in Hr.
        apply Hr. apply list_elem_of_In, elem_of_map_to_list. done.
      * destruct (node_missing w i E) as [Hr _]. rewrite Hr in Hpc. done.
    + intros i c Hin.
      destruct (nodes w !! i) as [n|] eqn:E.
      * rewrite (node_lookup w i n E) in Hin.
        specialize (Hn (i, n)). rewrite andb_true_iff, !forallb_forall in Hn.
        destruct Hn as [_ Hb]. { apply list_elem_of_In, elem_of_map_to_list. done. }
        specialize (Hb c). rewrite bool_decide_eq_true in Hb.
        apply Hb. by apply list_elem_of_In.
      * destruct (node_missing w i E) as [_ Hb]. rewrite Hb in Hin.
        by apply elem_of_nil in Hin.
    + intros i c m r Hpc Hr.
      destruct (nodes w !! i) as [n|] eqn:E.
      * rewrite (node_lookup w i n E) in Hpc.
        specialize (Hn (i, n)). rewrite andb_true_iff, !forallb_forall in Hn.
        destruct Hn as [Hrd _]. { apply list_elem_of_In, elem_of_map_to_list. done. }
        specialize (Hrd (c, RSend m)). rewrite andb_true_iff in Hrd.
        destruct Hrd as [_ Hst]. { apply list_elem_of_In, elem_of_map_to_list. done. }
        simpl in Hst. unfold remote_of in Hr.
        destruct (conns w !! c) as [ep|]; [|done].
        simpl in Hr. injection Hr as <-. by apply bool_decide_eq_true in Hst.
      * destruct (node_missing w i E) as [Hrd _]. rewrite Hrd in Hpc. done.
  - intros [Hc Hr Hb Hs]. split.
    + intros [c ep] Hin. apply list_elem_of_In, elem_of_map_to_list in Hin.
      apply bool_decide_eq_true. apply Hc. unfold remote_of. simpl in *. rewrite Hin. by eexists.
    + intros [i n] Hin. apply list_elem_of_In, elem_of_map_to_list in Hin. simpl in *.
      pose proof (node_lookup w i n Hin) as Hnode.
      rewrite andb_true_iff, !forallb_forall. split.
      * intros [c pc] Hin2. apply list_elem_of_In, elem_of_map_to_list in Hin2. simpl in *.
        rewrite <- Hnode in Hin2.
        rewrite andb_true_iff, bool_decide_eq_true. split; [by eapply Hr|].
        destruct pc as [| | m |]; try done.
        destruct (conns w !! c) as [ep|] eqn:E; [|done].
        apply bool_decide_eq_true. eapply Hs; [exact Hin2|]. unfold remote_of. by rewrite E.
      * intros c Hin2. apply bool_decide_eq_true. eapply (Hb i). rewrite Hnode.
        by apply list_elem_of_In.
Qed.

Section Preservation.
Implicit Types (w : World) (self conn c i : nat).

Lemma WF_views w w' :
  next_conn w' = next_conn w ->
  (forall c, remote_of w' c = remote_of w c) ->
  (forall i, n_readers (node i w') = n_readers (node i w)) ->
  (forall i, n_backlog (node i w') = n_backlog (node i w)) ->
  WF w -> WF w'.
Proof.
  intros Hn Hr Hrd Hb [H1 H2 H3 H4]. split.
  - intros c. rewrite Hr, Hn. apply H1.
  - intros i c pc. rewrite Hrd, Hn. apply H2.
  - intros i c. rewrite Hb, Hn. apply H3.
  - intros i c m r. rewrite Hrd, Hr. apply H4.
Qed.

Lemma WF_upd_node self f w :
  WF w ->
  (forall c pc, n_readers (f (node self w)) !! c = Some pc ->
     (c < next_conn w)%nat /\
     forall m r, pc = RSend m -> remote_of w c = Some r -> FromAddr m = r) ->
  (forall c, c ∈ n_backlog (f (node self w)) -> (c < next_conn w)%nat) ->
  WF (upd_node self f w).
Proof.
  intros [H1 H2 H3 H4] Hrd Hb. split.
  - exact H1.
  - intros i c pc. rewrite node_upd_node. destruct (decide (self = i)) as [->|].
    + intros Hpc. by apply Hrd in Hpc as [? _].
    + apply H2.
  - intros i c. rewrite node_upd_node. destruct (decide (self = i)) as [->|].
    + apply Hb.
    + apply H3.
  - intros i c m r. rewrite node_upd_node. destruct (decide (self = i)) as [->|].
    + intros Hpc Hr. apply Hrd in Hpc as [_ Hpc]. by eapply Hpc.
    + apply H4.
Qed.

(** Updates of a process that leave its readers and its backlog alone. *)
Lemma WF_upd_node_frame self f w :
  (forall n, n_readers (f n) = n_readers n) ->
  (forall n, n_backlog (f n) = n_backlog n) ->
  WF w -> WF (upd_node self f w).
Proof.
  intros Hrd Hb Hw. apply WF_upd_node; [done | |].
  - intros c pc. rewrite Hrd. intros Hpc. split; [by eapply wf_readers|].
    intros m r -> Hr. by eapply wf_stamped.
  - intros c. rewrite Hb. by apply wf_backlog.
Qed.

Lemma WF_logf self line w : WF w -> WF (logf self line w).
Proof. by apply WF_upd_node_frame. Qed.

Lemma WF_upd_tcp self f w : WF w -> WF (upd_tcp self f w).
Proof. by apply WF_upd_node_frame. Qed.

Lemma WF_set_pc self conn pc w :
  WF w -> (conn < next_conn w)%nat ->
  (forall m r, pc = RSend m -> remote_of w conn = Some r -> FromAddr m = r) ->
  WF (set_pc self conn pc w).
Proof.
  intros Hw Hlt Hst. apply WF_upd_node; [done | |].
  - intros c pc'. simpl. rewrite lookup_insert.
    destruct (decide (conn = c)) as [->|].
    + intros [= <-]. by split.
    + intros Hpc. split; [by eapply wf_readers|].
      intros m r -> Hr. by eapply wf_stamped.
  - intros c. simpl. by apply wf_backlog.
Qed.

Lemma WF_upd_conn c f w :
  (forall ep, ep_remote (f ep) = ep_remote ep) -> WF w -> WF (upd_conn c f w).
Proof.
  intros Hf. apply WF_views; try done.
  intros c'. unfold remote_of. by apply remote_upd_conn.
Qed.

Lemma WF_conn_Close c w : WF w -> WF (conn_Close c w).
Proof.
  intros Hw. unfold conn_Close. destruct (conns w !! c) as [ep|]; [|done].
  destruct (ep_closed ep); [done|].
  apply WF_upd_conn; [done|]. by apply WF_upd_conn.
Qed.

Lemma WF_conn_Encode c msg w : WF w -> WF (conn_Encode c msg w).2.
Proof.
  intros Hw. unfold conn_Encode. destruct (conns w !! c) as [ep|]; [|done].
  destruct (ep_closed ep); [done|]. by apply WF_upd_conn.
Qed.

Lemma WF_set_clock t w : WF w -> WF (set_clock t w).
Proof. by apply WF_views. Qed.

Lemma WF_return self conn remote w :
  WF w -> (conn < next_conn w)%nat ->
  WF (managePeerConnection_return self conn remote w).
Proof.
  intros Hw Hlt. unfold managePeerConnection_return.
  apply WF_set_pc; [by apply WF_conn_Close, WF_upd_tcp | | done].
  assert (Hn : forall x, next_conn (conn_Close conn x) = next_conn x).
  { intros x. unfold conn_Close. destruct (conns x !! conn) as [ep|]; [|done].
    by destruct (ep_closed ep). }
  by rewrite Hn.
Qed.

Lemma WF_net_Dial self addr w :
  WF w ->
  WF (net_Dial self addr w).2 /\
  forall conn, (net_Dial self addr w).1 = Ok conn ->
    (conn < next_conn (net_Dial self addr w).2)%nat /\
    forall i, n_readers (node i (net_Dial self addr w).2) !! conn = None.
Proof.
  intros Hw. unfold net_Dial.
  destruct (bound w !! resolve w addr) as [srv|]; [|by split]. cbn [fst snd].
  set (c := next_conn w).
  match goal with
  | |- context [upd_node srv ?f ?x] => set (w1 := x); set (f0 := f)
  end.
  assert (Hnode : forall i, node i w1 = node i w) by done.
  assert (Hrem : forall c', remote_of w1 c' =
                            if decide (c' = c) then Some (resolve w addr)
                            else if decide (c' = S c) then Some (ephemeral (next_port w))
                            else remote_of w c').
  { intros c'. unfold remote_of, w1. simpl.
    rewrite lookup_insert. destruct (decide (c = c')) as [<-|].
    - by rewrite decide_True.
    - rewrite decide_False by done. rewrite lookup_insert.
      destruct (decide (S c = c')) as [<-|].
      + by rewrite decide_True.
      + by rewrite decide_False. }
  assert (Hfresh : forall i c' pc, n_readers (node i w) !! c' = Some pc -> (c' < c)%nat).
  { intros i c' pc. apply (wf_readers w Hw). }
  assert (Hw1 : WF w1).
  { split.
    - intros c'. rewrite Hrem. change (next_conn w1) with (S (S c)).
      destruct (decide (c' = c)) as [->|]; [lia|].
      destruct (decide (c' = S c)) as [->|]; [lia|].
      intros Hs. apply (wf_conns w Hw) in Hs. fold c in Hs. lia.
    - intros i c' pc. rewrite Hnode. change (next_conn w1) with (S (S c)).
      intros Hpc. apply Hfresh in Hpc. lia.
    - intros i c'. rewrite Hnode. change (next_conn w1) with (S (S c)).
      intros Hb. apply (wf_backlog w Hw) in Hb. fold c in Hb. lia.
    - intros i c' m r. rewrite Hnode, Hrem. intros Hpc.
      pose proof (Hfresh _ _ _ Hpc) as Hlt.
      rewrite !decide_False by lia. apply (wf_stamped w Hw i c' m r Hpc). }
  split.
  - apply WF_upd_node; [done | |].
    + intros c' pc. unfold f0. simpl. intros Hpc.
      split; [exact (wf_readers w1 Hw1 srv c' pc Hpc)|].
      intros m r -> Hr. exact (wf_stamped w1 Hw1 srv c' m r Hpc Hr).
    + intros c'. unfold f0. simpl. rewrite elem_of_app, list_elem_of_singleton.
      intros [Hb | ->]; [by apply (wf_backlog w1 Hw1 srv)|].
      change (next_conn w1) with (S (S c)). lia.
  - intros conn [= <-]. split.
    + change (next_conn (upd_node srv f0 w1)) with (S (S c)). lia.
    + intros i. rewrite node_upd_node.
      destruct (n_readers (node i w) !! c) as [pc|] eqn:E.
      { apply Hfresh in E. lia. }
      destruct (decide (srv = i)) as [->|]; unfold f0; simpl; by rewrite ?Hnode.
Qed.

Lemma WF_ConnectToPeer self addr w : WF w -> WF (ConnectToPeer self addr w).2.
Proof.
  intros Hw. unfold ConnectToPeer.
  destruct (WF_net_Dial self addr (logf self ("Connecting to peer at " +:+ addr) w))
    as [Hd Hc]; [by apply WF_logf|].
  destruct (net_Dial self addr _) as [[conn | e] w1]; simpl in *; [|done].
  destruct (Hc conn eq_refl) as [Hlt _].
  unfold spawn_reader. fold (set_pc self conn RStart).
  apply WF_set_pc; [by apply WF_logf, WF_upd_tcp | done | done].
Qed.

Section WithYield.
Variable yield : World -> World.
Hypothesis yield_WF : forall w, WF w -> WF (yield w).

Lemma WF_Sleep d w : WF w -> WF (Sleep yield d w).
Proof. intros Hw. unfold Sleep. by apply yield_WF, WF_set_clock. Qed.

Lemma WF_Send self addr msg w : WF w -> WF (Send yield self addr msg w).2.
Proof.
  intros Hw. unfold Send. destruct (peers (tcp self w) !! addr) as [conn|].
  - by apply WF_conn_Encode.
  - pose proof (WF_ConnectToPeer self addr w Hw) as Hc.
    destruct (ConnectToPeer self addr w) as [[err|] w1]; simpl in *; [done|].
    destruct (peers (tcp self (Sleep yield (100 * Millisecond) w1)) !! addr); simpl.
    + by apply WF_conn_Encode, WF_Sleep.
    + by apply WF_Sleep.
Qed.

Lemma WF_perform self X (e : peer.call X) w : WF w -> WF (perform yield self e w).2.
Proof.
  intros Hw. destruct e; simpl; try done.
  - by apply WF_logf.
  - destruct (os.WriteFile _ _ _ _) as [fs err]. simpl. by apply WF_upd_node_frame.
  - by apply WF_Send.
  - by apply WF_Sleep.
Qed.

Lemma WF_run self R (p : Prog peer.call R) : forall w, WF w -> WF (run yield self p w).2.
Proof.
  induction p as [r | v | X e k IH]; intros w Hw; simpl.
  - done.
  - by apply WF_upd_node_frame.
  - pose proof (WF_perform self X e w Hw) as He.
    destruct (perform yield self e w) as [x w1]. by apply IH.
Qed.

Lemma WF_accept self w w' :
  WF w -> handleIncomingConnections_step self w = Some w' -> WF w'.
Proof.
  intros Hw. unfold handleIncomingConnections_step.
  destruct (negb _); [discriminate|].
  destruct (listener _); [discriminate | |].
  - destruct (n_backlog (node self w)) as [|c rest] eqn:Hb; [discriminate|].
    intros [= <-]. unfold spawn_reader. fold (set_pc self c RStart).
    assert (Hlt : (c < next_conn w)%nat).
    { apply (wf_backlog w Hw self). rewrite Hb. apply list_elem_of_here. }
    apply WF_set_pc; [|done|done].
    apply WF_upd_node; [done | |].
    + intros c' pc. simpl. intros Hpc. split; [by eapply wf_readers|].
      intros m r -> Hr. by eapply wf_stamped.
    + intros c'. simpl. intros Hin. apply (wf_backlog w Hw self). rewrite Hb.
      by apply list_elem_of_further.
  - intros [= <-]. by apply WF_logf.
Qed.

Lemma WF_reader self conn w w' :
  WF w -> managePeerConnection_step self conn w = Some w' -> WF w'.
Proof.
  intros Hw. unfold managePeerConnection_step.
  destruct (n_readers (node self w) !! conn) as [pc|] eqn:Hpc; [|discriminate].
  assert (Hlt : (conn < next_conn w)%nat) by (by eapply wf_readers).
  destruct (conns w !! conn) as [ep|] eqn:Hep; [|by destruct pc].
  destruct pc as [| msg | msg |]; try discriminate.
  - intros [= <-]. apply WF_set_pc; [by apply WF_upd_tcp, WF_logf | done | done].
  - destruct (ep_closed ep).
    { intros [= <-]. by apply WF_return; [apply WF_logf|]. }
    destruct (ep_inbox ep) as [|f rest].
    { destruct (ep_eof ep); [|discriminate]. intros [= <-]. by apply WF_return. }
    destruct (Decode f msg) as [m | err].
    + intros [= <-]. apply WF_set_pc; [by apply WF_upd_conn | done |].
      intros m' r [= <-]. simpl. unfold remote_of.
      rewrite remote_upd_conn by done. rewrite Hep. by intros [= <-].
    + intros [= <-]. destruct (is_EOF err); (apply WF_return; [|done]).
      * by apply WF_upd_conn.
      * by apply WF_logf, WF_upd_conn.
  - destruct (ch_closed _).
    { intros [= <-]. apply WF_upd_node_frame; [done..|]. by apply WF_return. }
    destruct (decide _); [|discriminate].
    intros [= <-]. apply WF_set_pc; [by apply WF_upd_tcp | done | done].
Qed.

Lemma WF_dispatch self w w' :
  WF w -> handleMessages_step yield self w = Some w' -> WF w'.
Proof.
  intros Hw. unfold handleMessages_step.
  destruct (n_dispatch _); try discriminate.
  destruct (chan_recv _) as [[[m|] ch]|]; [| |discriminate].
  - intros [= <-]. by apply WF_run, WF_upd_tcp.
  - intros [= <-]. by apply WF_upd_node_frame.
Qed.

Lemma WF_step th w w' : WF w -> step yield th w = Some w' -> WF w'.
Proof.
  intros Hw. unfold step. destruct (n_panic _); [discriminate|].
  destruct th as [n | n conn | n].
  - by apply WF_accept.
  - by apply WF_reader.
  - by apply WF_dispatch.
Qed.
End WithYield.
End Preservation.

Section Queues.
Implicit Types (w : World) (self conn c i : nat).

(** A reader changes no channel but the one of its own process. *)
Lemma messageCh_reader_other self conn w w' i :
  managePeerConnection_step self conn w = Some w' -> i <> self ->
  messageCh (tcp i w') = messageCh (tcp i w).
Proof.
  intros Hstep Hi. revert Hstep. unfold managePeerConnection_step.
  assert (Hret : forall x remote,
            tcp i (managePeerConnection_return self conn remote x) = tcp i x).
  { intros x remote. unfold managePeerConnection_return.
    rewrite tcp_set_pc, tcp_conn_Close. by apply tcp_upd_tcp_ne. }
  destruct (n_readers (node self w) !! conn) as [[| msg | msg |]|];
    destruct (conns w !! conn) as [ep|]; try discriminate.
  - intros [= <-]. rewrite tcp_set_pc, tcp_upd_tcp_ne by done. by rewrite tcp_logf.
  - destruct (ep_closed ep).
    { intros [= <-]. by rewrite Hret, tcp_logf. }
    destruct (ep_inbox ep) as [|f rest].
    { destruct (ep_eof ep); [|discriminate]. intros [= <-]. by rewrite Hret. }
    destruct (Decode f msg) as [m | err].
    + intros [= <-]. by rewrite tcp_set_pc.
    + intros [= <-]. rewrite Hret. destruct (is_EOF err); [done|]. by rewrite tcp_logf.
  - destruct (ch_closed _).
    { intros [= <-]. rewrite tcp_upd_node_same by done. by rewrite Hret. }
    destruct (decide _); [|discriminate].
    intros [= <-]. rewrite tcp_set_pc. by rewrite tcp_upd_tcp_ne.
Qed.
End Queues.
End WellFormed.

(** C6: in a well-formed world, a step of any goroutine leaves the world
    well-formed, and the only way a message gets onto the queue of a
    process is the send of one of its connection readers: the message then
    carries, as [FromAddr], the remote address of that reader's connection.
    Any other change of a queue is the dispatch loop taking the head of its
    own. The reader writes the address over what it decoded, whatever
    [FromAddr] the sender encoded and whatever the reused message struct
    held. So every message the dispatch loop receives carries the remote
    address of the connection it arrived on. *)
Theorem C6_reader_stamps_remote_address (yield : World -> World) (th : Thread)
    (w w' : World) :
  (forall w0, well_formed w0 = true -> well_formed (yield w0) = true) ->
  (forall w0 i, messageCh (tcp i (yield w0)) = messageCh (tcp i w0)) ->
  well_formed w = true ->
  step yield th w = Some w' ->
  well_formed w' = true /\
  (forall i,
     let q := ch_buf (messageCh (tcp i w)) in
     let q' := ch_buf (messageCh (tcp i w')) in
     q' = q \/
     (exists m, th = TDispatch i /\ q = m :: q') \/
     (exists conn ep new,
        th = TReader i conn /\ conns w !! conn = Some ep /\
        q' = q ++ new /\ Forall (fun m => FromAddr m = ep_remote ep) new)) /\
  (forall self conn ep msg0 m rest,
     conns w !! conn = Some ep ->
     n_readers (node self w) !! conn = Some (RDecode msg0) ->
     ep_closed ep = false ->
     ep_inbox ep = FGob m :: rest ->
     exists w1 d,
       Decode (FGob m) msg0 = Ok d /\
       managePeerConnection_step self conn w = Some w1 /\
       n_readers (node self w1) !! conn =
         Some (RSend {| Type_ := Type_ d; From := From d;
                        FromAddr := ep_remote ep; Payload_ := Payload_ d |})).
Proof.
  intros Hywf Hych Hwf Hstep.
  assert (Hy : forall w0, WF w0 -> WF (yield w0)).
  { intros w0 H0. apply well_formed_WF, Hywf, well_formed_WF, H0. }
  apply well_formed_WF in Hwf.
  split; [|split].
  - apply well_formed_WF. by eapply WF_step.
  - intros i q q'. subst q q'. revert Hstep. unfold step.
    destruct (n_panic _); [discriminate|].
    destruct th as [n | n conn | n].
    + intros Hs. left. by rewrite (messageCh_accept n w w' i Hs).
    + intros Hs. destruct (decide (i = n)) as [->|Hne].
      * destruct (conns w !! conn) as [ep|] eqn:Hep.
        -- right; right. exists conn, ep.
           destruct (managePeerConnection_step_stamps n conn w w' ep Hep) as (_ & _ & new & Hq & Hall);
             [| exact Hs | by exists new].
           intros m ep' Hpc Hep'. rewrite Hep in Hep'. injection Hep' as <-.
           apply (wf_stamped w Hwf n conn m (ep_remote ep) Hpc).
           unfold remote_of. by rewrite Hep.
        -- exfalso. revert Hs. unfold managePeerConnection_step. rewrite Hep.
           by destruct (n_readers (node n w) !! conn) as [[]|].
      * left. by rewrite (messageCh_reader_other n conn w w' i Hs Hne).
    + intros Hs. destruct (messageCh_dispatch yield Hych n w w' i Hs) as [Hother Hown].
      destruct (decide (i = n)) as [->|Hne].
      * destruct Hown as [Heq | [m Hm]]; [by left|]. right; left. by exists m.
      * left. by rewrite Hother.
  - intros self conn ep msg0 m rest. by apply managePeerConnection_step_decode.
Qed.

(* ===================================================================== *)
(** ** Reading the requested file *)
(* ===================================================================== *)

Section ReadFacts.
Implicit Types (d : list byte) (limit : Z).

Lemma maxRW_pos : (0 < os.maxRW)%Z.
Proof. reflexivity. Qed.

Lemma read_upto_length limit d : length (os.read_upto limit d) = length d.
Proof.
  unfold os.read_upto. rewrite length_app, length_take, length_replicate. lia.
Qed.

(** Within the limit the buffer holds the whole file. *)
Lemma read_upto_small limit d :
  (Z.of_nat (length d) <= limit)%Z -> os.read_upto limit d = d.
Proof.
  intros Hle. unfold os.read_upto.
  replace (Z.to_nat (Z.min (Z.of_nat (length d)) limit)) with (length d) by lia.
  rewrite firstn_all, Nat.sub_diag. apply app_nil_r.
Qed.

(** Beyond the limit the buffer stays zero. *)
Lemma read_upto_big limit d i :
  (0 <= limit <= Z.of_nat i)%Z -> (i < length d)%nat ->
  os.read_upto limit d !! i = Some x00.
Proof.
  intros Hi Hlt. unfold os.read_upto.
  replace (Z.to_nat (Z.min (Z.of_nat (length d)) limit))
    with (Z.to_nat limit) by lia.
  rewrite lookup_app_r; rewrite length_take; [|lia].
  apply lookup_replicate_2. lia.
Qed.

(** A file of more than [limit] bytes, none of them zero, does not
    survive the read. *)
Lemma read_upto_differs limit n :
  (0 <= limit < n)%Z ->
  os.read_upto limit (replicate (Z.to_nat n) x01) <> replicate (Z.to_nat n) x01.
Proof.
  intros Hn Heq.
  assert (H1 : os.read_upto limit (replicate (Z.to_nat n) x01)
                 !! Z.to_nat limit = Some x00).
  { apply read_upto_big; [lia|]. rewrite length_replicate. lia. }
  rewrite Heq in H1.
  apply lookup_replicate_1 in H1 as [H1 _]. discriminate.
Qed.

(** The handler's single [Read] into a buffer of the file's size. *)
Lemma File_Read_whole name d :
  os.File_Read (os.mkFile name (os.NFile d)) (os.make_bytes (Z.of_nat (length d))) =
    (os.read_once d, Z.min (Z.of_nat (length d)) os.maxRW, None).
Proof.
  unfold os.File_Read, os.make_bytes, os.read_once, os.read_upto.
  rewrite Nat2Z.id, length_replicate.
  destruct (decide (length d = 0%nat)) as [H0 | Hpos].
  - apply length_zero_iff_nil in H0. subst d. reflexivity.
  - cbn [os.f_node].
    replace (Z.min (Z.min (Z.of_nat (length d)) os.maxRW) (Z.of_nat (length d)))
      with (Z.min (Z.of_nat (length d)) os.maxRW) by lia.
    destruct (decide _) as [Hn | _].
    + exfalso. pose proof maxRW_pos. lia.
    + by rewrite drop_replicate.
Qed.

Lemma read_once_small d :
  (Z.of_nat (length d) <= os.maxRW)%Z -> os.read_once d = d.
Proof. apply read_upto_small. Qed.

(** [make] within the limit of the allocator, and beyond it. *)
Lemma make_in_range n :
  (0 <= n <= os.maxAlloc)%Z -> peer.make n = Ret (os.make_bytes n).
Proof.
  intros [H0 H1]. unfold peer.make.
  apply Z.leb_le in H0, H1. by rewrite H0, H1.
Qed.

Lemma make_out_of_range n :
  (n < 0 \/ os.maxAlloc < n)%Z ->
  peer.make n = Panic "runtime error: makeslice: len out of range".
Proof.
  intros Hn. unfold peer.make.
  destruct (0 <=? n)%Z eqn:E0; [|reflexivity].
  destruct (n <=? os.maxAlloc)%Z eqn:E1; [|reflexivity].
  apply Z.leb_le in E0, E1. lia.
Qed.

Lemma maxRW_maxAlloc : (2 * os.maxRW <= os.maxAlloc)%Z.
Proof. apply Z.leb_le. vm_compute. reflexivity. Qed.

Lemma read_once_big_differs : os.read_once scenario.big <> scenario.big.
Proof.
  unfold os.read_once, scenario.big. apply read_upto_differs.
  pose proof maxRW_pos. lia.
Qed.
End ReadFacts.

Section FileRequestServed.
Variable yield : World -> World.

(** [handleFileRequest] for a regular file: the response carries what the
    single [Read] left in the buffer and goes to the address the request
    was stamped with. *)
Lemma run_handleFileRequest_regular self w p msg req d :
  Payload_ msg = PFileRequest req ->
  n_fs (node self w) !! filepath.Join [peer.sharedDir p; FileName req] = Some (os.NFile d) ->
  (Z.of_nat (length d) <= os.maxAlloc)%Z ->
  run yield self (peer.handleFileRequest p msg) w =
    (let size := Z.of_nat (length d) in
     let resp := {| Name := FileName req; Size := size; Data := os.read_once d;
                    Checksum := EmptyString; NumChunks := 0 |} in
     let responseMsg := {| Type_ := MessageTypeFileResponse; From := peer.id p;
                           FromAddr := peer.listenAddr p;
                           Payload_ := PFileResponse resp |} in
     let w1 := logf self ("Sending file " +:+ FileName req +:+ " to peer " +:+ From msg)
                 (logf self ("Reading file: " +:+ FileName req +:+ " (size: " +:+
                             itoa size +:+ " bytes)")
                    (logf self ("Received file request from " +:+ From msg +:+
                                " for file: " +:+ FileName req) w)) in
     let sent := Send yield self (FromAddr msg) responseMsg w1 in
     (Returned tt,
      logf self (match sent.1 with
                 | Some err => "Error sending file response: " +:+ Error err
                 | None => "Successfully sent file " +:+ FileName req +:+
                           " to peer " +:+ From msg
                 end) sent.2)).
Proof.
  intros Hpay Hfile Hsize. unfold peer.handleFileRequest. rewrite Hpay. simpl.
  rewrite n_fs_logf. unfold os.Open. rewrite Hfile. simpl.
  unfold os.File_Stat. cbn [os.f_node]. simpl.
  rewrite make_in_range by lia. simpl.
  rewrite File_Read_whole. simpl.
  destruct (Send yield self _ _ _) as [[err|] w2]; reflexivity.
Qed.
End FileRequestServed.

(* ===================================================================== *)
(** ** A whole transfer between two peers *)
(* ===================================================================== *)

Section Transfer.
Import scenario.

Lemma run_schedule_app yield s1 s2 w :
  run_schedule yield (s1 ++ s2) w = run_schedule yield s2 (run_schedule yield s1 w).
Proof. revert w. induction s1 as [|th s1 IH]; intros w; simpl; [done | apply IH]. Qed.

(** B's [RequestFile] succeeds at the first attempt whatever A shares. *)
Lemma requested_ok fsA name : (requested fsA dirsB name).1 = Returned None.
Proof. vm_compute. reflexivity. Qed.

(** A shares [name] with content [d]; B requests it; every goroutine
    runs. B's received directory then holds, under the same name, what
    A's single [Read] left in its buffer. *)
Lemma transferred_content (d : list byte) :
  (Z.of_nat (length d) <= os.maxAlloc)%Z ->
  n_fs (node B (transferred (sharing "data.bin" d) dirsB "data.bin"))
    !! "received2/data.bin" = Some (os.NFile (os.read_once d)).
Proof.
  intros Hsize.
  unfold transferred, exchange. rewrite !run_schedule_app.
  fold (delivered (sharing "data.bin" d) dirsB "data.bin").
  remember (delivered (sharing "data.bin" d) dirsB "data.bin") as W1 eqn:HW1.
  assert (Hp : n_panic (node A W1) = None) by (rewrite HW1; vm_compute; reflexivity).
  assert (Hd : n_dispatch (node A W1) = DRunning) by (rewrite HW1; vm_compute; reflexivity).
  assert (Hch : messageCh (n_transport (node A W1)) =
                {| ch_buf := [request "data.bin"]; ch_closed := false |})
    by (rewrite HW1; vm_compute; reflexivity).
  assert (Hpeer : n_peer (node A W1) = peerA) by (rewrite HW1; vm_compute; reflexivity).
  unfold serve. cbn [run_schedule]. unfold step. cbn [owner].
  rewrite Hp. unfold handleMessages_step. rewrite Hd, Hch, Hpeer.
  cbn [chan_recv ch_buf ch_closed].
  change (peer.dispatch peerA (request "data.bin"))
    with (peer.handleFileRequest peerA (request "data.bin")).
  erewrite (run_handleFileRequest_regular idle A _ peerA (request "data.bin") _ d);
    [ | reflexivity | rewrite HW1; vm_compute; reflexivity | exact Hsize ].
  cbv zeta. cbn [snd]. clear Hsize.
  generalize (os.read_once d). generalize (Z.of_nat (length d)).
  intros size content. rewrite HW1. vm_compute. reflexivity.
Qed.
End Transfer.

Section TransferExamples.
Import scenario.

(** A file within the read limit arrives unchanged. *)
Lemma transferred_small (d : list byte) :
  (Z.of_nat (length d) <= os.maxRW)%Z ->
  n_fs (node B (transferred (sharing "data.bin" d) dirsB "data.bin"))
    !! "received2/data.bin" = Some (os.NFile d).
Proof.
  intros Hle. rewrite transferred_content, read_once_small; [done..|].
  pose proof maxRW_maxAlloc. pose proof maxRW_pos. lia.
Qed.

(** The scenario of the specification: [greet.txt] holding [hello]. *)
Example greet_transferred :
  let w := transferred (sharing "greet.txt" (bytes "hello")) dirsB "greet.txt" in
  n_fs (node B w) !! "received2/greet.txt" = Some (os.NFile (bytes "hello")) /\
  quiescent w = true.
Proof. split; vm_compute; reflexivity. Qed.

(** A file in a subdirectory of the shared directory is read and sent,
    and B's [WriteFile] fails: the directory is missing on B's side. *)
Example subdirectory_not_received :
  let fsA := <["shared1/docs" := os.NDir 4096]> (sharing "docs/a.txt" (bytes "hello")) in
  let w := transferred fsA dirsB "docs/a.txt" in
  n_fs (node A w) !! "shared1/docs/a.txt" = Some (os.NFile (bytes "hello")) /\
  n_fs (node B w) = dirsB /\
  last (n_log (node B w)) =
    Some "Error saving file: open received2/docs/a.txt: no such file or directory".
Proof. repeat (split; [vm_compute; reflexivity|]). vm_compute; reflexivity. Qed.

(** A file A does not have: nothing arrives at B, and A keeps serving. *)
Example missing_file_not_received :
  let w := transferred dirsA dirsB "missing.txt" in
  n_fs (node B w) = dirsB /\
  ch_buf (messageCh (tcp B w)) = [] /\
  n_panic (node A w) = None /\
  n_dispatch (node A w) = DRunning /\
  last (n_log (node A w)) = Some "File not found: missing.txt".
Proof. repeat (split; [vm_compute; reflexivity|]). vm_compute; reflexivity. Qed.

(** A file of the same name already in the received directory is
    replaced. *)
Example received_file_overwritten :
  let fsB := <["received2/greet.txt" := os.NFile (bytes "an older version")]> dirsB in
  let w := transferred (sharing "greet.txt" (bytes "hello")) fsB "greet.txt" in
  n_fs (node B w) !! "received2/greet.txt" = Some (os.NFile (bytes "hello")).
Proof. vm_compute. reflexivity. Qed.

(** Nothing listens at A's address: B's [RequestFile] dials five times,
    sleeps two seconds after each refusal and returns the terminal error
    ten seconds after it started. *)
Example request_nobody_listening :
  let w := (Start B (initial dirsA dirsB)).2 in
  let r := run idle B (peer.RequestFile peerB "localhost:3000" "greet.txt") w in
  r.1 = Returned (Some terminal_error) /\
  clock r.2 = (clock w + 10 * Second)%Z /\
  length (filter (fun line => line = "Connecting to peer at localhost:3000")
            (n_log (node B r.2))) = 5%nat /\
  peers (tcp B r.2) = ∅.
Proof. repeat (split; [vm_compute; reflexivity|]). vm_compute; reflexivity. Qed.

(** The worlds of the scenario are well-formed. *)
Example scenario_well_formed :
  well_formed (started dirsA dirsB) = true /\
  well_formed (transferred (sharing "greet.txt" (bytes "hello")) dirsB "greet.txt") = true /\
  well_formed hung_up = true.
Proof. repeat split; vm_compute; reflexivity. Qed.
End TransferExamples.

(** C1, at the failing input: A shares a file of 2^31 bytes, none of them
    zero, and B requests it. [RequestFile] succeeds and every goroutine
    runs; B's received directory then holds a file of the right length
    whose content is not the content of A's file. The handler calls [Read]
    once on a buffer of the file's size and drops the count; one [Read]
    moves at most 2^30 bytes (and the read system call under it less than
    2^31), the rest of the buffer stays zero, and the response carries the
    buffer as it is. *)
Theorem C1_large_file_arrives_changed :
  let fsA := scenario.sharing "data.bin" scenario.big in
  let w := scenario.transferred fsA scenario.dirsB "data.bin" in
  n_fs (node scenario.A (scenario.started fsA scenario.dirsB)) !! "shared1/data.bin"
    = Some (os.NFile scenario.big) /\
  (scenario.requested fsA scenario.dirsB "data.bin").1 = Returned None /\
  exists got,
    n_fs (node scenario.B w) !! "received2/data.bin" = Some (os.NFile got) /\
    length got = length scenario.big /\
    got <> scenario.big.
Proof.
  cbv zeta. split.
  { generalize scenario.big. intros d. vm_compute. reflexivity. }
  split; [apply requested_ok|].
  exists (os.read_once scenario.big).
  split.
  { apply transferred_content. unfold scenario.big.
    rewrite length_replicate, Z2Nat.id; [apply maxRW_maxAlloc|].
    pose proof maxRW_pos. lia. }
  split; [apply read_upto_length | apply read_once_big_differs].
Qed.

(* ===================================================================== *)
(** ** The registry entry of a dialled connection *)
(* ===================================================================== *)

Section RegistryFacts.
(** The return of a reader deletes the key of the remote address and no
    other. *)
Lemma managePeerConnection_return_other_keys self conn remote w addr :
  addr <> remote ->
  peers (tcp self (managePeerConnection_return self conn remote w)) !! addr =
  peers (tcp self w) !! addr.
Proof. intros Hne. rewrite tcp_return. simpl. by rewrite lookup_delete_ne. Qed.

Lemma managePeerConnection_return_own_key self conn remote w :
  peers (tcp self (managePeerConnection_return self conn remote w)) !! remote = None.
Proof. rewrite tcp_return. simpl. apply lookup_delete_eq. Qed.
End RegistryFacts.

(** C4, at the failing input: B calls [ConnectToPeer("localhost:3000")];
    the name resolves to 127.0.0.1:3000. The connection is registered
    under both strings. When A shuts down, B's reader reads the end of the
    stream and returns: it deletes the entry under 127.0.0.1:3000 and
    closes the connection. The entry under localhost:3000 stays, pointing
    at the closed connection whose reader has returned, and [Send] to that
    address now fails on it without dialling again. On A's side, where the
    connection was accepted, the single entry is removed when A's reader
    returns. *)
Theorem C4_dialled_entry_outlives_reader :
  let w0 := scenario.dialled in
  let w := scenario.hung_up in
  peers (tcp scenario.B w0) !! "localhost:3000" = Some 0%nat /\
  peers (tcp scenario.B w0) !! "127.0.0.1:3000" = Some 0%nat /\
  n_readers (node scenario.B w) !! 0%nat = Some RDone /\
  ep_closed <$> conns w !! 0%nat = Some true /\
  peers (tcp scenario.B w) !! "127.0.0.1:3000" = None /\
  peers (tcp scenario.B w) !! "localhost:3000" = Some 0%nat /\
  (Send scenario.idle scenario.B "localhost:3000" (scenario.request "greet.txt") w).1
    = Some closed_conn_error /\
  peers (tcp scenario.A w0) = {["127.0.0.1:49152" := 1%nat]} /\
  peers (tcp scenario.A (run_schedule scenario.idle [TReader scenario.A 1] w)) = ∅.
Proof. cbv zeta. repeat (split; [vm_compute; reflexivity|]). vm_compute; reflexivity. Qed.

(* ===================================================================== *)
(** ** The properties at concrete inputs *)
(* ===================================================================== *)

(** B asks A for [missing.txt], which A does not have; A's dispatch loop
    takes the request from its queue. *)
Lemma C3_absent_file_dropped_witness :
  let w := scenario.delivered scenario.dirsA scenario.dirsB "missing.txt" in
  exists w',
    step scenario.idle (TDispatch scenario.A) w = Some w' /\
    conns w' = conns w /\
    n_fs (node scenario.B w') = n_fs (node scenario.B w) /\
    n_dispatch (node scenario.A w') = DRunning.
Proof.
  cbv zeta.
  destruct (C3_absent_file_dropped scenario.idle scenario.A
              (scenario.delivered scenario.dirsA scenario.dirsB "missing.txt")
              (scenario.request "missing.txt") {| FileName := "missing.txt" |} []
              (os.ENOENT "open" "shared1/missing.txt"))
    as [(w' & Hstep & Hconns & Hfs & _ & _ & _ & Hrun & _) _].
  - reflexivity.
  - reflexivity.
  - vm_compute. reflexivity.
  - vm_compute. reflexivity.
  - vm_compute. reflexivity.
  - vm_compute. reflexivity.
  - exists w'. split; [exact Hstep|]. split; [exact Hconns|].
    split; [apply Hfs | exact Hrun].
Defined.


(** A response named [..]: the path is B's working directory, the write
    fails and B's files stay as they were. *)
Example response_named_dotdot :
  let msg := {| Type_ := MessageTypeFileResponse; From := "peer1";
                FromAddr := "127.0.0.1:3000";
                Payload_ := PFileResponse
                              {| Name := ".."; Size := 5;
                                 Data := scenario.bytes "hello";
                                 Checksum := EmptyString; NumChunks := 0 |} |} in
  let w := scenario.started scenario.dirsA scenario.dirsB in
  let out := run scenario.idle scenario.B (peer.handleFileResponse scenario.peerB msg) w in
  out.1 = Returned tt /\
  n_fs (node scenario.B out.2) = scenario.dirsB /\
  last (n_log (node scenario.B out.2)) =
    Some "Error saving file: open .: is a directory".
Proof. repeat split; vm_compute; reflexivity. Qed.

(** A request named [..]: A opens its working directory, the read fails
    and nothing is sent. *)
Example request_named_dotdot :
  let w := scenario.started scenario.dirsA scenario.dirsB in
  let out := run scenario.idle scenario.A
               (peer.handleFileRequest scenario.peerA (scenario.request "..")) w in
  out.1 = Returned tt /\
  conns out.2 = conns w /\
  last (n_log (node scenario.A out.2)) = Some "Error reading file: read .: is a directory".
Proof. repeat split; vm_compute; reflexivity. Qed.

(** A's reader has decoded [scenario.forged] and is about to put it on
    A's queue. *)
Lemma C6_reader_stamps_remote_address_witness :
  let w := run_schedule scenario.idle [TReader scenario.A 1; TReader scenario.A 1]
             scenario.forged_sent in
  let w' := run_schedule scenario.idle [TReader scenario.A 1] w in
  well_formed w' = true /\
  (ch_buf (messageCh (tcp scenario.A w')) = ch_buf (messageCh (tcp scenario.A w)) \/
   (exists m, TReader scenario.A 1 = TDispatch scenario.A /\
              ch_buf (messageCh (tcp scenario.A w)) =
                m :: ch_buf (messageCh (tcp scenario.A w'))) \/
   (exists conn ep new,
       TReader scenario.A 1 = TReader scenario.A conn /\ conns w !! conn = Some ep /\
       ch_buf (messageCh (tcp scenario.A w')) =
         ch_buf (messageCh (tcp scenario.A w)) ++ new /\
       Forall (fun m => FromAddr m = ep_remote ep) new)).
Proof.
  cbv zeta.
  destruct (C6_reader_stamps_remote_address scenario.idle (TReader scenario.A 1)
              (run_schedule scenario.idle [TReader scenario.A 1; TReader scenario.A 1]
                 scenario.forged_sent)
              (run_schedule scenario.idle [TReader scenario.A 1]
                 (run_schedule scenario.idle [TReader scenario.A 1; TReader scenario.A 1]
                    scenario.forged_sent)))
    as (Hwf & Hq & _).
  - intros w0 H0. exact H0.
  - reflexivity.
  - vm_compute. reflexivity.
  - vm_compute. reflexivity.
  - split; [exact Hwf | exact (Hq scenario.A)].
Defined.

(** What A's reader puts on A's queue for [scenario.forged]: the message
    with A's view of the sender's address. *)
Example forged_address_overwritten :
  ch_buf (messageCh (tcp scenario.A
                       (managePeerConnection_run 3 scenario.A 1 scenario.forged_sent))) =
    [{| Type_ := MessageTypeFileRequest; From := "mallory";
        FromAddr := "127.0.0.1:49152";
        Payload_ := PFileRequest {| FileName := "greet.txt" |} |}].
Proof. vm_compute. reflexivity. Qed.

(** C8 as stated fails at this input: A shuts down while B's request is
    still in its queue. [Shutdown] returns nil, and the first receive from
    the queue after that yields the request, not the closed state. *)
Lemma C8_buffered_message_read_after_shutdown :
  let w := scenario.delivered (scenario.sharing "greet.txt" (scenario.bytes "hello"))
             scenario.dirsB "greet.txt" in
  (Shutdown scenario.A w).1 = Returned None /\
  recv_nth 0 (messageCh (tcp scenario.A (Shutdown scenario.A w).2)) =
    Some (Some (scenario.request "greet.txt")) /\
  recv_nth 0 (messageCh (tcp scenario.A (Shutdown scenario.A w).2)) <> Some None.
Proof.
  cbv zeta. split; [vm_compute; reflexivity|].
  split; [vm_compute; reflexivity|].
  vm_compute. discriminate.
Qed.

(** The same shutdown, by the amended statement. *)
Lemma C8_shutdown_closes_everything_witness :
  let w := scenario.delivered (scenario.sharing "greet.txt" (scenario.bytes "hello"))
             scenario.dirsB "greet.txt" in
  (Shutdown scenario.A w).1 = Returned None /\
  (forall msg, (conn_Encode 1 msg (Shutdown scenario.A w).2).1 <> None) /\
  forall i, recv_nth i (messageCh (tcp scenario.A (Shutdown scenario.A w).2)) =
            Some (ch_buf (messageCh (tcp scenario.A w)) !! i).
Proof.
  cbv zeta.
  destruct (C8_shutdown_closes_everything scenario.A
              (scenario.delivered (scenario.sharing "greet.txt" (scenario.bytes "hello"))
                 scenario.dirsB "greet.txt"))
    as (Hout & _ & _ & Hconn & _ & _ & Hrecv).
  - vm_compute. reflexivity.
  - split; [exact Hout|]. split; [|exact Hrecv].
    apply (Hconn "127.0.0.1:49152" 1%nat). vm_compute. reflexivity.
Defined.

(* ===================================================================== *)
(** * Further properties *)
(* ===================================================================== *)

(* ===================================================================== *)
(** ** The directories of a new peer *)
(* ===================================================================== *)

Section Directories.
Implicit Types (fs : os.FS) (cs : list string) (n : os.FNode).

Lemma grows_refl fs : grows fs fs.
Proof. split; [done|]. intros path n H1 H2. congruence. Qed.

Lemma grows_trans fs1 fs2 fs3 : grows fs1 fs2 -> grows fs2 fs3 -> grows fs1 fs3.
Proof.
  intros [S12 D12] [S23 D23]. split; [by etrans|].
  intros path n H3 H1. destruct (fs2 !! path) as [n2|] eqn:H2.
  - pose proof (lookup_weaken _ _ _ _ H2 S23) as H. rewrite H3 in H. injection H as ->.
    by apply (D12 path).
  - by apply (D23 path).
Qed.

Lemma grows_insert fs path size :
  fs !! path = None -> grows fs (<[path := os.NDir size]> fs).
Proof.
  intros Hnone. split; [by apply insert_subseteq|].
  intros p n Hp Hfs. destruct (decide (path = p)) as [->|Hne].
  - rewrite lookup_insert_eq in Hp. by injection Hp as <-.
  - rewrite lookup_insert_ne in Hp by done. congruence.
Qed.

Lemma dir_exists_mono fs fs' d :
  fs ⊆ fs' -> os.dir_exists fs d = true -> os.dir_exists fs' d = true.
Proof.
  intros Hsub. unfold os.dir_exists. rewrite !orb_true_iff.
  intros [[[H|H]|H]|H]; auto.
  right. destruct (fs !! d) as [[data|size]|] eqn:E; try discriminate.
  by rewrite (lookup_weaken _ _ _ _ E Hsub).
Qed.

Lemma walk_mono fs fs' cs : forall cur p,
  fs ⊆ fs' -> os.walk fs cur cs = os.Found p -> os.walk fs' cur cs = os.Found p.
Proof.
  induction cs as [|c cs IH]; intros cur p Hsub; simpl; [done|].
  destruct (os.dir_exists fs cur) eqn:Hd.
  - rewrite (dir_exists_mono fs fs' cur Hsub Hd). by apply IH.
  - by destruct (fs !! cur) as [[|]|].
Qed.

Lemma walk_app fs cs c : forall cur,
  os.walk fs cur (cs ++ [c]) =
    match os.walk fs cur cs with
    | os.Found parent =>
        if os.dir_exists fs parent then os.Found (filepath.Join [parent; c])
        else match fs !! parent with
             | Some (os.NFile _) => os.NotDir
             | _ => os.NoEnt
             end
    | other => other
    end.
Proof.
  induction cs as [|c0 cs IH]; intros cur; simpl; [done|].
  destruct (os.dir_exists fs cur); [apply IH|].
  by destruct (fs !! cur) as [[|]|].
Qed.

Lemma is_directory_walk fs name :
  is_directory fs name <->
  name <> EmptyString /\
  exists p, os.walk fs (os.start_dir name) (os.components name) = os.Found p /\
            os.dir_exists fs p = true.
Proof.
  unfold is_directory, os.Stat. split.
  - intros (n & Hst & Hdir). destruct (decide (name = EmptyString)); [discriminate|].
    split; [done|].
    destruct (os.walk _ _ _) as [p| |]; try discriminate.
    exists p. split; [done|].
    destruct (os.dir_exists fs p); [done|].
    destruct (fs !! p) as [[data|size]|]; try discriminate.
    destruct (os.trailing_slash name); [discriminate|].
    injection Hst as <-. discriminate.
  - intros (Hne & p & Hw & Hd). rewrite decide_False by done. rewrite Hw, Hd.
    eexists. split; [reflexivity|]. by destruct (fs !! p) as [[|]|].
Qed.

Lemma is_directory_mono fs fs' name :
  fs ⊆ fs' -> is_directory fs name -> is_directory fs' name.
Proof.
  intros Hsub. rewrite !is_directory_walk. intros (Hne & p & Hw & Hd).
  split; [done|]. exists p. split; [by eapply walk_mono | by eapply dir_exists_mono].
Qed.

Lemma Mkdir_grows fs name perm : grows fs (os.Mkdir fs name perm).1.
Proof.
  unfold os.Mkdir.
  destruct (reverse (os.components name)) as [|c init_rev]; [apply grows_refl|].
  destruct (os.walk _ _ _) as [parent| |]; try apply grows_refl.
  destruct (os.dir_exists fs parent); [|apply grows_refl].
  destruct (_ || _); [apply grows_refl|].
  destruct (fs !! filepath.Join [parent; c]) eqn:E; [apply grows_refl|].
  simpl. by apply grows_insert.
Qed.

Lemma Mkdir_ok fs name perm :
  (os.Mkdir fs name perm).2 = None -> is_directory (os.Mkdir fs name perm).1 name.
Proof.
  unfold os.Mkdir.
  destruct (reverse (os.components name)) as [|c init_rev] eqn:Hrev; [discriminate|].
  destruct (os.walk _ _ _) as [parent| |] eqn:Hw; try discriminate.
  destruct (os.dir_exists fs parent) eqn:Hd; [|discriminate].
  destruct (_ || _); [discriminate|].
  destruct (fs !! filepath.Join [parent; c]) eqn:E; [discriminate|].
  simpl. intros _. apply is_directory_walk.
  assert (Hcs : os.components name = reverse init_rev ++ [c]).
  { rewrite <- (reverse_involutive (os.components name)), Hrev.
    by rewrite reverse_cons. }
  split.
  { intros ->. by vm_compute in Hcs; destruct (reverse init_rev). }
  exists (filepath.Join [parent; c]).
  assert (Hsub : fs ⊆ <[filepath.Join [parent; c] := os.NDir os.dir_size]> fs)
    by (by apply insert_subseteq).
  split.
  - rewrite Hcs, walk_app. rewrite (walk_mono fs _ _ _ _ Hsub Hw).
    by rewrite (dir_exists_mono fs _ parent Hsub Hd).
  - unfold os.dir_exists. rewrite lookup_insert_eq. by rewrite !orb_true_r.
Qed.

Lemma MkdirAll_upto_grows fuel : forall fs path perm,
  grows fs (os.MkdirAll_upto fuel fs path perm).1.
Proof.
  assert (Hlast : forall fs fs1 path perm,
            grows fs fs1 ->
            grows fs (match os.Mkdir fs1 path perm with
                      | (fs2, None) => (fs2, None)
                      | (fs2, Some err) =>
                          match os.Stat fs2 path with
                          | Ok n => if os.IsDir n then (fs2, None) else (fs2, Some err)
                          | Err _ => (fs2, Some err)
                          end
                      end).1).
  { intros fs fs1 path perm H1. pose proof (Mkdir_grows fs1 path perm) as Hg.
    destruct (os.Mkdir fs1 path perm) as [fs2 [err|]]; simpl in *.
    - destruct (os.Stat fs2 path) as [nd|e']; [destruct (os.IsDir nd)|];
        simpl; by eapply grows_trans.
    - by eapply grows_trans. }
  induction fuel as [|fuel IH]; intros fs path perm; simpl.
  - destruct (os.Stat fs path) as [nd|e]; [destruct (os.IsDir nd); apply grows_refl|].
    destruct (decide (os.parent_of path = EmptyString)); apply Hlast, grows_refl.
  - destruct (os.Stat fs path) as [nd|e]; [destruct (os.IsDir nd); apply grows_refl|].
    assert (Hpar : grows fs (if decide (os.parent_of path = EmptyString) then (fs, None)
                             else os.MkdirAll_upto fuel fs (os.parent_of path) perm).1).
    { destruct (decide _); [apply grows_refl | apply IH]. }
    destruct (if decide (os.parent_of path = EmptyString) then (fs, None)
              else os.MkdirAll_upto fuel fs (os.parent_of path) perm)
      as [fs1 [perr|]]; simpl in *; [done|].
    by apply Hlast.
Qed.

Lemma MkdirAll_upto_ok fuel : forall fs path perm,
  (os.MkdirAll_upto fuel fs path perm).2 = None ->
  is_directory (os.MkdirAll_upto fuel fs path perm).1 path.
Proof.
  assert (Hlast : forall fs1 path perm,
            (match os.Mkdir fs1 path perm with
             | (fs2, None) => (fs2, None)
             | (fs2, Some err) =>
                 match os.Stat fs2 path with
                 | Ok n => if os.IsDir n then (fs2, None) else (fs2, Some err)
                 | Err _ => (fs2, Some err)
                 end
             end).2 = None ->
            is_directory (match os.Mkdir fs1 path perm with
                          | (fs2, None) => (fs2, None)
                          | (fs2, Some err) =>
                              match os.Stat fs2 path with
                              | Ok n => if os.IsDir n then (fs2, None) else (fs2, Some err)
                              | Err _ => (fs2, Some err)
                              end
                          end).1 path).
  { intros fs1 path perm. pose proof (Mkdir_ok fs1 path perm) as Hok.
    destruct (os.Mkdir fs1 path perm) as [fs2 [err|]]; simpl in *; [|by intros; apply Hok].
    destruct (os.Stat fs2 path) as [n|e'] eqn:Hst; [|discriminate].
    destruct (os.IsDir n) eqn:Hn; [|discriminate].
    intros _. simpl. by exists n. }
  induction fuel as [|fuel IH]; intros fs path perm; simpl.
  - destruct (os.Stat fs path) as [n|e] eqn:Hst.
    { destruct (os.IsDir n) eqn:Hn; [|discriminate]. intros _. by exists n. }
    destruct (decide (os.parent_of path = EmptyString)); apply Hlast.
  - destruct (os.Stat fs path) as [n|e] eqn:Hst.
    { destruct (os.IsDir n) eqn:Hn; [|discriminate]. intros _. by exists n. }
    destruct (if decide (os.parent_of path = EmptyString) then (fs, None)
              else os.MkdirAll_upto fuel fs (os.parent_of path) perm)
      as [fs1 [perr|]]; simpl; [discriminate|].
    apply Hlast.
Qed.

Lemma MkdirAll_existing fs path perm :
  is_directory fs path -> os.MkdirAll fs path perm = (fs, None).
Proof.
  intros (n & Hst & Hn). unfold os.MkdirAll.
  destruct (String.length path); simpl; by rewrite Hst, Hn.
Qed.
End Directories.

Section MkdirAllFuel.
Implicit Types (fs : os.FS) (l : list ascii).

Lemma drop_slashes_length l : (length (os.drop_slashes l) <= length l)%nat.
Proof. induction l as [|c l IH]; simpl; [lia|]. destruct (Ascii.eqb c "/"); simpl; lia. Qed.

Lemma drop_element_length l : (length (os.drop_element l) <= length l)%nat.
Proof. induction l as [|c l IH]; simpl; [lia|]. destruct (Ascii.eqb c "/"); simpl; lia. Qed.

Lemma drop_parent_length l :
  l <> [] -> (length (os.drop_element (os.drop_slashes l)) < length l)%nat.
Proof.
  destruct l as [|c l]; [done|]. intros _. simpl.
  destruct (Ascii.eqb c "/") eqn:E.
  - pose proof (drop_slashes_length l). pose proof (drop_element_length (os.drop_slashes l)).
    lia.
  - simpl. rewrite E. pose proof (drop_element_length l). lia.
Qed.

Lemma string_length_list s : String.length s = length (String.list_ascii_of_string s).
Proof. induction s as [|c s IH]; simpl; [done|]. by rewrite IH. Qed.

Lemma list_length_string l : String.length (String.string_of_list_ascii l) = length l.
Proof. induction l as [|c l IH]; simpl; [done|]. by rewrite IH. Qed.

Lemma parent_of_shorter path :
  path <> EmptyString -> (String.length (os.parent_of path) < String.length path)%nat.
Proof.
  intros Hne. unfold os.parent_of.
  rewrite list_length_string, length_rev, string_length_list.
  rewrite <- (length_rev (String.list_ascii_of_string path)).
  apply drop_parent_length. destruct path; [done|]. simpl.
  intros H. apply (f_equal (@length _)) in H. rewrite length_app in H. simpl in H. lia.
Qed.

Lemma parent_of_empty : os.parent_of EmptyString = EmptyString.
Proof. reflexivity. Qed.

(** Any fuel from the length of the path on gives the same result. *)
Lemma MkdirAll_upto_enough f1 : forall f2 fs path perm,
  (String.length path <= f1)%nat -> (String.length path <= f2)%nat ->
  os.MkdirAll_upto f1 fs path perm = os.MkdirAll_upto f2 fs path perm.
Proof.
  induction f1 as [|f1 IH]; intros f2 fs path perm H1 H2.
  - assert (path = EmptyString) as -> by (destruct path; [done | simpl in H1; lia]).
    destruct f2; reflexivity.
  - destruct f2 as [|f2].
    + assert (path = EmptyString) as -> by (destruct path; [done | simpl in H2; lia]).
      reflexivity.
    + simpl. destruct (os.Stat fs path); [done|].
      destruct (decide (os.parent_of path = EmptyString)) as [Hp|Hp]; [done|].
      assert (Hne : path <> EmptyString).
      { intros ->. by rewrite parent_of_empty in Hp. }
      pose proof (parent_of_shorter path Hne).
      rewrite (IH f2) by lia. reflexivity.
Qed.
End MkdirAllFuel.

Section NewFacts.
Implicit Types (fs : os.FS).

Lemma MkdirAll_grows fs path perm : grows fs (os.MkdirAll fs path perm).1.
Proof. apply MkdirAll_upto_grows. Qed.

Lemma MkdirAll_ok fs path perm :
  (os.MkdirAll fs path perm).2 = None -> is_directory (os.MkdirAll fs path perm).1 path.
Proof. apply MkdirAll_upto_ok. Qed.

Lemma MkdirAll_regular_file fs path perm data :
  os.Stat fs path = Ok (os.NFile data) ->
  os.MkdirAll fs path perm = (fs, Some (os.ENOTDIR "mkdir" path)).
Proof.
  intros Hst. unfold os.MkdirAll. destruct (String.length path); simpl; by rewrite Hst.
Qed.

(** A path that leads to a regular file still does when directories are
    added. *)
Lemma Stat_file_grows fs fs' name data :
  grows fs fs' -> os.Stat fs name = Ok (os.NFile data) ->
  os.Stat fs' name = Ok (os.NFile data).
Proof.
  intros [Hsub Hdirs]. unfold os.Stat.
  destruct (decide (name = EmptyString)); [done|].
  destruct (os.walk fs _ _) as [p| |] eqn:Hw; try discriminate.
  rewrite (walk_mono fs fs' _ _ _ Hsub Hw).
  destruct (os.dir_exists fs p) eqn:Hd.
  { by destruct (fs !! p) as [[|]|]. }
  destruct (fs !! p) as [[d|size]|] eqn:Hp; try discriminate.
  pose proof (lookup_weaken _ _ _ _ Hp Hsub) as Hp'.
  assert (Hd' : os.dir_exists fs' p = false).
  { revert Hd. unfold os.dir_exists. by rewrite Hp, Hp'. }
  by rewrite Hd', Hp'.
Qed.
End NewFacts.

(** X1: [peer.New] only adds directories: every file and directory that
    existed is still there, unchanged, whether [New] succeeds or fails, and
    everything new is a directory. It returns either the peer built from
    its arguments or an error. When it returns the peer, [os.Stat] reports
    a directory at the shared and at the received path, and calling [New]
    again changes nothing. When both directories exist beforehand the file
    system is left as it is. [MkdirAll] needs no more fuel than the length
    of the path. *)
Theorem New_creates_the_directories (id listenAddr sharedDir receivedDir : string)
    (fs : os.FS) :
  let r := peer.New id listenAddr sharedDir receivedDir fs in
  let p := peer.mkPeer id listenAddr sharedDir receivedDir in
  grows fs r.2 /\
  (r.1 = Ok p \/ exists e, r.1 = Err e) /\
  (r.1 = Ok p ->
     is_directory r.2 sharedDir /\ is_directory r.2 receivedDir /\
     peer.New id listenAddr sharedDir receivedDir r.2 = (Ok p, r.2)) /\
  (is_directory fs sharedDir -> is_directory fs receivedDir -> r = (Ok p, fs)) /\
  (forall k path,
     os.MkdirAll_upto (String.length path + k) fs path 493 = os.MkdirAll fs path 493).
Proof.
  intros r p. subst r. unfold peer.New.
  pose proof (MkdirAll_grows fs sharedDir 493) as Hg1.
  pose proof (MkdirAll_ok fs sharedDir 493) as Hok1.
  destruct (os.MkdirAll fs sharedDir 493) as [fs1 [err1|]] eqn:H1; simpl in *.
  { split; [exact Hg1|]. split; [eauto|]. split; [discriminate|].
    split; [|intros; apply MkdirAll_upto_enough; lia].
    intros Hs _. rewrite (MkdirAll_existing fs sharedDir 493 Hs) in H1. discriminate. }
  pose proof (MkdirAll_grows fs1 receivedDir 493) as Hg2.
  pose proof (MkdirAll_ok fs1 receivedDir 493) as Hok2.
  destruct (os.MkdirAll fs1 receivedDir 493) as [fs2 [err2|]] eqn:H2; simpl in *.
  { split; [by eapply grows_trans|]. split; [eauto|]. split; [discriminate|].
    split; [|intros; apply MkdirAll_upto_enough; lia].
    intros Hs Hr. rewrite (MkdirAll_existing fs sharedDir 493 Hs) in H1.
    injection H1 as <-. rewrite (MkdirAll_existing fs receivedDir 493 Hr) in H2.
    discriminate. }
  split; [by eapply grows_trans|]. split; [by left|].
  split.
  { intros _.
    assert (Hs2 : is_directory fs2 sharedDir).
    { apply (is_directory_mono fs1); [apply Hg2 | by apply Hok1]. }
    assert (Hr2 : is_directory fs2 receivedDir) by (by apply Hok2).
    split; [exact Hs2|]. split; [exact Hr2|].
    by rewrite (MkdirAll_existing fs2 sharedDir 493 Hs2),
               (MkdirAll_existing fs2 receivedDir 493 Hr2). }
  split; [|intros; apply MkdirAll_upto_enough; lia].
  intros Hs Hr. rewrite (MkdirAll_existing fs sharedDir 493 Hs) in H1.
  injection H1 as <-. rewrite (MkdirAll_existing fs receivedDir 493 Hr) in H2.
  by injection H2 as <-.
Qed.

(** X2: when the shared path leads to a regular file, [peer.New] fails
    with the wrapped [not a directory] error, touches nothing and does not
    try the received directory. When the shared directory can be created
    and the received path leads to a regular file, [New] fails with the
    error of the received directory and the shared directory stays: what
    was created is not removed. *)
Theorem New_fails_on_a_regular_file (id listenAddr sharedDir receivedDir : string)
    (fs : os.FS) (data : list byte) :
  let r := peer.New id listenAddr sharedDir receivedDir fs in
  (os.Stat fs sharedDir = Ok (os.NFile data) ->
     r = (Err (errorString ("failed to create shared directory: mkdir " +:+ sharedDir +:+
                            ": not a directory")), fs)) /\
  ((os.MkdirAll fs sharedDir 493).2 = None ->
   os.Stat fs receivedDir = Ok (os.NFile data) ->
     r.1 = Err (errorString ("failed to create received directory: mkdir " +:+
                             receivedDir +:+ ": not a directory")) /\
     r.2 = (os.MkdirAll fs sharedDir 493).1 /\
     is_directory r.2 sharedDir).
Proof.
  intros r. subst r. unfold peer.New. split.
  - intros Hst. by rewrite (MkdirAll_regular_file fs sharedDir 493 data Hst).
  - intros Hok Hst.
    pose proof (MkdirAll_grows fs sharedDir 493) as Hg1.
    pose proof (MkdirAll_ok fs sharedDir 493 Hok) as Hd1.
    destruct (os.MkdirAll fs sharedDir 493) as [fs1 [err1|]]; simpl in *; [discriminate|].
    rewrite (MkdirAll_regular_file fs1 receivedDir 493 data
               (Stat_file_grows fs fs1 receivedDir data Hg1 Hst)).
    simpl. by repeat split.
Qed.

Example New_peer1 :
  peer.New "peer1" "localhost:3000" "shared1" "received1" ∅
    = (Ok scenario.peerA, scenario.dirsA) /\
  peer.New "peer2" "localhost:3001" "shared2" "received2" ∅
    = (Ok scenario.peerB, scenario.dirsB).
Proof. split; vm_compute; reflexivity. Qed.

(** A path below a regular file cannot be created, and the shared
    directory of a failed [New] stays. *)
Example New_received_is_a_file :
  let fs : os.FS := {["received1" := os.NFile []]} in
  let r := peer.New "peer1" "localhost:3000" "shared1" "received1" fs in
  r.1 = Err (errorString
               "failed to create received directory: mkdir received1: not a directory") /\
  r.2 = <["shared1" := os.NDir os.dir_size]> fs.
Proof. split; vm_compute; reflexivity. Qed.

(* ===================================================================== *)
(** ** Starting a peer *)
(* ===================================================================== *)

Section StartFacts.
Implicit Types (w : World) (self i : nat).

Lemma tcp_set_bound b w i : tcp i (set_bound b w) = tcp i w.
Proof. reflexivity. Qed.

Lemma net_Listen_free self addr w :
  bound w !! resolve w addr = None ->
  net_Listen self addr w = (None, set_bound (<[resolve w addr := self]> (bound w)) w).
Proof. intros H. unfold net_Listen. by rewrite H. Qed.

Lemma net_Listen_taken self addr w srv :
  bound w !! resolve w addr = Some srv ->
  exists e, net_Listen self addr w = (Some e, w).
Proof. intros H. unfold net_Listen. rewrite H. eauto. Qed.
End StartFacts.

(** X3: [Peer.Start] listens and then starts the dispatch loop. When the
    listen address is already bound it returns the error of [net.Listen]
    and the world is unchanged: no goroutine is started. Otherwise the
    address is bound to this process, the accept loop and the dispatch loop
    run, the queue, the registry and the connections are as before, a
    second [Start] fails and changes nothing, and a dial to the address
    now succeeds. *)
Theorem Start_binds_or_fails (self : nat) (w : World) :
  let addr := GetListenAddress (tcp self w) in
  let canon := resolve w addr in
  let r := Start self w in
  (forall srv, bound w !! canon = Some srv -> r.1 <> None /\ r.2 = w) /\
  (bound w !! canon = None ->
     r.1 = None /\
     bound r.2 = <[canon := self]> (bound w) /\
     listener (tcp self r.2) = LOpen /\
     n_accepting (node self r.2) = true /\
     n_dispatch (node self r.2) = DRunning /\
     messageCh (tcp self r.2) = messageCh (tcp self w) /\
     peers (tcp self r.2) = peers (tcp self w) /\
     conns r.2 = conns w /\
     (forall i, i <> self -> node i r.2 = node i w) /\
     (Start self r.2).1 <> None /\ (Start self r.2).2 = r.2 /\
     (forall other a, resolve w a = canon ->
        (net_Dial other a r.2).1 = Ok (next_conn w))).
Proof.
  intros addr canon r. subst r. unfold Start, StartListening.
  unfold GetListenAddress in addr.
  change (transport.listenAddr (tcp self w)) with addr. split.
  - intros srv Hb. destruct (net_Listen_taken self addr w srv Hb) as [e ->].
    simpl. split; [discriminate | reflexivity].
  - intros Hfree. rewrite (net_Listen_free self addr w Hfree). fold canon. simpl.
    split; [reflexivity|].
    split; [reflexivity|].
    split. { unfold tcp. rewrite !node_upd_node_eq. simpl. unfold upd_tcp.
             rewrite node_upd_node_eq. reflexivity. }
    split. { rewrite !node_upd_node_eq. reflexivity. }
    split. { rewrite !node_upd_node_eq. reflexivity. }
    split. { unfold tcp. rewrite !node_upd_node_eq. simpl. unfold upd_tcp.
             rewrite node_upd_node_eq. reflexivity. }
    split. { unfold tcp. rewrite !node_upd_node_eq. simpl. unfold upd_tcp.
             rewrite node_upd_node_eq. reflexivity. }
    split; [reflexivity|].
    split. { intros i Hi. rewrite !node_upd_node_ne by done. unfold upd_tcp.
             by rewrite node_upd_node_ne. }
    set (w1 := upd_node self (set_dispatch DRunning) _).
    assert (Haddr : transport.listenAddr (tcp self w1) = addr).
    { subst w1. unfold tcp. rewrite !node_upd_node_eq. simpl. unfold upd_tcp.
      rewrite node_upd_node_eq. reflexivity. }
    assert (Hb : bound w1 !! canon = Some self).
    { subst w1. simpl. apply lookup_insert_eq. }
    destruct (net_Listen_taken self addr w1 self) as [e He]; [exact Hb|].
    rewrite Haddr, He. simpl.
    split; [discriminate|]. split; [reflexivity|].
    intros other a Ha. unfold net_Dial.
    change (resolve w1) with (resolve w). rewrite Ha, Hb. reflexivity.
Qed.

(* ===================================================================== *)
(** ** Messages of other types *)
(* ===================================================================== *)

Section OtherTypes.
Variable yield : World -> World.
Implicit Types (w : World) (self : nat).

Lemma dispatch_other_type p m : other_type m -> peer.dispatch p m = Ret tt.
Proof. intros [H3 H4]. unfold peer.dispatch. by rewrite !decide_False. Qed.

Lemma handleMessages_other_types p msgs :
  Forall other_type msgs -> peer.handleMessages p msgs = Ret tt.
Proof.
  induction 1 as [|m msgs Hm _ IH]; [done|].
  cbn [peer.handleMessages]. rewrite dispatch_other_type by done. exact IH.
Qed.

Lemma dispatch_loop_drops self msgs : forall w rest cl,
  Forall other_type msgs ->
  n_dispatch (node self w) = DRunning ->
  n_panic (node self w) = None ->
  messageCh (tcp self w) = {| ch_buf := msgs ++ rest; ch_closed := cl |} ->
  let w' := run_schedule yield (replicate (length msgs) (TDispatch self)) w in
  node self w' =
    set_transport (set_messageCh {| ch_buf := rest; ch_closed := cl |} (tcp self w))
      (node self w) /\
  (forall i, i <> self -> node i w' = node i w) /\
  conns w' = conns w /\ bound w' = bound w /\ clock w' = clock w.
Proof.
  induction msgs as [|m msgs IH]; intros w rest cl Hall Hrun Hnp Hch.
  - simpl in *. split; [|done]. unfold tcp in *.
    destruct (node self w) as [p t bk acc rd dp fs lg pn]. simpl in *.
    destruct t as [la l ch ps]. simpl in *. by rewrite Hch.
  - apply Forall_cons in Hall as [Hm Hall].
    set (w1 := upd_tcp self (set_messageCh {| ch_buf := msgs ++ rest; ch_closed := cl |}) w).
    assert (Hs : step yield (TDispatch self) w = Some w1).
    { unfold step. cbn [owner]. rewrite Hnp.
      unfold handleMessages_step. rewrite Hrun. fold (tcp self w). rewrite Hch.
      cbn [chan_recv ch_buf ch_closed app]. by rewrite dispatch_other_type. }
    cbn [length replicate run_schedule]. rewrite Hs.
    assert (Hn1 : node self w1 =
                  set_transport (set_messageCh {| ch_buf := msgs ++ rest; ch_closed := cl |}
                                   (tcp self w)) (node self w)).
    { subst w1. by rewrite node_upd_tcp, decide_True. }
    destruct (IH w1 rest cl Hall) as (Hself & Hother & Hconns & Hbound & Hclock).
    + by rewrite Hn1.
    + by rewrite Hn1.
    + unfold tcp. by rewrite Hn1.
    + cbv zeta. split. { rewrite Hself. unfold tcp. rewrite Hn1. reflexivity. }
      split. { intros i Hi. rewrite Hother by done. subst w1.
               by rewrite node_upd_tcp, decide_False. }
      done.
Qed.
End OtherTypes.

(** X4: the switch of [handleMessages] has cases for FileRequest and
    FileResponse only. Messages of any other type at the head of the queue
    are taken off one per step and nothing else happens, whatever their
    payload: no log line, no file, no connection and no registry entry
    changes, the loop keeps running and no handler is called, so the
    program makes no call at all. *)
Theorem other_message_types_are_dropped (yield : World -> World) (self : nat) (w : World)
    (msgs rest : list Message) (cl : bool) :
  Forall other_type msgs ->
  n_dispatch (node self w) = DRunning ->
  n_panic (node self w) = None ->
  messageCh (tcp self w) = {| ch_buf := msgs ++ rest; ch_closed := cl |} ->
  let w' := run_schedule yield (replicate (length msgs) (TDispatch self)) w in
  messageCh (tcp self w') = {| ch_buf := rest; ch_closed := cl |} /\
  n_log (node self w') = n_log (node self w) /\
  n_fs (node self w') = n_fs (node self w) /\
  peers (tcp self w') = peers (tcp self w) /\
  n_dispatch (node self w') = DRunning /\
  n_panic (node self w') = None /\
  (forall i, i <> self -> node i w' = node i w) /\
  conns w' = conns w /\
  (forall (env : Env peer.call) p now,
     exec peer.nominal env (peer.handleMessages p msgs) now [] = (Returned tt, now, [])).
Proof.
  intros Hall Hrun Hnp Hch w'.
  destruct (dispatch_loop_drops yield self msgs w rest cl Hall Hrun Hnp Hch)
    as (Hself & Hother & Hconns & _).
  fold w' in Hself, Hother, Hconns. clearbody w'.
  unfold tcp at 1 2. rewrite Hself. simpl.
  repeat (split; [done|]).
  intros env p now. by rewrite handleMessages_other_types.
Qed.

Lemma other_message_types_are_dropped_witness :
  let normal := {| Type_ := MessageTypeNormal; From := "peer2"; FromAddr := EmptyString;
                   Payload_ := PBytes [x68; x69] |} in
  let w := managePeerConnection_run 3 scenario.A 1
             (run_schedule scenario.idle [TAccept scenario.A]
                (conn_Encode 0 normal
                   (ConnectToPeer scenario.B "localhost:3000"
                      (scenario.started scenario.dirsA scenario.dirsB)).2).2) in
  let w' := run_schedule scenario.idle [TDispatch scenario.A] w in
  ch_buf (messageCh (tcp scenario.A w)) = [stamp "127.0.0.1:49152" normal] /\
  ch_buf (messageCh (tcp scenario.A w')) = [] /\
  n_fs (node scenario.A w') = n_fs (node scenario.A w) /\
  conns w' = conns w.
Proof.
  cbv zeta.
  destruct (other_message_types_are_dropped scenario.idle scenario.A
              (managePeerConnection_run 3 scenario.A 1
                 (run_schedule scenario.idle [TAccept scenario.A]
                    (conn_Encode 0 {| Type_ := MessageTypeNormal; From := "peer2";
                                      FromAddr := EmptyString;
                                      Payload_ := PBytes [x68; x69] |}
                       (ConnectToPeer scenario.B "localhost:3000"
                          (scenario.started scenario.dirsA scenario.dirsB)).2).2))
              [stamp "127.0.0.1:49152"
                 {| Type_ := MessageTypeNormal; From := "peer2"; FromAddr := EmptyString;
                    Payload_ := PBytes [x68; x69] |}] [] false)
    as (Hch & _ & Hfs & _ & _ & _ & _ & Hconns & _).
  - repeat constructor; discriminate.
  - vm_compute. reflexivity.
  - vm_compute. reflexivity.
  - vm_compute. reflexivity.
  - split; [vm_compute; reflexivity|]. cbv zeta in Hch, Hfs, Hconns.
    cbn [length replicate] in Hch, Hfs, Hconns.
    rewrite Hch. split; [reflexivity|]. split; [exact Hfs | exact Hconns].
Defined.

(* ===================================================================== *)
(** ** The calls of the handlers, of SendFile and of RequestFile *)
(* ===================================================================== *)

Ltac answer env :=
  match goal with
  | |- context [env ?X ?h ?e] =>
      let ans := fresh "ans" in
      let x := fresh "extra" in
      destruct (env X h e) as [ans x] eqn:?; cbn [fst snd];
      lazymatch type of ans with
      | unit => destruct ans
      | _ => idtac
      end
  end.

(** Goals about the members of a list of at most one element. *)
Ltac one_member :=
  let x := fresh "x" in
  let Hx := fresh "Hx" in
  intros x Hx;
  first [ by apply elem_of_nil in Hx
        | apply list_elem_of_singleton in Hx as ->; simpl; eauto 10 ].

Ltac trace_facts :=
  simpl; repeat split; try done; try (simpl; lia); try one_member;
  try match goal with
      | H : _ ∈ [] |- _ => by apply elem_of_nil in H
      | H : _ ∈ [_] |- _ => apply list_elem_of_singleton in H as ->; simpl; eauto 10
      end.

(** X6: whatever the file system, the transport and the clock answer,
    [handleFileRequest] on a message carrying a FileRequest either returns
    or panics in [make]: it panics exactly when [File.Stat] reported a
    size that is negative or beyond the largest allocation, and then it
    has read and sent nothing. It calls [Stat] and [Send] at most once,
    [Send] only to the address the request was stamped with and with a
    FileResponse that carries the requested name, this peer's id and
    listen address; it opens at most one file, closes exactly the file it
    opened, as its last call, also when it panics, and never writes a
    file or sleeps. *)
Theorem handleFileRequest_calls (env : Env peer.call) (p : peer.Peer) (msg : Message)
    (req : FileRequest) (now : Z) :
  Payload_ msg = PFileRequest req ->
  let r := exec peer.nominal env (peer.handleFileRequest p msg) now [] in
  let makeslice := "runtime error: makeslice: len out of range" in
  (r.1.1 = Returned tt \/ r.1.1 = Panicked makeslice) /\
  (r.1.1 = Panicked makeslice <->
     exists size, size ∈ calls.sizes r.2 /\ (size < 0 \/ os.maxAlloc < size)%Z) /\
  (r.1.1 = Panicked makeslice -> attempts r.2 = [] /\ calls.read r.2 = []) /\
  (length (calls.sizes r.2) <= 1)%nat /\
  (length (attempts r.2) <= 1)%nat /\
  (forall a, a ∈ attempts r.2 ->
     at_addr a = FromAddr msg /\
     Type_ (at_msg a) = MessageTypeFileResponse /\
     From (at_msg a) = peer.id p /\
     FromAddr (at_msg a) = peer.listenAddr p /\
     exists resp, Payload_ (at_msg a) = PFileResponse resp /\
                  Name resp = FileName req /\ Checksum resp = EmptyString) /\
  calls.closed r.2 = calls.opened r.2 /\
  (length (calls.opened r.2) <= 1)%nat /\
  (forall f, f ∈ calls.opened r.2 -> exists t, last r.2 = Some (En t (peer.file_Close f) tt)) /\
  calls.written r.2 = [] /\
  calls.slept r.2 = [].
Proof.
  intros Hpay r makeslice. subst r makeslice.
  unfold peer.handleFileRequest. rewrite Hpay.
  simpl. answer env. simpl.
  answer env. destruct ans as [file | e]; simpl.
  2:{ answer env. split; [by left|]. split; [|trace_facts].
      split; [discriminate | intros (size & Hin & _); by apply elem_of_nil in Hin]. }
  answer env. destruct ans as [size | e]; simpl.
  2:{ answer env. simpl. answer env. split; [by left|]. split; [|trace_facts].
      split; [discriminate | intros (size & Hin & _); by apply elem_of_nil in Hin]. }
  destruct (decide (0 <= size <= os.maxAlloc)%Z) as [Hin|Hout].
  2:{ rewrite make_out_of_range by lia. simpl. answer env.
      split; [by right|]. split; [|trace_facts].
      split; [intros _; exists size; split; [apply list_elem_of_here | lia] | done]. }
  rewrite make_in_range by done. simpl.
  assert (Hno : forall s0 : Z, s0 ∈ [size] -> ~ (s0 < 0 \/ os.maxAlloc < s0)%Z).
  { intros s0 Hs0. apply list_elem_of_singleton in Hs0 as ->. lia. }
  answer env. destruct ans as [[content n] [err|]]; simpl.
  { answer env. simpl. answer env. split; [by left|]. split; [|trace_facts].
    split; [discriminate | intros (s0 & Hs0 & Hbad); by destruct (Hno s0 Hs0)]. }
  answer env. simpl. answer env. simpl.
  answer env. destruct ans as [serr|]; simpl.
  - answer env. simpl. answer env. split; [by left|]. split; [|trace_facts].
    split; [discriminate | intros (s0 & Hs0 & Hbad); by destruct (Hno s0 Hs0)].
  - answer env. simpl. answer env. split; [by left|]. split; [|trace_facts].
    split; [discriminate | intros (s0 & Hs0 & Hbad); by destruct (Hno s0 Hs0)].
Qed.

(** A sparse file of 2^62 bytes: the handler opens it, panics in [make]
    and the deferred [Close] still runs. *)
Lemma handleFileRequest_calls_witness :
  let r := exec peer.nominal env_sparse
             (peer.handleFileRequest scenario.peerA (scenario.request "greet.txt")) 0 [] in
  r.1.1 = Panicked "runtime error: makeslice: len out of range" /\
  attempts r.2 = [] /\
  calls.closed r.2 = calls.opened r.2.
Proof.
  cbv zeta.
  destruct (handleFileRequest_calls env_sparse scenario.peerA (scenario.request "greet.txt")
              {| FileName := "greet.txt" |} 0)
    as (_ & Hpanic & Hnothing & _ & _ & _ & Hclosed & _).
  - reflexivity.
  - assert (Hp : (exec peer.nominal env_sparse
                    (peer.handleFileRequest scenario.peerA (scenario.request "greet.txt"))
                    0 []).1.1 = Panicked "runtime error: makeslice: len out of range").
    { apply Hpanic. exists 4611686018427387904%Z. split; [|right; reflexivity].
      assert (Hs : calls.sizes (exec peer.nominal env_sparse
                      (peer.handleFileRequest scenario.peerA (scenario.request "greet.txt"))
                      0 []).2 = [4611686018427387904%Z]) by (vm_compute; reflexivity).
      rewrite Hs. apply list_elem_of_here. }
    split; [exact Hp|]. split; [apply Hnothing, Hp | exact Hclosed].
Defined.

(** X10: [SendFile] sends nothing. Its first call is [os.Stat] of
    [Join(sharedDir, fileName)]; it returns nil when that succeeds and the
    wrapped [not found] error otherwise; it never calls [Send], [Open] or
    [WriteFile]. In the running system it returns nil exactly when
    [os.Stat] finds the path, be it a file or a directory, and otherwise
    the error of [os.Stat] wrapped; it changes no connection, no file and
    no transport. *)
Theorem SendFile_only_checks (env : Env peer.call) (yield : World -> World)
    (p : peer.Peer) (fileName : string) (now : Z) (self : nat) (w : World) :
  let path := filepath.Join [peer.sharedDir p; fileName] in
  let r := exec peer.nominal env (peer.SendFile p fileName) now [] in
  let out := run yield self (peer.SendFile p fileName) w in
  (exists serr t1 k,
     peer.SendFile p fileName = Vis (peer.os_Stat path) k /\
     head r.2 = Some (En t1 (peer.os_Stat path) serr) /\
     r.1.1 = Returned (match serr with
                       | None => None
                       | Some err => Some (errorString ("file " +:+ fileName +:+
                                                        " not found: " +:+ Error err))
                       end)) /\
  attempts r.2 = [] /\ calls.opened r.2 = [] /\ calls.written r.2 = [] /\
  (out.1 = Returned None <-> exists n, os.Stat (n_fs (node self w)) path = Ok n) /\
  (forall err, os.Stat (n_fs (node self w)) path = Err err ->
     out.1 = Returned (Some (errorString ("file " +:+ fileName +:+ " not found: " +:+
                                          Error err)))) /\
  conns out.2 = conns w /\
  (forall i, n_fs (node i out.2) = n_fs (node i w)) /\
  (forall i, tcp i out.2 = tcp i w).
Proof.
  intros path r out. subst r out. unfold peer.SendFile. fold path. simpl.
  split.
  { answer env. destruct ans as [err|]; simpl.
    - eexists _, _, _. split; [reflexivity|]. split; reflexivity.
    - answer env. eexists _, _, _. split; [reflexivity|]. split; reflexivity. }
  assert (Hrun :
    let st := os.Stat (n_fs (node self w)) path in
    let out := run yield self
                 (match match st with Ok _ => None | Err err => Some err end with
                  | Some err =>
                      mret (Some (errorString ("file " +:+ fileName +:+ " not found: " +:+
                                               Error err)))
                  | None =>
                      Vis (peer.log_Printf ("Ready to send file " +:+ fileName +:+
                                            " to any requesting peer"))
                          (fun _ => mret None)
                  end) w in
    (out.1 = Returned None <-> exists n, st = Ok n) /\
    (forall err, st = Err err ->
       out.1 = Returned (Some (errorString ("file " +:+ fileName +:+ " not found: " +:+
                                            Error err)))) /\
    conns out.2 = conns w /\
    (forall i, n_fs (node i out.2) = n_fs (node i w)) /\
    (forall i, tcp i out.2 = tcp i w)).
  { cbv zeta. destruct (os.Stat (n_fs (node self w)) path) as [nd|serr]; simpl.
    - split; [split; eauto|]. split; [discriminate|]. split; [reflexivity|].
      split; intros i; [by rewrite n_fs_logf | by rewrite tcp_logf].
    - split. { split; [discriminate | by intros [? ?]]. }
      split. { by intros ? [= ->]. }
      done. }
  answer env. destruct ans as [err|]; simpl.
  - split; [done|]. split; [done|]. split; [done|]. exact Hrun.
  - answer env. simpl. split; [done|]. split; [done|]. split; [done|]. exact Hrun.
Qed.

(** On A's files: a shared file is found; the name [..] leads to the
    working directory, which [os.Stat] finds; a missing name and a name
    below a regular file are not found. *)
Example SendFile_on_the_shared_directory :
  let w := scenario.started (scenario.sharing "greet.txt" (scenario.bytes "hello"))
             scenario.dirsB in
  let send name := (run scenario.idle scenario.A (peer.SendFile scenario.peerA name) w).1 in
  send "greet.txt" = Returned None /\
  send ".." = Returned None /\
  send "missing.txt" =
    Returned (Some (errorString ("file missing.txt not found: " +:+
                                 "stat shared1/missing.txt: no such file or directory"))) /\
  send "greet.txt/x" =
    Returned (Some (errorString ("file greet.txt/x not found: " +:+
                                 "stat shared1/greet.txt/x: not a directory"))).
Proof. repeat split; vm_compute; reflexivity. Qed.

Ltac failed_send env Henv :=
  match goal with
  | |- context [env ?X ?h (peer.transport_Send ?a ?m)] =>
      let e := fresh "e" in
      let x := fresh "extra" in
      let He := fresh "He" in
      destruct (Henv h) as (e & x & He); rewrite He; cbn [fst snd]
  end.

(** X5: when every [Send] fails, [RequestFile] logs after each of the
    five attempts the line numbered 1 to 5 with the error of that attempt,
    sleeps two seconds after each of them, the last one included, and
    returns the terminal error no earlier than ten seconds after it
    started; its last call is that sleep. *)
Theorem RequestFile_when_every_Send_fails (env : Env peer.call) (p : peer.Peer)
    (peerAddr fileName : string) (now : Z) :
  let req := {| Type_ := MessageTypeFileRequest; From := peer.id p; FromAddr := EmptyString;
                Payload_ := PFileRequest {| FileName := fileName |} |} in
  (forall hist, exists e extra,
      env _ hist (peer.transport_Send peerAddr req) = (Some e, extra)) ->
  let r := exec peer.nominal env (peer.RequestFile p peerAddr fileName) now [] in
  exists errs,
    length errs = 5%nat /\
    at_err <$> attempts r.2 = Some <$> errs /\
    calls.logged r.2 = imap retry_line errs /\
    calls.slept r.2 = replicate 5 (2 * Second)%Z /\
    (now + 10 * Second <= r.1.2)%Z /\
    r.1.1 = Returned (Some terminal_error) /\
    (exists t, last r.2 = Some (En t (peer.time_Sleep (2 * Second)) tt)).
Proof.
  intros req Henv r. subst r. unfold peer.RequestFile. fold req.
  unfold peer.maxRetries. cbn [peer.RequestFile_loop].
  unfold peer.retryInterval. simpl.
  failed_send env Henv. simpl. answer env. simpl. answer env. simpl.
  failed_send env Henv. simpl. answer env. simpl. answer env. simpl.
  failed_send env Henv. simpl. answer env. simpl. answer env. simpl.
  failed_send env Henv. simpl. answer env. simpl. answer env. simpl.
  failed_send env Henv. simpl. answer env. simpl. answer env. simpl.
  exists [e; e0; e1; e2; e3].
  split; [reflexivity|]. split; [reflexivity|]. split; [reflexivity|].
  split; [reflexivity|].
  split. { unfold Second, Millisecond. lia. }
  split; [reflexivity|]. eexists. reflexivity.
Qed.

Lemma RequestFile_when_every_Send_fails_witness :
  let r := exec peer.nominal env_refused
             (peer.RequestFile scenario.peerB "localhost:3000" "greet.txt") 0 [] in
  calls.slept r.2 = replicate 5 (2 * Second)%Z /\ (10 * Second <= r.1.2)%Z.
Proof.
  cbv zeta.
  destruct (RequestFile_when_every_Send_fails env_refused scenario.peerB
              "localhost:3000" "greet.txt" 0)
    as (errs & _ & _ & _ & Hslept & Htime & _).
  - intros hist. eexists _, _. reflexivity.
  - split; [exact Hslept | exact Htime].
Defined.

(** X7: a FileRequest whose name leads to a directory under the shared
    directory (of a size that is not zero and that [make] allocates) is
    opened and stat-ed, the single [Read] fails with [is a directory], and
    the handler logs and returns: nothing is sent, no file and no
    connection changes. *)
Theorem directory_request_is_dropped (yield : World -> World) (self : nat) (w : World)
    (p : peer.Peer) (msg : Message) (req : FileRequest) (size : Z) :
  Payload_ msg = PFileRequest req ->
  n_fs (node self w) !! filepath.Join [peer.sharedDir p; FileName req]
    = Some (os.NDir size) ->
  (0 < size <= os.maxAlloc)%Z ->
  let path := filepath.Join [peer.sharedDir p; FileName req] in
  let out := run yield self (peer.handleFileRequest p msg) w in
  out.1 = Returned tt /\
  n_log (node self out.2) =
    n_log (node self w) ++
    ["Received file request from " +:+ From msg +:+ " for file: " +:+ FileName req;
     "Error reading file: read " +:+ path +:+ ": is a directory"] /\
  conns out.2 = conns w /\
  (forall i, n_fs (node i out.2) = n_fs (node i w)) /\
  (forall i, tcp i out.2 = tcp i w) /\
  (forall (env : Env peer.call) now,
     (forall hist, env _ hist (peer.os_Open path) = (os.Open (n_fs (node self w)) path, 0%N)) ->
     (forall hist f, env _ hist (peer.file_Stat f) = (os.File_Stat f, 0%N)) ->
     (forall hist f b, env _ hist (peer.file_Read f b) = (os.File_Read f b, 0%N)) ->
     attempts (exec peer.nominal env (peer.handleFileRequest p msg) now []).2 = []).
Proof.
  intros Hpay Hdir Hpos path out.
  assert (Hread : os.File_Read (os.mkFile path (os.NDir size)) (os.make_bytes size) =
                  (os.make_bytes size, 0%Z, Some (os.EISDIR "read" path))).
  { unfold os.File_Read, os.make_bytes. rewrite length_replicate.
    rewrite decide_False by lia. reflexivity. }
  split; [|split; [|split; [|split; [|split]]]].
  6:{ intros env now Hopen Hstat Hrd. unfold peer.handleFileRequest. rewrite Hpay.
      fold path. simpl.
      answer env. simpl. rewrite Hopen. unfold os.Open. fold path in Hdir. rewrite Hdir.
      simpl. rewrite Hstat. unfold os.File_Stat. simpl.
      rewrite make_in_range by lia. simpl. rewrite Hrd, Hread. simpl.
      answer env. simpl. answer env. reflexivity. }
  all: subst out; unfold peer.handleFileRequest; rewrite Hpay; fold path;
    simpl; rewrite n_fs_logf; unfold os.Open;
    fold path in Hdir; rewrite Hdir; simpl; unfold os.File_Stat; simpl;
    rewrite make_in_range by lia; simpl; rewrite Hread; simpl.
  - reflexivity.
  - rewrite !node_logf, !decide_True by done. simpl. by rewrite <- app_assoc.
  - reflexivity.
  - intros i. by rewrite !n_fs_logf.
  - intros i. by rewrite !tcp_logf.
Qed.

Lemma directory_request_is_dropped_witness :
  let w := scenario.started scenario.dirsA scenario.dirsB in
  let out := run scenario.idle scenario.A
               (peer.handleFileRequest scenario.peerA (scenario.request ".")) w in
  out.1 = Returned tt /\ conns out.2 = conns w /\
  last (n_log (node scenario.A out.2)) =
    Some "Error reading file: read shared1: is a directory".
Proof.
  cbv zeta.
  destruct (directory_request_is_dropped scenario.idle scenario.A
              (scenario.started scenario.dirsA scenario.dirsB) scenario.peerA
              (scenario.request ".") {| FileName := "." |} 4096)
    as (Hret & Hlog & Hconns & _).
  - reflexivity.
  - vm_compute. reflexivity.
  - split; [lia | by apply Z.leb_le].
  - split; [exact Hret|]. split; [exact Hconns|].
    cbv zeta in Hlog. rewrite Hlog. vm_compute. reflexivity.
Defined.

(* ===================================================================== *)
(** ** What changes the files *)
(* ===================================================================== *)

Section FilesFrame.
Variable yield : World -> World.
Hypothesis yield_files : forall w i, n_fs (node i (yield w)) = n_fs (node i w).
Implicit Types (w : World) (self conn i : nat).

Lemma n_fs_upd_node_same self f w i :
  (forall n, n_fs (f n) = n_fs n) -> n_fs (node i (upd_node self f w)) = n_fs (node i w).
Proof.
  intros Hf. rewrite node_upd_node. destruct (decide (self = i)) as [->|]; [apply Hf | done].
Qed.

Lemma n_fs_net_Dial self addr w i :
  n_fs (node i (net_Dial self addr w).2) = n_fs (node i w).
Proof.
  unfold net_Dial. destruct (bound w !! resolve w addr) as [srv|]; [|done].
  simpl. by rewrite n_fs_upd_node_same.
Qed.

Lemma n_fs_conn_Encode c msg w i :
  n_fs (node i (conn_Encode c msg w).2) = n_fs (node i w).
Proof.
  unfold conn_Encode. destruct (conns w !! c) as [ep|]; [|done].
  by destruct (ep_closed ep).
Qed.

Lemma n_fs_conn_Close c w i : n_fs (node i (conn_Close c w)) = n_fs (node i w).
Proof. by rewrite node_conn_Close. Qed.

Lemma n_fs_ConnectToPeer self addr w i :
  n_fs (node i (ConnectToPeer self addr w).2) = n_fs (node i w).
Proof.
  unfold ConnectToPeer.
  pose proof (n_fs_net_Dial self addr (logf self ("Connecting to peer at " +:+ addr) w) i)
    as Hd.
  destruct (net_Dial self addr _) as [[conn | e] w1]; simpl in *.
  - unfold spawn_reader. rewrite n_fs_upd_node_same by done.
    rewrite n_fs_logf, n_fs_upd_tcp. by rewrite Hd, n_fs_logf.
  - by rewrite Hd, n_fs_logf.
Qed.

Lemma n_fs_Sleep d w i : n_fs (node i (Sleep yield d w)) = n_fs (node i w).
Proof. unfold Sleep. by rewrite yield_files. Qed.

Lemma n_fs_Send self addr msg w i :
  n_fs (node i (Send yield self addr msg w).2) = n_fs (node i w).
Proof.
  unfold Send. destruct (peers (tcp self w) !! addr) as [conn|].
  - apply n_fs_conn_Encode.
  - pose proof (n_fs_ConnectToPeer self addr w i) as Hc.
    destruct (ConnectToPeer self addr w) as [[err|] w1]; simpl in *; [done|].
    destruct (peers (tcp self (Sleep yield (100 * Millisecond) w1)) !! addr);
      simpl; [rewrite n_fs_conn_Encode|]; by rewrite n_fs_Sleep.
Qed.

Lemma n_fs_run self R (p : Prog peer.call R) : forall w i,
  writes_no_file p -> n_fs (node i (run yield self p w).2) = n_fs (node i w).
Proof.
  induction p as [r | v | X e k IH]; intros w i Hp; simpl.
  - reflexivity.
  - by rewrite n_fs_upd_node_same.
  - destruct Hp as [He Hk].
    assert (Hperf : n_fs (node i (perform yield self e w).2) = n_fs (node i w)).
    { destruct e; simpl; try reflexivity; try done.
      - by rewrite n_fs_logf.
      - apply n_fs_Send.
      - apply n_fs_Sleep. }
    destruct (perform yield self e w) as [x w1]. simpl in Hperf.
    rewrite IH by apply Hk. exact Hperf.
Qed.

Lemma handleFileRequest_writes_no_file p msg :
  writes_no_file (peer.handleFileRequest p msg).
Proof.
  unfold peer.handleFileRequest, peer.conversion_panic.
  destruct (Payload_ msg) as [| b | req | resp]; simpl; try done.
  split; [done|]. intros []. split; [done|]. intros [file | e]; simpl.
  - split; [done|]. intros [size | e]; simpl.
    + unfold peer.make. destruct ((0 <=? size) && (size <=? os.maxAlloc))%Z; simpl.
      * split; [done|]. intros [[content n] [err|]]; simpl.
        -- split; [done|]. intros []. simpl. split; [done|]. by intros [].
        -- split; [done|]. intros []. simpl. split; [done|]. intros []. simpl.
           split; [done|]. intros [serr|]; simpl;
             (split; [done|]; intros []; simpl; split; [done|]; by intros []).
      * split; [done|]. by intros [].
    + split; [done|]. intros []. simpl. split; [done|]. by intros [].
  - split; [done|]. by intros [].
Qed.

Lemma n_fs_reader self conn w w' i :
  managePeerConnection_step self conn w = Some w' -> n_fs (node i w') = n_fs (node i w).
Proof.
  unfold managePeerConnection_step.
  assert (Hret : forall x remote,
            n_fs (node i (managePeerConnection_return self conn remote x)) = n_fs (node i x)).
  { intros x remote. unfold managePeerConnection_return, set_pc.
    rewrite n_fs_upd_node_same by done. by rewrite n_fs_conn_Close, n_fs_upd_tcp. }
  destruct (n_readers (node self w) !! conn) as [[| msg | msg |]|];
    destruct (conns w !! conn) as [ep|]; try discriminate.
  - intros [= <-]. unfold set_pc. rewrite n_fs_upd_node_same by done.
    by rewrite n_fs_upd_tcp, n_fs_logf.
  - destruct (ep_closed ep).
    { intros [= <-]. by rewrite Hret, n_fs_logf. }
    destruct (ep_inbox ep) as [|f rest].
    { destruct (ep_eof ep); [|discriminate]. intros [= <-]. by rewrite Hret. }
    destruct (Decode f msg) as [m | err].
    + intros [= <-]. unfold set_pc. by rewrite n_fs_upd_node_same.
    + intros [= <-]. rewrite Hret. destruct (is_EOF err); [done|]. by rewrite n_fs_logf.
  - destruct (ch_closed _).
    { intros [= <-]. rewrite n_fs_upd_node_same by done. by rewrite Hret. }
    destruct (decide _); [|discriminate].
    intros [= <-]. unfold set_pc. rewrite n_fs_upd_node_same by done. by rewrite n_fs_upd_tcp.
Qed.

Lemma n_fs_accept self w w' i :
  handleIncomingConnections_step self w = Some w' -> n_fs (node i w') = n_fs (node i w).
Proof.
  unfold handleIncomingConnections_step.
  destruct (negb _); [discriminate|].
  destruct (listener _); [discriminate | |].
  - destruct (n_backlog _) as [|c rest]; [discriminate|].
    intros [= <-]. unfold spawn_reader. by rewrite !n_fs_upd_node_same.
  - intros [= <-]. by rewrite n_fs_logf.
Qed.
End FilesFrame.

(** X8: no step of any goroutine changes the files of any process,
    except the step of the dispatch loop of that process that handles a
    message of type FileResponse carrying a FileResponse: then the files
    are what the one [os.WriteFile] of the handler leaves, and every other
    path is untouched. In particular serving a FileRequest, accepting and
    reading from connections never write. *)
Theorem files_change_only_by_FileResponse (yield : World -> World) (th : Thread)
    (w w' : World) :
  (forall w0 i, n_fs (node i (yield w0)) = n_fs (node i w0)) ->
  step yield th w = Some w' ->
  forall i,
    n_fs (node i w') = n_fs (node i w) \/
    exists msg rest resp,
      th = TDispatch i /\
      ch_buf (messageCh (tcp i w)) = msg :: rest /\
      Type_ msg = MessageTypeFileResponse /\
      Payload_ msg = PFileResponse resp /\
      let path := filepath.Join [peer.receivedDir (n_peer (node i w)); Name resp] in
      n_fs (node i w') = (os.WriteFile (n_fs (node i w)) path (Data resp) 420).1 /\
      forall name, name <> path -> n_fs (node i w') !! name = n_fs (node i w) !! name.
Proof.
  intros Hy Hstep i. revert Hstep. unfold step.
  destruct (n_panic _); [discriminate|].
  destruct th as [n | n conn | n].
  - intros Hs. left. by apply (n_fs_accept n w w' i).
  - intros Hs. left. by apply (n_fs_reader n conn w w' i).
  - unfold handleMessages_step, chan_recv. fold (tcp n w).
    destruct (n_dispatch (node n w)); try discriminate.
    destruct (ch_buf (messageCh (tcp n w))) as [|msg rest] eqn:Hbuf.
    { destruct (ch_closed _); [|discriminate]. intros [= <-]. left.
      by rewrite n_fs_upd_node_same. }
    intros [= <-]. unfold peer.dispatch.
    destruct (decide (Type_ msg = MessageTypeFileRequest)) as [Hreq|Hnreq].
    { left. rewrite (n_fs_run yield Hy) by apply handleFileRequest_writes_no_file.
      apply n_fs_upd_tcp. }
    destruct (decide (Type_ msg = MessageTypeFileResponse)) as [Hresp|Hnresp].
    2:{ left. simpl. apply n_fs_upd_tcp. }
    destruct (Payload_ msg) as [| b | rq | resp] eqn:Hpay.
    1-3: left; rewrite handleFileResponse_panics by (rewrite Hpay; discriminate);
         simpl; rewrite n_fs_upd_node_same by done; apply n_fs_upd_tcp.
    rewrite (run_handleFileResponse yield n _ _ msg resp Hpay). cbv zeta. cbn [snd].
    rewrite n_fs_logf.
    destruct (decide (i = n)) as [->|Hne].
    + right. exists msg, rest, resp. rewrite node_upd_node_eq. cbn [n_fs set_fs].
      rewrite n_fs_upd_tcp.
      do 4 (split; [done|]). split; [reflexivity|].
      intros name Hname. by apply WriteFile_other.
    + left. rewrite node_upd_node_ne by done. apply n_fs_upd_tcp.
Qed.

Lemma files_change_only_by_FileResponse_witness :
  let w := scenario.delivered (scenario.sharing "greet.txt" (scenario.bytes "hello"))
             scenario.dirsB "greet.txt" in
  let w' := run_schedule scenario.idle [TDispatch scenario.A] w in
  n_fs (node scenario.A w') = n_fs (node scenario.A w) /\
  n_fs (node scenario.B w') = n_fs (node scenario.B w).
Proof.
  cbv zeta.
  assert (Hstep : step scenario.idle (TDispatch scenario.A)
                    (scenario.delivered (scenario.sharing "greet.txt" (scenario.bytes "hello"))
                       scenario.dirsB "greet.txt") =
                  Some (run_schedule scenario.idle [TDispatch scenario.A]
                          (scenario.delivered
                             (scenario.sharing "greet.txt" (scenario.bytes "hello"))
                             scenario.dirsB "greet.txt")))
    by (vm_compute; reflexivity).
  pose proof (files_change_only_by_FileResponse scenario.idle (TDispatch scenario.A) _ _
                (fun _ _ => eq_refl) Hstep) as H.
  split.
  - destruct (H scenario.A) as [HA | (msg & rest & resp & _ & Hbuf & Hty & _)]; [exact HA|].
    exfalso. revert Hbuf Hty. vm_compute. intros [= <- _]. discriminate.
  - destruct (H scenario.B) as [HB | (msg & rest & resp & Hth & _)]; [exact HB|].
    discriminate.
Defined.

(* ===================================================================== *)
(** ** Files within the read limit *)
(* ===================================================================== *)

Section SmallFiles.
Import scenario.

(** Facts about the world after the exchange, for any content [d] of
    [data.bin]: A's handler is run on [d] as data, and the rest of the
    schedule is evaluated. *)
Ltac after_exchange d :=
  unfold transferred, exchange; rewrite !run_schedule_app;
  fold (delivered (sharing "data.bin" d) dirsB "data.bin");
  let W1 := fresh "W1" in
  let HW1 := fresh "HW1" in
  remember (delivered (sharing "data.bin" d) dirsB "data.bin") as W1 eqn:HW1;
  assert (n_panic (node A W1) = None) as Hp by (rewrite HW1; vm_compute; reflexivity);
  assert (n_dispatch (node A W1) = DRunning) as Hd by (rewrite HW1; vm_compute; reflexivity);
  assert (messageCh (n_transport (node A W1)) =
          {| ch_buf := [request "data.bin"]; ch_closed := false |}) as Hch
    by (rewrite HW1; vm_compute; reflexivity);
  assert (n_peer (node A W1) = peerA) as Hpeer by (rewrite HW1; vm_compute; reflexivity);
  unfold serve; cbn [run_schedule]; unfold step; cbn [owner];
  rewrite Hp; unfold handleMessages_step; rewrite Hd, Hch, Hpeer;
  cbn [chan_recv ch_buf ch_closed];
  change (peer.dispatch peerA (request "data.bin"))
    with (peer.handleFileRequest peerA (request "data.bin"));
  erewrite (run_handleFileRequest_regular idle A _ peerA (request "data.bin") _ d);
    [ | reflexivity | rewrite HW1; vm_compute; reflexivity | assumption ];
  cbv zeta; cbn [snd];
  rewrite ?read_once_small by assumption;
  generalize (Z.of_nat (length d)); intros size; rewrite HW1; vm_compute.

Lemma small_file_exchange (d : list byte) :
  (Z.of_nat (length d) <= os.maxRW)%Z ->
  let w := transferred (sharing "data.bin" d) dirsB "data.bin" in
  n_fs (node B w) = <["received2/data.bin" := os.NFile d]> dirsB /\
  n_fs (node A w) = sharing "data.bin" d /\
  n_panic (node A w) = None /\ n_panic (node B w) = None /\
  ch_buf (messageCh (tcp A w)) = [] /\ ch_buf (messageCh (tcp B w)) = [] /\
  peers (tcp A w) = {["127.0.0.1:49152" := 1%nat]} /\
  quiescent w = true.
Proof.
  intros Hle. cbv zeta.
  assert (Hbig : (Z.of_nat (length d) <= os.maxAlloc)%Z).
  { pose proof maxRW_maxAlloc. pose proof maxRW_pos. lia. }
  split; [after_exchange d; reflexivity|].
  split; [after_exchange d; reflexivity|].
  split; [after_exchange d; reflexivity|].
  split; [after_exchange d; reflexivity|].
  split; [after_exchange d; reflexivity|].
  split; [after_exchange d; reflexivity|].
  split; [after_exchange d; reflexivity|].
  unfold quiescent. after_exchange d. reflexivity.
Qed.
End SmallFiles.

(** X9: peer A shares [data.bin] with any content of at most 2^30 bytes
    (the empty file included) and peer B requests it. [RequestFile]
    returns nil, and once every goroutine has run, B's
    received directory holds exactly one new file, [data.bin], with the
    content of A's file; A's files are unchanged, neither process has
    panicked, both queues are empty and every goroutine is blocked. *)
Theorem small_file_arrives_unchanged (d : list byte) :
  (Z.of_nat (length d) <= os.maxRW)%Z ->
  let fsA := scenario.sharing "data.bin" d in
  let w := scenario.transferred fsA scenario.dirsB "data.bin" in
  (scenario.requested fsA scenario.dirsB "data.bin").1 = Returned None /\
  n_fs (node scenario.B w) = <["received2/data.bin" := os.NFile d]> scenario.dirsB /\
  n_fs (node scenario.A w) = fsA /\
  n_panic (node scenario.A w) = None /\ n_panic (node scenario.B w) = None /\
  ch_buf (messageCh (tcp scenario.A w)) = [] /\ ch_buf (messageCh (tcp scenario.B w)) = [] /\
  scenario.quiescent w = true.
Proof.
  intros Hle fsA w.
  destruct (small_file_exchange d Hle) as (HB & HA & HpA & HpB & HqA & HqB & _ & Hq).
  split; [apply requested_ok|]. by repeat split.
Qed.

Lemma small_file_arrives_unchanged_witness :
  let w := scenario.transferred (scenario.sharing "data.bin" []) scenario.dirsB "data.bin" in
  n_fs (node scenario.B w) !! "received2/data.bin" = Some (os.NFile []).
Proof.
  cbv zeta.
  destruct (small_file_arrives_unchanged []) as (_ & HB & _).
  - vm_compute. discriminate.
  - cbv zeta in HB. rewrite HB. apply lookup_insert_eq.
Defined.

(* ===================================================================== *)
(** ** The accept loop *)
(* ===================================================================== *)

Section AcceptBacklog.
Variable yield : World -> World.
Implicit Types (w : World) (self : nat).


Lemma readers_started_member cs : forall r c,
  c ∈ cs -> readers_started r cs !! c = Some RStart.
Proof.
  induction cs as [|c0 cs IH] using rev_ind; intros r c Hin.
  - by apply elem_of_nil in Hin.
  - unfold readers_started. rewrite foldl_app. simpl.
    destruct (decide (c = c0)) as [->|Hne]; [apply lookup_insert_eq|].
    rewrite lookup_insert_ne by done. apply IH.
    apply elem_of_app in Hin as [Hin|Hin]; [done|].
    apply list_elem_of_singleton in Hin. done.
Qed.

Lemma accept_backlog self cs : forall w,
  n_accepting (node self w) = true ->
  listener (tcp self w) = LOpen ->
  n_panic (node self w) = None ->
  n_backlog (node self w) = cs ->
  let w' := run_schedule yield (replicate (length cs) (TAccept self)) w in
  node self w' =
    set_readers (readers_started (n_readers (node self w)) cs)
      (set_backlog [] (node self w)) /\
  (forall i, i <> self -> node i w' = node i w) /\
  conns w' = conns w /\ bound w' = bound w.
Proof.
  induction cs as [|c cs IH]; intros w Ha Hl Hp Hb.
  - simpl. split; [|done]. destruct (node self w); simpl in *. by subst.
  - set (w1 := spawn_reader self c (upd_node self (set_backlog cs) w)).
    assert (Hs : step yield (TAccept self) w = Some w1).
    { unfold step. cbn [owner]. rewrite Hp. unfold handleIncomingConnections_step.
      rewrite Ha. fold (tcp self w). rewrite Hl, Hb. reflexivity. }
    cbn [length replicate run_schedule]. rewrite Hs.
    assert (Hn1 : node self w1 =
                  set_readers (<[c := RStart]> (n_readers (node self w)))
                    (set_backlog cs (node self w))).
    { subst w1. unfold spawn_reader. by rewrite !node_upd_node_eq. }
    destruct (IH w1) as (Hself & Hother & Hconns & Hbound).
    + by rewrite Hn1.
    + unfold tcp. by rewrite Hn1.
    + by rewrite Hn1.
    + by rewrite Hn1.
    + cbv zeta. split. { rewrite Hself, Hn1. reflexivity. }
      split. { intros i Hi. rewrite Hother by done. subst w1. unfold spawn_reader.
               by rewrite !node_upd_node_ne. }
      done.
Qed.
End AcceptBacklog.

(** X11: with the listener open, the accept loop takes the pending
    connections one per iteration and starts one reader goroutine for
    each; when the backlog is empty it blocks in [Accept].
    It changes no connection, no registry entry and no other process. *)
Theorem accept_loop_starts_a_reader_per_connection (yield : World -> World) (self : nat)
    (w : World) :
  n_accepting (node self w) = true ->
  listener (tcp self w) = LOpen ->
  n_panic (node self w) = None ->
  let cs := n_backlog (node self w) in
  let w' := run_schedule yield (replicate (length cs) (TAccept self)) w in
  n_backlog (node self w') = [] /\
  n_readers (node self w') = readers_started (n_readers (node self w)) cs /\
  (forall c, c ∈ cs -> n_readers (node self w') !! c = Some RStart) /\
  step yield (TAccept self) w' = None /\
  peers (tcp self w') = peers (tcp self w) /\
  conns w' = conns w /\
  (forall i, i <> self -> node i w' = node i w).
Proof.
  intros Ha Hl Hp cs w'.
  destruct (accept_backlog yield self cs w Ha Hl Hp eq_refl) as (Hself & Hother & Hconns & _).
  fold w' in Hself, Hother, Hconns. clearbody w'.
  rewrite Hself. simpl. split; [done|]. split; [done|].
  split. { intros c Hc. by apply readers_started_member. }
  split. { unfold step. cbn [owner]. rewrite Hself. simpl. rewrite Hp.
           unfold handleIncomingConnections_step. rewrite Hself. simpl. rewrite Ha.
           fold (tcp self w). by rewrite Hl. }
  split. { unfold tcp. by rewrite Hself. }
  done.
Qed.

Lemma accept_loop_starts_a_reader_per_connection_witness :
  let w := (ConnectToPeer scenario.B "localhost:3000"
              (ConnectToPeer scenario.B "localhost:3000"
                 (scenario.started scenario.dirsA scenario.dirsB)).2).2 in
  let w' := run_schedule scenario.idle [TAccept scenario.A; TAccept scenario.A] w in
  n_backlog (node scenario.A w) = [1; 3]%nat /\
  n_readers (node scenario.A w') !! 1%nat = Some RStart /\
  n_readers (node scenario.A w') !! 3%nat = Some RStart /\
  step scenario.idle (TAccept scenario.A) w' = None.
Proof.
  cbv zeta.
  destruct (accept_loop_starts_a_reader_per_connection scenario.idle scenario.A
              (ConnectToPeer scenario.B "localhost:3000"
                 (ConnectToPeer scenario.B "localhost:3000"
                    (scenario.started scenario.dirsA scenario.dirsB)).2).2)
    as (_ & _ & Hin & Hblock & _).
  - vm_compute. reflexivity.
  - vm_compute. reflexivity.
  - vm_compute. reflexivity.
  - assert (Hb : n_backlog (node scenario.A
                   (ConnectToPeer scenario.B "localhost:3000"
                      (ConnectToPeer scenario.B "localhost:3000"
                         (scenario.started scenario.dirsA scenario.dirsB)).2).2) = [1; 3]%nat)
      by (vm_compute; reflexivity).
    cbv zeta in Hin, Hblock. rewrite Hb in Hin, Hblock.
    split; [exact Hb|].
    split; [apply Hin; apply list_elem_of_In; simpl; auto|].
    split; [apply Hin; apply list_elem_of_In; simpl; auto | exact Hblock].
Defined.

(* ===================================================================== *)
(** ** After Shutdown *)
(* ===================================================================== *)

Section ShutdownMore.
Implicit Types (w : World) (self i c : nat).


Lemma node_listener_Close self w i :
  node i (listener_Close self w) =
    if decide (self = i) then set_transport (set_listener LClosed (tcp self w)) (node self w)
    else node i w.
Proof. unfold listener_Close. change (node i (set_bound ?b ?x)) with (node i x).
       apply node_upd_tcp. Qed.

(** What [Shutdown] leaves of each process when the queue was open. *)
Lemma Shutdown_nodes self w :
  ch_closed (messageCh (tcp self w)) = false ->
  (Shutdown self w).1 = Returned None /\
  node self (Shutdown self w).2 =
    set_transport
      (set_messageCh {| ch_buf := ch_buf (messageCh (tcp self w)); ch_closed := true |}
         (listener_closed (tcp self w)))
      (node self w) /\
  (forall i, i <> self -> node i (Shutdown self w).2 = node i w) /\
  resolve (Shutdown self w).2 = resolve w /\
  next_conn (Shutdown self w).2 = next_conn w /\
  (forall c, is_Some (conns (Shutdown self w).2 !! c) <-> is_Some (conns w !! c)).
Proof.
  intros Hopen. unfold Shutdown.
  set (w1 := match listener (tcp self w) with LNil => w | _ => listener_Close self w end).
  assert (H1 : node self w1 = set_transport (listener_closed (tcp self w)) (node self w) /\
               (forall i, i <> self -> node i w1 = node i w) /\
               conns w1 = conns w /\ resolve w1 = resolve w /\ next_conn w1 = next_conn w).
  { subst w1. unfold listener_closed.
    destruct (listener (tcp self w)) eqn:Hl.
    - split; [unfold tcp; by destruct (node self w)|]. by repeat split.
    - rewrite node_listener_Close, decide_True by done. split; [done|].
      split; [|by repeat split].
      intros i Hi. by rewrite node_listener_Close, decide_False.
    - rewrite node_listener_Close, decide_True by done. split; [done|].
      split; [|by repeat split].
      intros i Hi. by rewrite node_listener_Close, decide_False. }
  destruct H1 as (Hs1 & Ho1 & Hc1 & Hr1 & Hn1).
  set (l := map_to_list (peers (tcp self w1))).
  pose proof (close_all l w1) as Hall. cbv zeta in Hall.
  set (w2 := foldr (fun kv => conn_Close kv.2) w1 l) in *.
  destruct Hall as (Hn2 & Hb2 & Hnone & Hmono & Hclosed).
  assert (Hnode2 : forall i, node i w2 = node i w1).
  { intros i. unfold node. by rewrite Hn2. }
  assert (Htcp2 : tcp self w2 = listener_closed (tcp self w)).
  { unfold tcp. by rewrite Hnode2, Hs1. }
  assert (Hch : messageCh (listener_closed (tcp self w)) = messageCh (tcp self w)).
  { unfold listener_closed. by destruct (listener (tcp self w)). }
  rewrite Htcp2, Hch, Hopen. simpl.
  split; [reflexivity|].
  split. { rewrite node_upd_tcp, decide_True by done. rewrite Htcp2, Hnode2, Hs1.
           reflexivity. }
  split. { intros i Hi. rewrite node_upd_tcp, decide_False by done.
           rewrite Hnode2. by apply Ho1. }
  assert (Hfold : forall l0, resolve (foldr (fun kv : string * nat => conn_Close kv.2) w1 l0)
                             = resolve w1 /\
                             next_conn (foldr (fun kv : string * nat => conn_Close kv.2) w1 l0)
                             = next_conn w1 /\
                             forall c, is_Some (conns (foldr (fun kv : string * nat =>
                                                                conn_Close kv.2) w1 l0) !! c)
                                       <-> is_Some (conns w1 !! c)).
  { induction l0 as [|kv l0 IH]; simpl; [done|].
    destruct IH as (IH1 & IH2 & IH3).
    set (x := foldr _ w1 l0) in *.
    unfold conn_Close. destruct (conns x !! kv.2) as [ep|]; [|done].
    destruct (ep_closed ep); [done|].
    split; [exact IH1|]. split; [exact IH2|].
    intros c. unfold upd_conn. simpl. rewrite !lookup_alter_is_Some. apply IH3. }
  destruct (Hfold l) as (Hr2 & Hnc2 & Hdom2). fold w2 in Hr2, Hnc2, Hdom2.
  split. { change (resolve (upd_tcp self ?f w2)) with (resolve w2). by rewrite Hr2. }
  split. { change (next_conn (upd_tcp self ?f w2)) with (next_conn w2). by rewrite Hnc2. }
  intros c. change (conns (upd_tcp self ?f w2)) with (conns w2).
  rewrite Hdom2, Hc1. done.
Qed.
End ShutdownMore.

Section ShutdownAfter.
Implicit Types (w : World) (self i c : nat).

Lemma Shutdown_bound self w :
  ch_closed (messageCh (tcp self w)) = false ->
  bound (Shutdown self w).2 =
    match listener (tcp self w) with
    | LNil => bound w
    | _ => filter (fun kv => kv.2 <> self) (bound w)
    end.
Proof.
  intros Hopen. unfold Shutdown.
  set (w1 := match listener (tcp self w) with LNil => w | _ => listener_Close self w end).
  pose proof (close_all (map_to_list (peers (tcp self w1))) w1) as Hall. cbv zeta in Hall.
  set (w2 := foldr (fun kv => conn_Close kv.2) w1 _) in *.
  destruct Hall as (Hn2 & Hb2 & _).
  assert (Hb : forall (a b : Outcome (option error) * World),
            bound a.2 = bound w2 -> bound b.2 = bound w2 ->
            bound (if ch_closed (messageCh (tcp self w2)) then a else b).2 = bound w2).
  { intros a b Ha Hb'. destruct (ch_closed (messageCh (tcp self w2))); assumption. }
  rewrite Hb by reflexivity. rewrite Hb2. subst w1. destruct (listener (tcp self w)); reflexivity.
Qed.

Lemma Shutdown_closed self w :
  ch_closed (messageCh (tcp self w)) = true ->
  (Shutdown self w).1 = Panicked "close of closed channel" /\
  n_panic (node self (Shutdown self w).2) = Some "close of closed channel".
Proof.
  intros Hcl. unfold Shutdown.
  set (w1 := match listener (tcp self w) with LNil => w | _ => listener_Close self w end).
  pose proof (close_all (map_to_list (peers (tcp self w1))) w1) as Hall. cbv zeta in Hall.
  set (w2 := foldr (fun kv => conn_Close kv.2) w1 _) in *.
  destruct Hall as (Hn2 & _).
  assert (Hch : messageCh (tcp self w2) = messageCh (tcp self w)).
  { unfold tcp at 1, node. rewrite Hn2. fold (node self w1). subst w1.
    destruct (listener (tcp self w)); [done | |];
      by rewrite node_listener_Close, decide_True. }
  rewrite Hch, Hcl. simpl. split; [reflexivity|].
  by rewrite node_upd_node_eq.
Qed.
End ShutdownAfter.

(** X20: [Shutdown] leaves the registry as it is, and a second
    [Shutdown] of the same transport panics with [close of closed channel]:
    the process is dead and none of its goroutines runs again. *)
Theorem Shutdown_twice_panics (yield : World -> World) (self : nat) (w : World) :
  ch_closed (messageCh (tcp self w)) = false ->
  let first := Shutdown self w in
  let second := Shutdown self first.2 in
  first.1 = Returned None /\
  peers (tcp self first.2) = peers (tcp self w) /\
  second.1 = Panicked "close of closed channel" /\
  n_panic (node self second.2) = Some "close of closed channel" /\
  (forall th, owner th = self -> step yield th second.2 = None).
Proof.
  intros Hopen first second.
  destruct (Shutdown_nodes self w Hopen) as (Hret & Hself & _).
  assert (Hcl : ch_closed (messageCh (tcp self first.2)) = true).
  { subst first. unfold tcp. by rewrite Hself. }
  destruct (Shutdown_closed self first.2 Hcl) as (Hpan & Hdead).
  split; [exact Hret|].
  split. { subst first. unfold tcp at 1. rewrite Hself. simpl. unfold listener_closed.
           by destruct (listener (tcp self w)). }
  split; [exact Hpan|]. split; [exact Hdead|].
  intros th <-. unfold step. fold second in Hdead. by rewrite Hdead.
Qed.

Lemma Shutdown_twice_panics_witness :
  (Shutdown scenario.A (Shutdown scenario.A (scenario.started scenario.dirsA scenario.dirsB)).2).1
    = Panicked "close of closed channel".
Proof.
  destruct (Shutdown_twice_panics scenario.idle scenario.A
              (scenario.started scenario.dirsA scenario.dirsB))
    as (_ & _ & H & _).
  - vm_compute. reflexivity.
  - exact H.
Defined.

(** X21: a reader that has decoded a message and not yet put it on
    the queue when [Shutdown] closes the queue panics at its send ([send on
    closed channel]): the message is not queued and the process is
    dead. *)
Theorem reader_send_after_Shutdown_panics (yield : World -> World) (self conn : nat)
    (w : World) (m : Message) :
  n_readers (node self w) !! conn = Some (RSend m) ->
  is_Some (conns w !! conn) ->
  ch_closed (messageCh (tcp self w)) = false ->
  n_panic (node self w) = None ->
  let w' := (Shutdown self w).2 in
  exists w'',
    step yield (TReader self conn) w' = Some w'' /\
    n_panic (node self w'') = Some "send on closed channel" /\
    ch_buf (messageCh (tcp self w'')) = ch_buf (messageCh (tcp self w)) /\
    (forall th, owner th = self -> step yield th w'' = None).
Proof.
  intros Hpc Hconn Hopen Hnp w'.
  destruct (Shutdown_nodes self w Hopen) as (_ & Hself & _ & _ & _ & Hdom).
  fold w' in Hself, Hdom. clearbody w'.
  apply Hdom in Hconn as [ep Hep].
  unfold step. cbn [owner]. rewrite Hself. simpl. rewrite Hnp.
  unfold managePeerConnection_step. rewrite Hself. simpl. rewrite Hpc, Hep.
  eexists. split; [reflexivity|].
  rewrite node_upd_node_eq. simpl. split; [reflexivity|].
  split.
  { unfold tcp at 1. rewrite node_upd_node_eq. simpl.
    fold (tcp self (managePeerConnection_return self conn (ep_remote ep) w')).
    rewrite tcp_return. simpl. unfold tcp. rewrite Hself. simpl.
    unfold listener_closed. by destruct (listener (n_transport (node self w))). }
  intros th <-. unfold step. by rewrite node_upd_node_eq.
Qed.

Lemma reader_send_after_Shutdown_panics_witness :
  let w := run_schedule scenario.idle [TReader scenario.A 1; TReader scenario.A 1]
             scenario.forged_sent in
  exists w'',
    step scenario.idle (TReader scenario.A 1) (Shutdown scenario.A w).2 = Some w'' /\
    n_panic (node scenario.A w'') = Some "send on closed channel".
Proof.
  cbv zeta.
  destruct (reader_send_after_Shutdown_panics scenario.idle scenario.A 1
              (run_schedule scenario.idle [TReader scenario.A 1; TReader scenario.A 1]
                 scenario.forged_sent)
              {| Type_ := MessageTypeFileRequest; From := "mallory";
                 FromAddr := "127.0.0.1:49152";
                 Payload_ := PFileRequest {| FileName := "greet.txt" |} |})
    as (w'' & Hs & Hp & _).
  - vm_compute. reflexivity.
  - vm_compute. eauto.
  - vm_compute. reflexivity.
  - vm_compute. reflexivity.
  - exists w''. split; [exact Hs | exact Hp].
Defined.

Section AcceptLoop.
Variable yield : World -> World.
Implicit Types (w : World) (self i : nat).

Lemma accept_on_closed_listener self w :
  n_accepting (node self w) = true ->
  listener (tcp self w) = LClosed ->
  n_panic (node self w) = None ->
  step yield (TAccept self) w =
    Some (logf self (accept_error (transport.listenAddr (tcp self w))) w).
Proof.
  intros Ha Hl Hp. unfold step. cbn [owner]. rewrite Hp.
  unfold handleIncomingConnections_step. rewrite Ha. fold (tcp self w). rewrite Hl.
  reflexivity.
Qed.

Lemma accept_spins self line w k :
  n_accepting (node self w) = true ->
  listener (tcp self w) = LClosed ->
  n_panic (node self w) = None ->
  line = accept_error (transport.listenAddr (tcp self w)) ->
  let wk := run_schedule yield (replicate k (TAccept self)) w in
  step yield (TAccept self) wk = Some (logf self line wk) /\
  node self wk =
    (let n := node self w in
     mkNode (n_peer n) (n_transport n) (n_backlog n) (n_accepting n) (n_readers n)
            (n_dispatch n) (n_fs n) (n_log n ++ replicate k line) (n_panic n)) /\
  (forall i, i <> self -> node i wk = node i w) /\
  conns wk = conns w /\ bound wk = bound w.
Proof.
  revert w. induction k as [|k IH]; intros w Ha Hl Hp Hline; cbn [replicate run_schedule].
  - cbv zeta. rewrite accept_on_closed_listener by done. rewrite <- Hline.
    split; [done|]. split; [rewrite app_nil_r; destruct (node self w); reflexivity|]. by split.
  - rewrite (accept_on_closed_listener self w) by done. rewrite <- Hline.
    assert (Hn : node self (logf self line w) = add_log line (node self w)).
    { by rewrite node_logf, decide_True. }
    destruct (IH (logf self line w)) as (Hstep & Hnode & Hother & Hconns & Hbound).
    + by rewrite Hn.
    + unfold tcp. by rewrite Hn.
    + by rewrite Hn.
    + unfold tcp. by rewrite Hn.
    + cbv zeta. split; [exact Hstep|].
      split. { rewrite Hnode, Hn. cbv zeta. simpl. by rewrite <- app_assoc. }
      split. { intros i Hi. rewrite Hother by done. by rewrite node_logf, decide_False. }
      done.
Qed.
End AcceptLoop.

(** X12: [Shutdown] does not end the accept loop. Once the listener is
    closed [Accept] fails at once, and the loop logs the error and
    continues: it is never blocked, every iteration adds one log line and
    changes nothing else, and connections still pending are never
    accepted. *)
Theorem accept_loop_spins_after_Shutdown (yield : World -> World) (self : nat)
    (w : World) (k : nat) :
  n_accepting (node self w) = true ->
  listener (tcp self w) = LOpen ->
  ch_closed (messageCh (tcp self w)) = false ->
  n_panic (node self w) = None ->
  let w' := (Shutdown self w).2 in
  let line := accept_error (transport.listenAddr (tcp self w)) in
  let wk := run_schedule yield (replicate k (TAccept self)) w' in
  step yield (TAccept self) wk = Some (logf self line wk) /\
  n_log (node self wk) = n_log (node self w) ++ replicate k line /\
  n_backlog (node self wk) = n_backlog (node self w) /\
  n_readers (node self wk) = n_readers (node self w) /\
  n_accepting (node self wk) = true /\
  conns wk = conns w'.
Proof.
  intros Ha Hl Hopen Hp w' line wk.
  destruct (Shutdown_nodes self w Hopen) as (_ & Hself & _).
  fold w' in Hself.
  assert (Htcp : tcp self w' =
                 set_messageCh {| ch_buf := ch_buf (messageCh (tcp self w)); ch_closed := true |}
                   (set_listener LClosed (tcp self w))).
  { unfold tcp at 1. rewrite Hself. simpl. unfold listener_closed. by rewrite Hl. }
  destruct (accept_spins yield self line w' k) as (Hstep & Hnode & _ & Hconns & _).
  - by rewrite Hself.
  - by rewrite Htcp.
  - by rewrite Hself.
  - by rewrite Htcp.
  - fold wk in Hstep, Hnode, Hconns. clearbody wk w'.
    split; [exact Hstep|]. rewrite Hnode, Hself. simpl.
    repeat split; try done.
Qed.

Lemma accept_loop_spins_after_Shutdown_witness :
  let w' := (Shutdown scenario.A (scenario.started scenario.dirsA scenario.dirsB)).2 in
  let wk := run_schedule scenario.idle (replicate 3 (TAccept scenario.A)) w' in
  step scenario.idle (TAccept scenario.A) wk <> None /\
  length (n_log (node scenario.A wk)) = 3%nat.
Proof.
  cbv zeta.
  destruct (accept_loop_spins_after_Shutdown scenario.idle scenario.A
              (scenario.started scenario.dirsA scenario.dirsB) 3)
    as (Hs & Hlog & _).
  - vm_compute. reflexivity.
  - vm_compute. reflexivity.
  - vm_compute. reflexivity.
  - vm_compute. reflexivity.
  - split; [rewrite Hs; discriminate|]. rewrite Hlog. vm_compute. reflexivity.
Defined.

(** X22: while a process listens at an address another process cannot
    listen there; after the [Shutdown] of the first, dials to the address
    are refused and [StartListening] of the other process succeeds and
    binds the address. *)
Theorem Shutdown_releases_address (self other : nat) (w : World) :
  other <> self ->
  listener (tcp self w) <> LNil ->
  ch_closed (messageCh (tcp self w)) = false ->
  bound w !! resolve w (transport.listenAddr (tcp other w)) = Some self ->
  let canon := resolve w (transport.listenAddr (tcp other w)) in
  let w' := (Shutdown self w).2 in
  (StartListening other w).1 <> None /\
  (forall i a, resolve w a = canon -> exists e, (net_Dial i a w').1 = Err e) /\
  (StartListening other w').1 = None /\
  bound (StartListening other w').2 !! canon = Some other.
Proof.
  intros Hne Hl Hopen Hb canon w'.
  destruct (Shutdown_nodes self w Hopen) as (_ & _ & Hother & Hres & _).
  pose proof (Shutdown_bound self w Hopen) as Hbound.
  fold w' in Hother, Hres, Hbound. clearbody w'.
  assert (Hfree : bound w' !! canon = None).
  { rewrite Hbound. destruct (listener (tcp self w)); [done | |];
      apply map_lookup_filter_None; right; intros x Hx; fold canon in Hb;
      rewrite Hb in Hx; injection Hx as <-; simpl; tauto. }
  assert (Haddr : transport.listenAddr (tcp other w') = transport.listenAddr (tcp other w)).
  { unfold tcp. by rewrite Hother. }
  split.
  { unfold StartListening. destruct (net_Listen_taken other _ w self Hb) as [e ->].
    simpl. discriminate. }
  split.
  { intros i a Ha. unfold net_Dial. rewrite Hres, Ha, Hfree. simpl. eauto. }
  unfold StartListening. rewrite Haddr.
  rewrite net_Listen_free by (rewrite Hres; exact Hfree).
  simpl. split; [reflexivity|]. rewrite Hres. apply lookup_insert_eq.
Qed.

Lemma Shutdown_releases_address_witness :
  let w := scenario.started scenario.dirsA scenario.dirsB in
  let C := 2%nat in
  let w3 := upd_node C (fun _ => new_node scenario.peerA scenario.dirsA) w in
  (StartListening C w3).1 <> None /\
  (StartListening C (Shutdown scenario.A w3).2).1 = None.
Proof.
  cbv zeta.
  destruct (Shutdown_releases_address scenario.A 2
              (upd_node 2 (fun _ => new_node scenario.peerA scenario.dirsA)
                 (scenario.started scenario.dirsA scenario.dirsB)))
    as (H1 & _ & H2 & _).
  - discriminate.
  - vm_compute. discriminate.
  - vm_compute. reflexivity.
  - vm_compute. reflexivity.
  - split; [exact H1 | exact H2].
Defined.

(* ===================================================================== *)
(** ** Dialling *)
(* ===================================================================== *)

(** X13: when nothing listens at the address, [ConnectToPeer] returns the
    dial error wrapped as [dial failed: ...], and apart from the log line
    it wrote first nothing changes: no connection, no registry entry, no
    reader. [Send] to such an unregistered address returns that error
    wrapped once more and does not wait the 100ms. *)
Theorem ConnectToPeer_refused (yield : World -> World) (self : nat) (addr : string)
    (msg : Message) (w : World) :
  bound w !! resolve w addr = None ->
  let w' := logf self ("Connecting to peer at " +:+ addr) w in
  exists e,
    (net_Dial self addr w').1 = Err e /\
    ConnectToPeer self addr w = (Some (errorString ("dial failed: " +:+ Error e)), w') /\
    peers (tcp self w') = peers (tcp self w) /\
    n_readers (node self w') = n_readers (node self w) /\
    conns w' = conns w /\ next_conn w' = next_conn w /\
    (peers (tcp self w) !! addr = None ->
       Send yield self addr msg w =
         (Some (errorString ("failed to connect to peer " +:+ addr +:+
                             ": dial failed: " +:+ Error e)), w') /\
       clock w' = clock w).
Proof.
  intros Hfree w'.
  assert (Hd : net_Dial self addr w' =
               (Err (errorString ("dial tcp " +:+ addr +:+ ": connect: connection refused")),
                w')).
  { unfold net_Dial. change (resolve w') with (resolve w). change (bound w') with (bound w).
    by rewrite Hfree. }
  eexists. split; [by rewrite Hd|].
  assert (Hc : ConnectToPeer self addr w =
               (Some (errorString ("dial failed: " +:+
                        Error (errorString ("dial tcp " +:+ addr +:+
                                            ": connect: connection refused")))), w')).
  { unfold ConnectToPeer. fold w'. by rewrite Hd. }
  split; [exact Hc|].
  split. { subst w'. by rewrite tcp_logf. }
  split. { subst w'. by rewrite node_logf, decide_True. }
  split; [reflexivity|]. split; [reflexivity|].
  intros Hreg. unfold Send. rewrite Hreg, Hc. simpl. split; reflexivity.
Qed.

Lemma ConnectToPeer_refused_witness :
  let w := scenario.initial scenario.dirsA scenario.dirsB in
  (exists e, (ConnectToPeer scenario.B "localhost:3000" w).1 =
             Some (errorString ("dial failed: " +:+ Error e))) /\
  peers (tcp scenario.B (ConnectToPeer scenario.B "localhost:3000" w).2) = ∅.
Proof.
  cbv zeta.
  destruct (ConnectToPeer_refused scenario.idle scenario.B "localhost:3000"
              (scenario.request "greet.txt")
              (scenario.initial scenario.dirsA scenario.dirsB))
    as (e & _ & Hc & Hp & _).
  - vm_compute. reflexivity.
  - rewrite Hc. split; [by exists e|]. simpl. rewrite Hp. vm_compute. reflexivity.
Defined.

(** X14: when a process listens at the address, [ConnectToPeer] returns
    nil, establishes a new connection whose remote address is the resolved
    address, registers it under the dialled string, replacing any earlier
    entry for that string, starts a reader for it and leaves the server end
    in the listener's backlog. Every connection that existed stays as it
    was (an entry it replaces is not closed) and every other reader is
    untouched; the world stays well-formed. *)
Theorem ConnectToPeer_registers (self srv : nat) (addr : string) (w : World) :
  well_formed w = true ->
  bound w !! resolve w addr = Some srv ->
  let c := next_conn w in
  let r := ConnectToPeer self addr w in
  r.1 = None /\
  peers (tcp self r.2) = <[addr := c]> (peers (tcp self w)) /\
  n_readers (node self r.2) = <[c := RStart]> (n_readers (node self w)) /\
  conns r.2 !! c =
    Some {| ep_owner := self; ep_remote := resolve w addr; ep_link := S c;
            ep_inbox := []; ep_closed := false; ep_eof := false |} /\
  n_backlog (node srv r.2) = n_backlog (node srv w) ++ [S c] /\
  (forall c0, is_Some (conns w !! c0) -> conns r.2 !! c0 = conns w !! c0) /\
  (forall c0, c0 <> c -> n_readers (node self r.2) !! c0 = n_readers (node self w) !! c0) /\
  well_formed r.2 = true.
Proof.
  intros Hwf Hb c r.
  assert (HWF : WF w) by (by apply well_formed_WF).
  assert (Hwf' : well_formed r.2 = true).
  { apply well_formed_WF. subst r. by apply WF_ConnectToPeer. }
  set (w0 := logf self ("Connecting to peer at " +:+ addr) w).
  set (w1 := upd_node srv (fun n => set_backlog (n_backlog n ++ [S c]) n)
               {| nodes := nodes w0;
                  conns := <[c := {| ep_owner := self; ep_remote := resolve w addr;
                                     ep_link := S c; ep_inbox := []; ep_closed := false;
                                     ep_eof := false |}]>
                             (<[S c := {| ep_owner := srv;
                                          ep_remote := ephemeral (next_port w);
                                          ep_link := c; ep_inbox := []; ep_closed := false;
                                          ep_eof := false |}]> (conns w));
                  bound := bound w; resolve := resolve w;
                  next_conn := S (S c); next_port := (next_port w + 1)%N;
                  clock := clock w |}).
  assert (Heq : r = (None,
                     spawn_reader self c
                       (logf self ("Connected to peer at " +:+ addr)
                          (upd_tcp self (fun t => set_peers (<[addr := c]> (peers t)) t) w1)))).
  { subst r. unfold ConnectToPeer, net_Dial. fold w0.
    change (resolve w0) with (resolve w). change (bound w0) with (bound w).
    rewrite Hb. reflexivity. }
  clearbody r. subst r. cbn [fst snd] in *.
  assert (Hn0 : forall i, node i w0 =
                  if decide (self = i)
                  then add_log ("Connecting to peer at " +:+ addr) (node self w)
                  else node i w).
  { intros i. apply node_logf. }
  assert (Hn1 : forall i, node i w1 =
                  if decide (srv = i) then set_backlog (n_backlog (node srv w0) ++ [S c])
                                             (node srv w0)
                  else node i w0).
  { intros i. subst w1. rewrite node_upd_node. destruct (decide (srv = i)); [|done].
    unfold node at 1 2. simpl. reflexivity. }
  split; [reflexivity|].
  split.
  { unfold spawn_reader. rewrite tcp_upd_node_same by done.
    rewrite tcp_logf, tcp_upd_tcp. simpl. f_equal.
    unfold tcp. rewrite Hn1, Hn0.
    destruct (decide (srv = self)) as [->|]; rewrite ?Hn0;
      rewrite ?decide_True by done; reflexivity. }
  split.
  { unfold spawn_reader. rewrite node_upd_node_eq. simpl. f_equal.
    rewrite node_logf, decide_True by done. simpl.
    rewrite node_upd_tcp, decide_True by done. simpl.
    rewrite Hn1, Hn0. destruct (decide (srv = self)) as [->|]; rewrite ?Hn0;
      rewrite ?decide_True by done; reflexivity. }
  split.
  { unfold spawn_reader. change (conns (upd_node ?a ?f ?x)) with (conns x).
    change (conns (logf ?a ?l ?x)) with (conns x).
    change (conns (upd_tcp ?a ?f ?x)) with (conns x).
    subst w1. change (conns (upd_node ?a ?f ?x)) with (conns x). simpl.
    apply lookup_insert_eq. }
  split.
  { unfold spawn_reader.
    rewrite node_upd_node. destruct (decide (self = srv)) as [->|Hne].
    - simpl. rewrite node_logf, decide_True by done. simpl.
      rewrite node_upd_tcp, decide_True by done. simpl.
      rewrite Hn1, decide_True by done. simpl. rewrite Hn0, decide_True by done. done.
    - rewrite node_logf, decide_False by done.
      rewrite node_upd_tcp, decide_False by done.
      rewrite Hn1, decide_True by done. simpl. rewrite Hn0, decide_False by done. done. }
  split.
  { intros c0 Hsome. unfold spawn_reader.
    change (conns (upd_node ?a ?f ?x)) with (conns x).
    change (conns (logf ?a ?l ?x)) with (conns x).
    change (conns (upd_tcp ?a ?f ?x)) with (conns x).
    subst w1. change (conns (upd_node ?a ?f ?x)) with (conns x). simpl.
    assert (Hlt : (c0 < c)%nat).
    { apply (wf_conns w HWF). unfold remote_of. destruct Hsome as [ep ->]. simpl. eauto. }
    rewrite !lookup_insert_ne by lia. reflexivity. }
  split; [|exact Hwf'].
  intros c0 Hc0. unfold spawn_reader. rewrite node_upd_node_eq. simpl.
  rewrite lookup_insert_ne by done.
  rewrite node_logf, decide_True by done. simpl.
  rewrite node_upd_tcp, decide_True by done. simpl.
  rewrite Hn1, Hn0. destruct (decide (srv = self)) as [->|]; rewrite ?Hn0;
    rewrite ?decide_True by done; reflexivity.
Qed.

Lemma ConnectToPeer_registers_witness :
  let w := (ConnectToPeer scenario.B "localhost:3000"
              (scenario.started scenario.dirsA scenario.dirsB)).2 in
  let r := ConnectToPeer scenario.B "localhost:3000" w in
  peers (tcp scenario.B w) !! "localhost:3000" = Some 0%nat /\
  peers (tcp scenario.B r.2) !! "localhost:3000" = Some 2%nat /\
  ep_closed <$> conns r.2 !! 0%nat = Some false /\
  n_readers (node scenario.B r.2) !! 0%nat = Some RStart.
Proof.
  cbv zeta.
  destruct (ConnectToPeer_registers scenario.B scenario.A "localhost:3000"
              (ConnectToPeer scenario.B "localhost:3000"
                 (scenario.started scenario.dirsA scenario.dirsB)).2)
    as (_ & Hp & _ & _ & _ & Hc & Hr & _).
  - vm_compute. reflexivity.
  - vm_compute. reflexivity.
  - split; [vm_compute; reflexivity|].
    split. { rewrite Hp. vm_compute. reflexivity. }
    split. { rewrite Hc by (vm_compute; eauto). vm_compute. reflexivity. }
    rewrite Hr by (vm_compute; discriminate). vm_compute. reflexivity.
Defined.

(** X15: [Send] to an address that is not registered and at which a
    process listens dials, sleeps 100ms and writes the message on the new
    connection, provided nothing touches the new connection and the
    registry entry during the sleep: it returns nil, the address is
    registered, the message is the one frame waiting at the server end,
    and at least 100ms have passed. *)
Theorem Send_dials_an_unregistered_address (yield : World -> World) (self srv : nat)
    (addr : string) (msg : Message) (w : World) :
  peers (tcp self w) !! addr = None ->
  bound w !! resolve w addr = Some srv ->
  (forall w0, peers (tcp self (yield w0)) !! addr = peers (tcp self w0) !! addr) ->
  (forall w0 k, (next_conn w <= k)%nat -> conns (yield w0) !! k = conns w0 !! k) ->
  (forall w0, (clock w0 <= clock (yield w0))%Z) ->
  let c := next_conn w in
  let r := Send yield self addr msg w in
  r.1 = None /\
  peers (tcp self r.2) !! addr = Some c /\
  conns r.2 !! c =
    Some {| ep_owner := self; ep_remote := resolve w addr; ep_link := S c;
            ep_inbox := []; ep_closed := false; ep_eof := false |} /\
  conns r.2 !! S c =
    Some {| ep_owner := srv; ep_remote := ephemeral (next_port w); ep_link := c;
            ep_inbox := [Encode msg]; ep_closed := false; ep_eof := false |} /\
  (clock w + 100 * Millisecond <= clock r.2)%Z.
Proof.
  intros Hreg Hb Hypeers Hyconns Hyclock c r.
  pose proof (ConnectToPeer_dial self addr w) as Hdial. cbv zeta in Hdial.
  set (w0 := logf self ("Connecting to peer at " +:+ addr) w) in *.
  assert (Hd : net_Dial self addr w0 =
               (Ok c, upd_node srv (fun n => set_backlog (n_backlog n ++ [S c]) n)
                        {| nodes := nodes w0;
                           conns := <[c := {| ep_owner := self; ep_remote := resolve w addr;
                                              ep_link := S c; ep_inbox := [];
                                              ep_closed := false; ep_eof := false |}]>
                                      (<[S c := {| ep_owner := srv;
                                                   ep_remote := ephemeral (next_port w);
                                                   ep_link := c; ep_inbox := [];
                                                   ep_closed := false; ep_eof := false |}]>
                                         (conns w));
                           bound := bound w; resolve := resolve w;
                           next_conn := S (S c); next_port := (next_port w + 1)%N;
                           clock := clock w |})).
  { unfold net_Dial. change (resolve w0) with (resolve w). change (bound w0) with (bound w).
    by rewrite Hb. }
  rewrite Hd in Hdial. cbn [fst] in Hdial. destruct Hdial as (Hok & Hpeers & _).
  assert (Hconns1 : conns (ConnectToPeer self addr w).2 =
                    <[c := {| ep_owner := self; ep_remote := resolve w addr;
                              ep_link := S c; ep_inbox := [];
                              ep_closed := false; ep_eof := false |}]>
                      (<[S c := {| ep_owner := srv;
                                   ep_remote := ephemeral (next_port w);
                                   ep_link := c; ep_inbox := [];
                                   ep_closed := false; ep_eof := false |}]>
                         (conns w))).
  { unfold ConnectToPeer. fold w0. rewrite Hd. reflexivity. }
  assert (Hclock1 : clock (ConnectToPeer self addr w).2 = clock w).
  { unfold ConnectToPeer. fold w0. rewrite Hd. reflexivity. }
  subst r. unfold Send. rewrite Hreg.
  destruct (ConnectToPeer self addr w) as [cerr w1]. cbn [fst snd] in *. subst cerr.
  set (w2 := Sleep yield (100 * Millisecond) w1).
  assert (Hp2 : peers (tcp self w2) !! addr = Some c).
  { subst w2. unfold Sleep. rewrite Hypeers. exact Hpeers. }
  assert (Hc2 : forall k, (c <= k)%nat -> conns w2 !! k = conns w1 !! k).
  { intros k Hk. subst w2. unfold Sleep. by rewrite Hyconns. }
  assert (Hclock2 : (clock w + 100 * Millisecond <= clock w2)%Z).
  { subst w2. unfold Sleep. etrans; [|apply Hyclock]. simpl. rewrite Hclock1.
    unfold Millisecond. lia. }
  rewrite Hp2. unfold conn_Encode.
  rewrite (Hc2 c) by lia. rewrite Hconns1, lookup_insert_eq. simpl.
  split; [reflexivity|]. split; [exact Hp2|].
  unfold upd_conn. simpl. rewrite !lookup_alter.
  rewrite decide_False by lia. rewrite decide_True by done.
  rewrite (Hc2 c) by lia. rewrite (Hc2 (S c)) by lia.
  rewrite Hconns1, lookup_insert_eq. rewrite lookup_insert_ne by lia.
  rewrite lookup_insert_eq. simpl.
  split; [reflexivity|]. split; [reflexivity|]. exact Hclock2.
Qed.

Lemma Send_dials_an_unregistered_address_witness :
  let w := scenario.started scenario.dirsA scenario.dirsB in
  let r := Send scenario.idle scenario.B "localhost:3000" (scenario.request "greet.txt") w in
  r.1 = None /\ peers (tcp scenario.B r.2) !! "localhost:3000" = Some 0%nat /\
  (100 * Millisecond <= clock r.2)%Z.
Proof.
  cbv zeta.
  destruct (Send_dials_an_unregistered_address scenario.idle scenario.B scenario.A
              "localhost:3000" (scenario.request "greet.txt")
              (scenario.started scenario.dirsA scenario.dirsB))
    as (Hok & Hreg & _ & _ & Hclock).
  - vm_compute. reflexivity.
  - vm_compute. reflexivity.
  - reflexivity.
  - reflexivity.
  - intros w0. unfold scenario.idle. lia.
  - split; [exact Hok|]. split; [exact Hreg|]. exact Hclock.
Defined.

(* ===================================================================== *)
(** ** The reader and its message struct *)
(* ===================================================================== *)

Section ReaderLoop.
Implicit Types (w : World) (self conn : nat).

Lemma Decode_fresh m : Decode (Encode m) zeroMessage = Ok m.
Proof.
  destruct m as [ty from fromAddr pay]. unfold Decode, Encode. simpl. f_equal.
  destruct (decide (ty = 0%Z)) as [->|]; destruct (decide (from = EmptyString)) as [->|];
    destruct (decide (fromAddr = EmptyString)) as [->|]; destruct pay; reflexivity.
Qed.

Lemma managePeerConnection_run_blocked fuel self conn w :
  managePeerConnection_step self conn w = None ->
  managePeerConnection_run fuel self conn w = w.
Proof. intros H. destruct fuel; simpl; [done|]. by rewrite H. Qed.

Lemma managePeerConnection_run_add a b self conn : forall w,
  managePeerConnection_run (a + b) self conn w =
    managePeerConnection_run b self conn (managePeerConnection_run a self conn w).
Proof.
  induction a as [|a IH]; intros w; simpl; [done|].
  destruct (managePeerConnection_step self conn w) as [w1|] eqn:Hs; [apply IH|].
  by rewrite managePeerConnection_run_blocked.
Qed.

(** Two steps of a reader in its loop: a [Decode] that succeeds and the
    send on the channel, which has room. *)
Lemma reader_decode_send self conn w ep prev m rest :
  n_readers (node self w) !! conn = Some (RDecode prev) ->
  conns w !! conn = Some ep ->
  ep_closed ep = false ->
  ep_inbox ep = Encode m :: rest ->
  ch_closed (messageCh (tcp self w)) = false ->
  (length (ch_buf (messageCh (tcp self w))) < messageCh_cap)%nat ->
  exists d,
    Decode (Encode m) prev = Ok d /\
    let got := stamp (ep_remote ep) d in
    let w2 := managePeerConnection_run 2 self conn w in
    n_readers (node self w2) = <[conn := RDecode got]> (n_readers (node self w)) /\
    conns w2 = <[conn := set_inbox rest ep]> (conns w) /\
    tcp self w2 =
      set_messageCh {| ch_buf := ch_buf (messageCh (tcp self w)) ++ [got];
                       ch_closed := false |} (tcp self w) /\
    n_fs (node self w2) = n_fs (node self w) /\
    n_panic (node self w2) = n_panic (node self w) /\
    (forall i, i <> self -> node i w2 = node i w).
Proof.
  intros Hpc Hep Hcl Hin Hopen Hroom.
  destruct (Decode (Encode m) prev) as [d|e] eqn:Hd; [|discriminate].
  exists d. split; [reflexivity|]. intros got w2. subst w2.
  cbn [managePeerConnection_run].
  set (w1 := set_pc self conn (RSend got) (upd_conn conn (set_inbox rest) w)).
  assert (Hs1 : managePeerConnection_step self conn w = Some w1).
  { unfold managePeerConnection_step. by rewrite Hpc, Hep, Hcl, Hin, Hd. }
  rewrite Hs1.
  assert (Hpc1 : n_readers (node self w1) !! conn = Some (RSend got)).
  { subst w1. apply readers_set_pc. }
  assert (Hep1 : conns w1 !! conn = Some (set_inbox rest ep)).
  { subst w1. unfold set_pc, upd_conn. simpl. by rewrite lookup_alter_eq, Hep. }
  assert (Htcp1 : tcp self w1 = tcp self w).
  { subst w1. by rewrite tcp_set_pc. }
  unfold managePeerConnection_step. rewrite Hpc1, Hep1. fold (tcp self w1).
  rewrite Htcp1, Hopen. rewrite decide_True by exact Hroom.
  assert (Hn1 : node self w1 =
                set_readers (<[conn := RSend got]> (n_readers (node self w))) (node self w)).
  { subst w1. unfold set_pc. by rewrite node_upd_node_eq. }
  split.
  { unfold set_pc. rewrite node_upd_node_eq. simpl. rewrite node_upd_tcp, decide_True by done.
    simpl. rewrite Hn1. simpl. apply insert_insert_eq. }
  split.
  { subst w1. unfold set_pc, upd_tcp, upd_conn. simpl.
    apply map_eq. intros c. rewrite lookup_alter.
    destruct (decide (conn = c)) as [<-|Hne].
    - by rewrite lookup_insert_eq, Hep.
    - by rewrite lookup_insert_ne. }
  split. { by rewrite tcp_set_pc, tcp_upd_tcp, Htcp1. }
  split. { unfold set_pc. rewrite node_upd_node_eq. simpl. rewrite n_fs_upd_tcp.
           by rewrite Hn1. }
  split. { unfold set_pc. rewrite node_upd_node_eq. simpl.
           rewrite node_upd_tcp, decide_True by done. simpl. by rewrite Hn1. }
  intros i Hi. unfold set_pc. rewrite node_upd_node_ne by done.
  rewrite node_upd_tcp, decide_False by done.
  subst w1. unfold set_pc. by rewrite node_upd_node_ne.
Qed.

End ReaderLoop.

Section ReaderLoopMore.
Implicit Types (w : World) (self conn : nat).

(** The first step of a reader: it registers its connection under the
    remote address. *)
Lemma reader_registers self conn w ep :
  n_readers (node self w) !! conn = Some RStart ->
  conns w !! conn = Some ep ->
  let w1 := managePeerConnection_run 1 self conn w in
  n_readers (node self w1) !! conn = Some (RDecode zeroMessage) /\
  conns w1 = conns w /\
  tcp self w1 = set_peers (<[ep_remote ep := conn]> (peers (tcp self w))) (tcp self w).
Proof.
  intros Hpc Hep. cbn [managePeerConnection_run].
  unfold managePeerConnection_step. rewrite Hpc, Hep.
  split; [apply readers_set_pc|]. split; [reflexivity|].
  by rewrite tcp_set_pc, tcp_upd_tcp, tcp_logf.
Qed.
End ReaderLoopMore.

(** X17: the reader decodes every message of a connection into the same
    message struct. The message it queues has the decoded type, sender and
    payload where the wire carries them, and where the wire carries none
    (gob omits zero values: type 0, empty sender, nil payload) it has the
    values the struct held, that is those of the message queued before on
    this connection. The struct then holds the queued message. *)
Theorem reader_keeps_fields_of_previous_message (self conn : nat) (w : World)
    (ep : Endpoint) (prev b : Message) (rest : list Frame) :
  n_readers (node self w) !! conn = Some (RDecode prev) ->
  conns w !! conn = Some ep ->
  ep_closed ep = false ->
  ep_inbox ep = Encode b :: rest ->
  ch_closed (messageCh (tcp self w)) = false ->
  (length (ch_buf (messageCh (tcp self w))) < messageCh_cap)%nat ->
  let w' := managePeerConnection_run 2 self conn w in
  exists qb,
    ch_buf (messageCh (tcp self w')) = ch_buf (messageCh (tcp self w)) ++ [qb] /\
    n_readers (node self w') !! conn = Some (RDecode qb) /\
    FromAddr qb = ep_remote ep /\
    Type_ qb = (if decide (Type_ b = 0%Z) then Type_ prev else Type_ b) /\
    From qb = (if decide (From b = EmptyString) then From prev else From b) /\
    Payload_ qb = match Payload_ b with PNil => Payload_ prev | p => p end.
Proof.
  intros Hpc Hep Hcl Hin Hopen Hroom w'.
  destruct (reader_decode_send self conn w ep prev b rest Hpc Hep Hcl Hin Hopen Hroom)
    as (d & Hd & Hr & _ & Ht & _).
  cbv zeta in Hr, Ht. fold w' in Hr, Ht. clearbody w'.
  exists (stamp (ep_remote ep) d).
  split. { by rewrite Ht. }
  split. { rewrite Hr. apply lookup_insert_eq. }
  injection Hd as <-. simpl. repeat split; reflexivity.
Qed.

Lemma reader_keeps_fields_of_previous_message_witness :
  let empty := {| Type_ := MessageTypeFileRequest; From := EmptyString;
                  FromAddr := EmptyString; Payload_ := PNil |} in
  let w := (conn_Encode 0 empty (managePeerConnection_run 3 scenario.A 1
                                   scenario.forged_sent)).2 in
  exists qb,
    ch_buf (messageCh (tcp scenario.A (managePeerConnection_run 2 scenario.A 1 w))) =
      [stamp "127.0.0.1:49152" scenario.forged; qb] /\
    Payload_ qb = PFileRequest {| FileName := "greet.txt" |} /\
    From qb = "mallory".
Proof.
  cbv zeta.
  destruct (reader_keeps_fields_of_previous_message scenario.A 1
              (conn_Encode 0 {| Type_ := MessageTypeFileRequest; From := EmptyString;
                                FromAddr := EmptyString; Payload_ := PNil |}
                 (managePeerConnection_run 3 scenario.A 1 scenario.forged_sent)).2
              {| ep_owner := scenario.A; ep_remote := "127.0.0.1:49152"; ep_link := 0;
                 ep_inbox := [Encode {| Type_ := MessageTypeFileRequest;
                                        From := EmptyString; FromAddr := EmptyString;
                                        Payload_ := PNil |}];
                 ep_closed := false; ep_eof := false |}
              (stamp "127.0.0.1:49152" scenario.forged)
              {| Type_ := MessageTypeFileRequest; From := EmptyString;
                 FromAddr := EmptyString; Payload_ := PNil |} [])
    as (qb & Hbuf & _ & _ & _ & Hfrom & Hpay).
  - vm_compute. reflexivity.
  - vm_compute. reflexivity.
  - reflexivity.
  - reflexivity.
  - vm_compute. reflexivity.
  - vm_compute. lia.
  - exists qb. split; [|split; [exact Hpay | exact Hfrom]].
    cbv zeta in Hbuf. rewrite Hbuf.
    assert (Hq : ch_buf (messageCh (tcp scenario.A
                   (conn_Encode 0 {| Type_ := MessageTypeFileRequest; From := EmptyString;
                                     FromAddr := EmptyString; Payload_ := PNil |}
                      (managePeerConnection_run 3 scenario.A 1 scenario.forged_sent)).2)) =
                 [stamp "127.0.0.1:49152" scenario.forged]) by (vm_compute; reflexivity).
    rewrite Hq. reflexivity.
Defined.

(** X16: a message encoded on one end of a connection and decoded by
    the reader of the other end into its fresh message struct is put on the
    queue as it was sent, except that [FromAddr] is the remote address of
    the receiving end: decoding what [Encode] wrote into a zero message
    gives the message back. *)
Theorem encoded_message_arrives (self c conn : nat) (w : World) (epc ep : Endpoint)
    (m : Message) :
  conns w !! c = Some epc ->
  ep_closed epc = false ->
  ep_link epc = conn ->
  conns w !! conn = Some ep ->
  ep_closed ep = false ->
  ep_inbox ep = [] ->
  n_readers (node self w) !! conn = Some (RDecode zeroMessage) ->
  ch_closed (messageCh (tcp self w)) = false ->
  (length (ch_buf (messageCh (tcp self w))) < messageCh_cap)%nat ->
  let sent := conn_Encode c m w in
  let w' := managePeerConnection_run 2 self conn sent.2 in
  sent.1 = None /\
  ch_buf (messageCh (tcp self w')) =
    ch_buf (messageCh (tcp self w)) ++ [stamp (ep_remote ep) m] /\
  ep_inbox <$> conns w' !! conn = Some [] /\
  Decode (Encode m) zeroMessage = Ok m.
Proof.
  intros Hc Hclc Hlink Hep Hcl Hin Hpc Hopen Hroom sent w'.
  assert (Hsent : sent = (None, upd_conn conn
                            (fun pe => set_inbox (ep_inbox pe ++ [Encode m]) pe) w)).
  { subst sent. unfold conn_Encode. by rewrite Hc, Hclc, Hlink. }
  subst w'. rewrite Hsent. cbn [fst snd]. clear Hsent sent.
  set (w1 := upd_conn conn _ w).
  destruct (reader_decode_send self conn w1 (set_inbox [Encode m] ep) zeroMessage m [])
    as (d & Hd & _ & Hconns & Htcp & _).
  - exact Hpc.
  - subst w1. unfold upd_conn. simpl. rewrite lookup_alter_eq, Hep. simpl. by rewrite Hin.
  - exact Hcl.
  - reflexivity.
  - exact Hopen.
  - exact Hroom.
  - rewrite Decode_fresh in Hd. injection Hd as <-.
    split; [reflexivity|]. cbv zeta in Hconns, Htcp. rewrite Htcp, Hconns. simpl.
    split; [reflexivity|]. rewrite lookup_insert_eq. split; [reflexivity|].
    apply Decode_fresh.
Qed.

Lemma encoded_message_arrives_witness :
  let w := run_schedule scenario.idle [TAccept scenario.A; TReader scenario.A 1]
             (ConnectToPeer scenario.B "localhost:3000"
                (scenario.started scenario.dirsA scenario.dirsB)).2 in
  let m := scenario.forged in
  ch_buf (messageCh (tcp scenario.A
                       (managePeerConnection_run 2 scenario.A 1 (conn_Encode 0 m w).2))) =
    [stamp "127.0.0.1:49152" m].
Proof.
  cbv zeta.
  destruct (encoded_message_arrives scenario.A 0 1
              (run_schedule scenario.idle [TAccept scenario.A; TReader scenario.A 1]
                 (ConnectToPeer scenario.B "localhost:3000"
                    (scenario.started scenario.dirsA scenario.dirsB)).2)
              {| ep_owner := scenario.B; ep_remote := "127.0.0.1:3000"; ep_link := 1;
                 ep_inbox := []; ep_closed := false; ep_eof := false |}
              {| ep_owner := scenario.A; ep_remote := "127.0.0.1:49152"; ep_link := 0;
                 ep_inbox := []; ep_closed := false; ep_eof := false |}
              scenario.forged)
    as (_ & Hbuf & _).
  - vm_compute. reflexivity.
  - reflexivity.
  - reflexivity.
  - vm_compute. reflexivity.
  - reflexivity.
  - reflexivity.
  - vm_compute. reflexivity.
  - vm_compute. reflexivity.
  - vm_compute. lia.
  - cbv zeta in Hbuf. rewrite Hbuf. vm_compute. reflexivity.
Defined.

(** X18: a reader registers its connection under the remote address
    before it reads, and stamps that address on what it queues. So a
    [Send] to the [FromAddr] of the first message a reader queues finds the
    connection the message came in on: it dials nothing, writes one frame
    for the other end of that connection and returns nil. *)
Theorem reply_travels_back_on_the_connection (yield : World -> World) (self conn : nat)
    (w : World) (ep : Endpoint) (m reply : Message) (rest : list Frame) :
  n_readers (node self w) !! conn = Some RStart ->
  conns w !! conn = Some ep ->
  ep_closed ep = false ->
  ep_inbox ep = Encode m :: rest ->
  ch_closed (messageCh (tcp self w)) = false ->
  (length (ch_buf (messageCh (tcp self w))) < messageCh_cap)%nat ->
  let w3 := managePeerConnection_run 3 self conn w in
  let got := stamp (ep_remote ep) m in
  ch_buf (messageCh (tcp self w3)) = ch_buf (messageCh (tcp self w)) ++ [got] /\
  peers (tcp self w3) !! FromAddr got = Some conn /\
  Send yield self (FromAddr got) reply w3 =
    (None, upd_conn (ep_link ep)
             (fun pe => set_inbox (ep_inbox pe ++ [Encode reply]) pe) w3) /\
  peers (tcp self (Send yield self (FromAddr got) reply w3).2) = peers (tcp self w3).
Proof.
  intros Hpc Hep Hcl Hin Hopen Hroom w3 got.
  destruct (reader_registers self conn w ep Hpc Hep) as (Hpc1 & Hc1 & Ht1).
  cbv zeta in Hpc1, Hc1, Ht1.
  subst w3. change 3%nat with (1 + 2)%nat. rewrite managePeerConnection_run_add.
  set (w1 := managePeerConnection_run 1 self conn w) in *. clearbody w1.
  destruct (reader_decode_send self conn w1 ep zeroMessage m rest)
    as (d & Hd & _ & Hc3 & Ht3 & _).
  - exact Hpc1.
  - by rewrite Hc1.
  - exact Hcl.
  - exact Hin.
  - by rewrite Ht1.
  - by rewrite Ht1.
  - rewrite Decode_fresh in Hd. injection Hd as <-.
    cbv zeta in Hc3, Ht3. fold got in Ht3.
    set (w3 := managePeerConnection_run 2 self conn w1) in *. clearbody w3.
    assert (Hreg : peers (tcp self w3) !! FromAddr got = Some conn).
    { rewrite Ht3, Ht1. simpl. apply lookup_insert_eq. }
    assert (Hsend : Send yield self (FromAddr got) reply w3 =
                    (None, upd_conn (ep_link ep)
                             (fun pe => set_inbox (ep_inbox pe ++ [Encode reply]) pe) w3)).
    { unfold Send. rewrite Hreg. unfold conn_Encode. rewrite Hc3, lookup_insert_eq.
      simpl. by rewrite Hcl. }
    split. { rewrite Ht3, Ht1. reflexivity. }
    split; [exact Hreg|]. split; [exact Hsend|].
    rewrite Hsend. reflexivity.
Qed.

Lemma reply_travels_back_on_the_connection_witness :
  let w := scenario.forged_sent in
  let w3 := managePeerConnection_run 3 scenario.A 1 w in
  (Send scenario.idle scenario.A "127.0.0.1:49152" (scenario.request "x") w3).1 = None /\
  ep_inbox <$> conns (Send scenario.idle scenario.A "127.0.0.1:49152"
                        (scenario.request "x") w3).2 !! 0%nat =
    Some [Encode (scenario.request "x")].
Proof.
  cbv zeta.
  destruct (reply_travels_back_on_the_connection scenario.idle scenario.A 1
              scenario.forged_sent
              {| ep_owner := scenario.A; ep_remote := "127.0.0.1:49152"; ep_link := 0;
                 ep_inbox := [Encode scenario.forged]; ep_closed := false; ep_eof := false |}
              scenario.forged (scenario.request "x") [])
    as (_ & _ & Hsend & _).
  - vm_compute. reflexivity.
  - vm_compute. reflexivity.
  - reflexivity.
  - reflexivity.
  - vm_compute. reflexivity.
  - vm_compute. lia.
  - cbv zeta in Hsend. simpl FromAddr in Hsend. rewrite Hsend.
    split; [reflexivity|]. vm_compute. reflexivity.
Defined.

(* ===================================================================== *)
(** ** The capacity of the queue *)
(* ===================================================================== *)

Section QueueBound.
Variable yield : World -> World.
Hypothesis yield_channels :
  forall w i, messageCh (tcp i (yield w)) = messageCh (tcp i w).
Implicit Types (w : World) (self conn i : nat).

(** A reader appends to the queue of its process only when there is
    room. *)
Lemma reader_step_queue self conn w w' :
  managePeerConnection_step self conn w = Some w' ->
  ch_buf (messageCh (tcp self w')) = ch_buf (messageCh (tcp self w)) \/
  (exists m, ch_buf (messageCh (tcp self w')) = ch_buf (messageCh (tcp self w)) ++ [m] /\
             (length (ch_buf (messageCh (tcp self w))) < messageCh_cap)%nat).
Proof.
  unfold managePeerConnection_step.
  assert (Hret : forall x remote,
            messageCh (tcp self (managePeerConnection_return self conn remote x))
            = messageCh (tcp self x)).
  { intros x remote. by rewrite tcp_return. }
  destruct (n_readers (node self w) !! conn) as [[| msg | msg |]|];
    destruct (conns w !! conn) as [ep|]; try discriminate.
  - intros [= <-]. left. by rewrite tcp_set_pc, tcp_upd_tcp, tcp_logf.
  - destruct (ep_closed ep).
    { intros [= <-]. left. by rewrite Hret, tcp_logf. }
    destruct (ep_inbox ep) as [|f rest].
    { destruct (ep_eof ep); [|discriminate]. intros [= <-]. left. by rewrite Hret. }
    destruct (Decode f msg) as [m | err].
    + intros [= <-]. left. by rewrite tcp_set_pc.
    + intros [= <-]. left. rewrite Hret. destruct (is_EOF err); [done|]. by rewrite tcp_logf.
  - fold (tcp self w). destruct (ch_closed (messageCh (tcp self w))).
    { intros [= <-]. left. rewrite tcp_upd_node_same by done. by rewrite Hret. }
    destruct (decide _) as [Hroom|]; [|discriminate].
    intros [= <-]. right. exists msg. rewrite tcp_set_pc, tcp_upd_tcp. by split.
Qed.

Lemma step_queue_bound th w w' i :
  step yield th w = Some w' ->
  (length (ch_buf (messageCh (tcp i w))) <= messageCh_cap)%nat ->
  (length (ch_buf (messageCh (tcp i w'))) <= messageCh_cap)%nat.
Proof.
  unfold step. destruct (n_panic _); [discriminate|].
  destruct th as [n | n conn | n]; intros Hs Hle.
  - by rewrite (messageCh_accept n w w' i Hs).
  - destruct (decide (i = n)) as [->|Hne].
    + destruct (reader_step_queue n conn w w' Hs) as [-> | (m & -> & Hlt)]; [done|].
      rewrite length_app. simpl. lia.
    + by rewrite (messageCh_reader_other n conn w w' i Hs Hne).
  - destruct (messageCh_dispatch yield yield_channels n w w' i Hs) as [Hother Hown].
    destruct (decide (i = n)) as [->|Hne].
    + destruct Hown as [-> | [m Hm]]; [done|]. rewrite Hm in Hle. simpl in Hle. lia.
    + by rewrite Hother.
Qed.
End QueueBound.

(** X19: the message queue of a process never holds more than its
    capacity of 1024 messages, whatever goroutines run in whatever order.
    A reader whose message finds the queue full is blocked at its send: it
    neither drops the message nor reads on. *)
Theorem queue_never_exceeds_capacity (yield : World -> World) (sched : list Thread)
    (w : World) (self : nat) :
  (forall w0 i, messageCh (tcp i (yield w0)) = messageCh (tcp i w0)) ->
  (length (ch_buf (messageCh (tcp self w))) <= messageCh_cap)%nat ->
  (length (ch_buf (messageCh (tcp self (run_schedule yield sched w)))) <= messageCh_cap)%nat /\
  (forall conn m ep,
     n_readers (node self w) !! conn = Some (RSend m) ->
     conns w !! conn = Some ep ->
     ch_closed (messageCh (tcp self w)) = false ->
     length (ch_buf (messageCh (tcp self w))) = messageCh_cap ->
     step yield (TReader self conn) w = None /\
     run_schedule yield [TReader self conn] w = w).
Proof.
  intros Hy Hle. split.
  - revert w Hle. induction sched as [|th sched IH]; intros w Hle; simpl; [apply Hle|].
    apply IH. destruct (step yield th w) as [w1|] eqn:Hs; [|apply Hle].
    by apply (step_queue_bound yield Hy th w w1 self Hs).
  - intros conn m ep Hpc Hep Hopen Hfull.
    assert (Hblocked : step yield (TReader self conn) w = None).
    { unfold step. destruct (n_panic _); [done|].
      unfold managePeerConnection_step. rewrite Hpc, Hep. fold (tcp self w).
      rewrite Hopen. rewrite decide_False; [done|]. lia. }
    split; [exact Hblocked|]. simpl. by rewrite Hblocked.
Qed.

Lemma queue_never_exceeds_capacity_witness :
  let w := scenario.started (scenario.sharing "greet.txt" (scenario.bytes "hello"))
             scenario.dirsB in
  (length (ch_buf (messageCh (tcp scenario.A
             (run_schedule scenario.idle scenario.exchange w)))) <= messageCh_cap)%nat.
Proof.
  cbv zeta.
  destruct (queue_never_exceeds_capacity scenario.idle scenario.exchange
              (scenario.started (scenario.sharing "greet.txt" (scenario.bytes "hello"))
                 scenario.dirsB) scenario.A)
    as [Hle _].
  - reflexivity.
  - vm_compute. lia.
  - exact Hle.
Defined.

(* ===================================================================== *)
(** ** main *)
(* ===================================================================== *)

Section MainFacts.
Variable env : Env main.call.
Variable f : main.Flags.

(** What [main] does with the directories, after any calls [hist] that
    created, started, requested and offered nothing. *)
Lemma with_directories_run shared received t hist :
  main.created hist = [] -> main.starts hist = [] ->
  main.requested hist = [] -> main.offered hist = [] ->
  let r := exec main.nominal env (main.with_directories f shared received) t hist in
  main.created r.2 =
    [(main.peerID f, "localhost:" +:+ main.port f, shared, received)] /\
  (exists e, r.1.1 = Returned e) /\
  (main.starts r.2 = [None] ->
     (main.receiveFile f <> EmptyString -> main.targetPeer f = EmptyString ->
        r.1.1 = Returned (main.Fatal "Please specify peer address with -peer flag") /\
        main.requested r.2 = [] /\ main.offered r.2 = []) /\
     (main.receiveFile f <> EmptyString -> main.targetPeer f <> EmptyString ->
        r.1.1 = Returned main.Parked /\
        main.requested r.2 = [(main.targetPeer f, main.receiveFile f)] /\
        main.offered r.2 = []) /\
     (main.receiveFile f = EmptyString -> main.sendFile f <> EmptyString ->
        r.1.1 = Returned main.Parked /\
        main.requested r.2 = [] /\ main.offered r.2 = [main.sendFile f]) /\
     (main.receiveFile f = EmptyString -> main.sendFile f = EmptyString ->
        r.1.1 = Returned main.Parked /\
        main.requested r.2 = [] /\ main.offered r.2 = [])) /\
  (main.starts r.2 <> [None] ->
     r.1.1 <> Returned main.Parked /\
     main.requested r.2 = [] /\ main.offered r.2 = []).
Proof.
  intros Hc Hs Hr Ho.
  assert (Hfacts : forall new,
            main.created (hist ++ new) = main.created new /\
            main.starts (hist ++ new) = main.starts new /\
            main.requested (hist ++ new) = main.requested new /\
            main.offered (hist ++ new) = main.offered new).
  { intros new. unfold main.created, main.starts, main.requested, main.offered.
    rewrite !omap_app.
    fold (main.created hist) (main.starts hist) (main.requested hist) (main.offered hist).
    by rewrite Hc, Hs, Hr, Ho. }
  unfold main.with_directories. simpl. answer env.
  destruct ans as [err|]; simpl.
  { destruct (Hfacts [En t (main.peer_New (main.peerID f) ("localhost:" +:+ main.port f)
                              shared received) (Some err)]) as (-> & -> & -> & ->).
    split; [done|]. split; [eauto|]. split; [discriminate|]. intros _. by repeat split. }
  answer env. rewrite <- !app_assoc. cbn [app].
  destruct ans as [err|]; simpl.
  { match goal with |- context [hist ++ ?new] =>
      destruct (Hfacts new) as (-> & -> & -> & ->) end.
    split; [done|]. split; [eauto|]. split; [discriminate|]. intros _. by repeat split. }
  unfold main.file_operation.
  destruct (decide (main.receiveFile f <> EmptyString)) as [Hrecv|Hrecv];
    [ destruct (decide (main.targetPeer f = EmptyString)) as [Hpeer|Hpeer]; simpl;
      [ | answer env; destruct ans as [err|]; simpl; [answer env; simpl|] ]
    | apply dec_stable in Hrecv;
      destruct (decide (main.sendFile f <> EmptyString)) as [Hsend|Hsend]; simpl;
      [ answer env; destruct ans as [err|]; simpl; answer env; simpl
      | apply dec_stable in Hsend; answer env; simpl; answer env; simpl; answer env; simpl ] ];
    rewrite <- ?app_assoc; cbn [app];
    match goal with |- context [hist ++ ?new] =>
      destruct (Hfacts new) as (-> & -> & -> & ->) end;
    (split; [done|]); (split; [eauto|]);
    (split; [intros _ | intros Hne; by destruct Hne]);
    repeat split; intros; try done.
Qed.
End MainFacts.

(** X23: with [-id] and [-port] given, [main] derives a missing
    [-shared] or [-received] directory from the peer id without its first
    four bytes. When the id is shorter than four bytes and one of the
    directories is missing, [main] panics on the slice before any peer is
    created or started. Otherwise it creates exactly one peer, with the id,
    [localhost:port] and the given or derived directories, and does not
    panic. *)
Theorem main_slices_the_peer_id (env : Env main.call) (f : main.Flags) (now : Z) :
  main.peerID f <> EmptyString ->
  main.port f <> EmptyString ->
  let r := exec main.nominal env (main.main f) now [] in
  let id := main.peerID f in
  let suffix := String.substring 4 (String.length id - 4) id in
  let shared := if decide (main.sharedDir f = EmptyString)
                then filepath.Join ["."; "shared" +:+ suffix] else main.sharedDir f in
  let received := if decide (main.receivedDir f = EmptyString)
                  then filepath.Join ["."; "received" +:+ suffix] else main.receivedDir f in
  ((String.length id < 4)%nat ->
   main.sharedDir f = EmptyString \/ main.receivedDir f = EmptyString ->
     (exists v, r.1.1 = Panicked v) /\
     main.created r.2 = [] /\ main.starts r.2 = []) /\
  ((4 <= String.length id)%nat \/
   (main.sharedDir f <> EmptyString /\ main.receivedDir f <> EmptyString) ->
     main.created r.2 = [(id, "localhost:" +:+ main.port f, shared, received)] /\
     exists e, r.1.1 = Returned e).
Proof.
  intros Hid Hport r id suffix shared received. subst r.
  pose proof (with_directories_run env f) as Hrun.
  unfold main.main. set (K := main.with_directories f) in *. clearbody K.
  simpl. answer env. simpl.
  rewrite decide_False by tauto.
  unfold main.default_dir, main.slice_from. fold id. split.
  - intros Hshort Hdef.
    destruct (decide (String.length id < 4)%nat) as [_|]; [|lia].
    destruct (decide (main.sharedDir f = EmptyString)) as [Hs|Hs]; simpl.
    + split; [eauto | by split].
    + destruct Hdef as [Hdef|Hdef]; [done|].
      destruct (decide (main.receivedDir f = EmptyString)); [|done]. simpl.
      split; [eauto | by split].
  - intros Hok. subst shared received.
    destruct (decide (main.sharedDir f = EmptyString)) as [Hs|Hs];
      destruct (decide (main.receivedDir f = EmptyString)) as [Hr|Hr];
      destruct (decide (String.length id < 4)%nat) as [Hlt|_];
      try (exfalso; destruct Hok as [Hok | [? ?]]; [lia | done]);
      simpl; fold suffix;
      match goal with
      | |- context [exec _ _ (K ?s ?r0) ?t ?h] =>
          destruct (Hrun s r0 t h) as (Hc & He & _); try reflexivity;
          split; [exact Hc | exact He]
      end.
Qed.

Lemma main_slices_the_peer_id_witness :
  let f := main.mkFlags "ab" "3000" EmptyString EmptyString EmptyString EmptyString
             EmptyString in
  exists v, (exec main.nominal main.all_succeed (main.main f) 0 []).1.1 = Panicked v.
Proof.
  cbv zeta.
  destruct (main_slices_the_peer_id main.all_succeed
              (main.mkFlags "ab" "3000" EmptyString EmptyString EmptyString EmptyString
                 EmptyString) 0)
    as [Hshort _].
  - discriminate.
  - discriminate.
  - destruct Hshort as ((v & Hv) & _); [simpl; lia | by left |].
    exists v. exact Hv.
Defined.

(** [-id peer1 -port 3000 -receive greet.txt -peer localhost:3001]: one
    peer with the directories [shared1] and [received1], one request, and
    [main] stays. *)
Example main_receive :
  let f := main.mkFlags "peer1" "3000" EmptyString "greet.txt" "localhost:3001" EmptyString
             EmptyString in
  let r := exec main.nominal main.all_succeed (main.main f) 0 [] in
  r.1.1 = Returned main.Parked /\
  main.created r.2 = [("peer1", "localhost:3000", "shared1", "received1")] /\
  main.requested r.2 = [("localhost:3001", "greet.txt")] /\
  main.offered r.2 = [].
Proof. repeat split; vm_compute; reflexivity. Qed.

(** X24: once the peer has started, [main] requests a file when
    [-receive] is given, and then never offers one; it offers one when only
    [-send] is given; a failure of [RequestFile] or [SendFile] is logged
    and [main] stays in its [select]. The only exit after the start is
    [-receive] without [-peer]. When the peer was not started, nothing is
    requested or offered and [main] does not reach the [select]. *)
Theorem main_file_operation (env : Env main.call) (f : main.Flags) (now : Z) :
  let r := exec main.nominal env (main.main f) now [] in
  (main.starts r.2 = [None] ->
     (main.receiveFile f <> EmptyString -> main.targetPeer f = EmptyString ->
        r.1.1 = Returned (main.Fatal "Please specify peer address with -peer flag") /\
        main.requested r.2 = [] /\ main.offered r.2 = []) /\
     (main.receiveFile f <> EmptyString -> main.targetPeer f <> EmptyString ->
        r.1.1 = Returned main.Parked /\
        main.requested r.2 = [(main.targetPeer f, main.receiveFile f)] /\
        main.offered r.2 = []) /\
     (main.receiveFile f = EmptyString -> main.sendFile f <> EmptyString ->
        r.1.1 = Returned main.Parked /\
        main.requested r.2 = [] /\ main.offered r.2 = [main.sendFile f]) /\
     (main.receiveFile f = EmptyString -> main.sendFile f = EmptyString ->
        r.1.1 = Returned main.Parked /\
        main.requested r.2 = [] /\ main.offered r.2 = [])) /\
  (main.starts r.2 <> [None] ->
     r.1.1 <> Returned main.Parked /\
     main.requested r.2 = [] /\ main.offered r.2 = []).
Proof.
  intros r. subst r.
  pose proof (with_directories_run env f) as Hrun.
  unfold main.main. set (K := main.with_directories f) in *. clearbody K.
  simpl. answer env. simpl.
  destruct (decide (main.peerID f = EmptyString \/ main.port f = EmptyString)).
  { simpl. split; [discriminate|]. intros _. by repeat split. }
  unfold main.default_dir, main.slice_from.
  destruct (decide (main.sharedDir f = EmptyString));
    destruct (decide (main.receivedDir f = EmptyString));
    destruct (decide (String.length (main.peerID f) < 4)%nat); simpl;
    try (split; [discriminate | intros _; by repeat split]);
    match goal with
    | |- context [exec _ _ (K ?s ?r0) ?t ?h] =>
        destruct (Hrun s r0 t h) as (_ & _ & H1 & H2);
        try reflexivity; split; [exact H1 | exact H2]
    end.
Qed.
